(** * ipcheckinfo: the page script [script.js]

    A shallow embedding of the computational parts of the script (the abuse
    score and its badges, the clean-up of a clicked address, the provider
    cascade of the domestic card and the join of the four cards) together
    with the properties its specification states about them.

    Conventions of the embedding.
    - A JavaScript number is an IEEE 754 binary64 value: Rocq's primitive
      [float], with the same round-to-nearest-even arithmetic and the same
      comparisons ([NaN] compares false with everything, [-0 = +0]).
    - A JavaScript string is its sequence of UTF-16 code units.
    - The data the script receives is parsed JSON: [value] has the JSON
      shapes plus [undefined], which property reads produce. *)

From Stdlib Require Import List String Ascii ZArith NArith Bool Lia.
From Stdlib Require Import Uint63 Floats.
Import ListNotations.

Set Warnings "-register-all,-inexact-float".
Local Open Scope bool_scope.

(** ** Strings *)

Definition code_unit := N.
Definition jsstring := list code_unit.

(** Source literals are written as Rocq strings, whose bytes are the UTF-8
    encoding of the text; [js] gives the UTF-16 code units of the same text. *)
Fixpoint utf8_decode (bs : list N) : list N :=
  match bs with
  | [] => []
  | b0 :: r0 =>
    if (b0 <? 128)%N then b0 :: utf8_decode r0
    else
      match r0 with
      | [] => []
      | b1 :: r1 =>
        if (b0 <? 224)%N
        then ((b0 - 192) * 64 + (b1 - 128))%N :: utf8_decode r1
        else
          match r1 with
          | [] => []
          | b2 :: r2 =>
            if (b0 <? 240)%N
            then ((b0 - 224) * 4096 + (b1 - 128) * 64 + (b2 - 128))%N
                   :: utf8_decode r2
            else
              match r2 with
              | [] => []
              | b3 :: r3 =>
                ((b0 - 240) * 262144 + (b1 - 128) * 4096
                 + (b2 - 128) * 64 + (b3 - 128))%N :: utf8_decode r3
              end
          end
      end
  end.

Definition utf16_encode (cp : N) : list code_unit :=
  if (cp <? 65536)%N then [cp]
  else let c := (cp - 65536)%N in [(55296 + c / 1024)%N; (56320 + c mod 1024)%N].

Definition js (s : string) : jsstring :=
  flat_map utf16_encode (utf8_decode (map N_of_ascii (list_ascii_of_string s))).

Fixpoint jsstring_eqb (a b : jsstring) : bool :=
  match a, b with
  | [], [] => true
  | x :: a', y :: b' => (x =? y)%N && jsstring_eqb a' b'
  | _, _ => false
  end.

(** The sentinel the script shows for a missing field. *)
Definition unknown_marker : jsstring := Eval vm_compute in js "未知".
Definition loading_marker : jsstring := Eval vm_compute in js "加载中...".

(** WhiteSpace and LineTerminator code units, what [trim] and [parseFloat]
    strip. *)
Definition is_space (c : code_unit) : bool :=
  ((9 <=? c) && (c <=? 13) || (c =? 32) || (c =? 160) || (c =? 5760)
   || (8192 <=? c) && (c <=? 8202) || (c =? 8232) || (c =? 8233)
   || (c =? 8239) || (c =? 8287) || (c =? 12288) || (c =? 65279))%N.

Fixpoint trim_start (s : jsstring) : jsstring :=
  match s with
  | c :: s' => if is_space c then trim_start s' else s
  | [] => []
  end.

Definition trim_end (s : jsstring) : jsstring := rev (trim_start (rev s)).

(** [String.prototype.trim] *)
Definition trim (s : jsstring) : jsstring := trim_end (trim_start s).

(** ** Values *)

Inductive value :=
| VUndefined
| VNull
| VBool (b : bool)
| VNum (x : float)
| VStr (s : jsstring)
| VArr (items : list value)
| VObj (members : list (jsstring * value)).

Inductive exn :=
| TypeError
| SyntaxError
| NetworkError
| Error (message : jsstring).

(** A computation that returns or throws. *)
Definition result (A : Type) : Type := exn + A.
Definition ok {A} (a : A) : result A := inr a.
Definition throw {A} (e : exn) : result A := inl e.

Definition rbind {A B} (m : result A) (f : A -> result B) : result B :=
  match m with
  | inl e => inl e
  | inr a => f a
  end.

Notation "x <- m ;; k" := (rbind m (fun x => k))
  (at level 61, m at next level, right associativity).

(** ToBoolean *)
Definition truthy (v : value) : bool :=
  match v with
  | VUndefined | VNull => false
  | VBool b => b
  | VNum x => negb ((x =? 0)%float || PrimFloat.is_nan x)
  | VStr s => match s with [] => false | _ => true end
  | VArr _ | VObj _ => true
  end.

(** [a || b] *)
Definition or_else (a b : value) : value := if truthy a then a else b.

(** [v === s] for a string literal [s], [v === x] for a number literal and
    [v === true]. *)
Definition is_string (v : value) (s : jsstring) : bool :=
  match v with
  | VStr t => jsstring_eqb t s
  | _ => false
  end.

Definition is_number (v : value) (x : float) : bool :=
  match v with
  | VNum y => (y =? x)%float
  | _ => false
  end.

Definition is_true (v : value) : bool :=
  match v with
  | VBool true => true
  | _ => false
  end.

Fixpoint lookup (k : jsstring) (ms : list (jsstring * value)) : option value :=
  match ms with
  | [] => None
  | (k', v) :: ms' => if jsstring_eqb k' k then Some v else lookup k ms'
  end.

(** [v.name], for the member names the script reads (none of them is a
    property of a prototype): a [TypeError] on [undefined] and [null], the own
    member of an object, [undefined] otherwise. *)
Definition get (v : value) (name : jsstring) : result value :=
  match v with
  | VUndefined | VNull => throw TypeError
  | VObj ms => ok (match lookup name ms with Some x => x | None => VUndefined end)
  | _ => ok VUndefined
  end.

(** [v?.name] *)
Definition get_opt (v : value) (name : jsstring) : value :=
  match get v name with
  | inr x => x
  | inl _ => VUndefined
  end.

Fixpoint decimal_digits (fuel : nat) (n : N) (acc : jsstring) : jsstring :=
  match fuel with
  | O => acc
  | S fuel' =>
    let acc' := (48 + n mod 10)%N :: acc in
    if (n <? 10)%N then acc' else decimal_digits fuel' (n / 10)%N acc'
  end.

(** The decimal numeral of a natural number. *)
Definition decimal (n : N) : jsstring := decimal_digits (S (N.to_nat (N.log2 n))) n [].

(** [v[i]] for an index literal [i]. *)
Definition get_index (v : value) (i : nat) : result value :=
  match v with
  | VUndefined | VNull => throw TypeError
  | VArr l => ok (nth i l VUndefined)
  | VStr s => ok (match nth_error s i with Some c => VStr [c] | None => VUndefined end)
  | VObj ms =>
    ok (match lookup (decimal (N.of_nat i)) ms with Some x => x | None => VUndefined end)
  | _ => ok VUndefined
  end.

(** ** Numbers *)

Definition is_digit (c : code_unit) : bool := ((48 <=? c) && (c <=? 57))%N.

Definition digit_value (c : code_unit) : Z := Z.of_N (c - 48).

(** The longest run of decimal digits at the head of a string, and the rest. *)
Fixpoint span_digits (s : jsstring) : jsstring * jsstring :=
  match s with
  | c :: s' =>
    if is_digit c then let (d, r) := span_digits s' in (c :: d, r) else ([], s)
  | [] => ([], [])
  end.

Definition digits_value (ds : jsstring) : Z :=
  fold_left (fun acc c => (acc * 10 + digit_value c)%Z) ds 0%Z.

(** The value of an ExponentPart at the head of a string: [e] or [E], an
    optional sign and at least one digit; 0 when there is none. *)
Definition exponent_part (s : jsstring) : Z :=
  match s with
  | c :: s1 =>
    if ((c =? 101) || (c =? 69))%N then
      match s1 with
      | sg :: s2 =>
        if ((sg =? 43) || (sg =? 45))%N then
          let (ds, _) := span_digits s2 in
          if (sg =? 45)%N then (- digits_value ds)%Z else digits_value ds
        else let (ds, _) := span_digits s1 in digits_value ds
      | [] => 0%Z
      end
    else 0%Z
  | [] => 0%Z
  end.

(** The longest prefix that is a StrUnsignedDecimalLiteral other than
    [Infinity], as a digit string read as an integer and a power of ten. *)
Definition unsigned_decimal (s : jsstring) : option (Z * Z) :=
  let (ip, r) := span_digits s in
  match r with
  | 46%N :: r1 =>
    let (fp, r2) := span_digits r1 in
    match ip, fp with
    | [], [] => None
    | _, _ =>
      Some (digits_value (ip ++ fp)%list,
            (exponent_part r2 - Z.of_nat (List.length fp))%Z)
    end
  | _ =>
    match ip with
    | [] => None
    | _ => Some (digits_value ip, exponent_part r)
    end
  end.

(** The binary64 value nearest to [m * 10^e] (ties to even), with the sign
    [neg]: the quotient of two integers, rounded once. *)
Definition float_of_decimal (neg : bool) (m e : Z) : float :=
  match m with
  | Zpos p =>
    let num := if (0 <=? e)%Z then (p * Z.to_pos (10 ^ e))%positive else p in
    let den := if (0 <=? e)%Z then 1%positive else Z.to_pos (10 ^ (- e)) in
    SF2Prim (SFdiv prec emax (S754_finite neg num 0) (S754_finite false den 0))
  | _ => if neg then neg_zero else zero
  end.

Fixpoint starts_with (p s : jsstring) : bool :=
  match p, s with
  | [], _ => true
  | x :: p', y :: s' => (x =? y)%N && starts_with p' s'
  | _ :: _, [] => false
  end.

(** [parseFloat] of a string: leading white space is skipped, the longest
    prefix that is a StrDecimalLiteral is read, [NaN] when there is none. *)
Definition parseFloat_string (s : jsstring) : float :=
  let t := trim_start s in
  let '(neg, u) :=
    match t with
    | 45%N :: u => (true, u)
    | 43%N :: u => (false, u)
    | _ => (false, t)
    end in
  if starts_with (js "Infinity") u
  then (if neg then neg_infinity else infinity)
  else
    match unsigned_decimal u with
    | Some (m, e) => float_of_decimal neg m e
    | None => nan
    end.

(** ToString of a value throws exactly when an object met on the way has a
    member named [toString] of its own: parsed JSON holds no function, so the
    member is not callable and [Object.prototype.valueOf] returns the object
    itself.  An array is joined, so each of its items is converted. *)
Fixpoint to_string_throws (v : value) : bool :=
  match v with
  | VArr items => existsb to_string_throws items
  | VObj ms =>
    match lookup (js "toString") ms with
    | Some _ => true
    | None => false
    end
  | _ => false
  end.

(** What [parseFloat] reads in ToString of a value.  The numeral of a number
    reads back as the number ([-0] prints as [0]); the words [undefined],
    [null], [true], [false] and [[object Object]] have no decimal prefix; the
    join of an array starts with its first item, followed by a comma. *)
Fixpoint parseFloat_of (v : value) : float :=
  match v with
  | VNum x => if (x =? 0)%float then 0%float else x
  | VStr s => parseFloat_string s
  | VArr (x :: _) => parseFloat_of x
  | _ => nan
  end.

Definition parseFloat (v : value) : result float :=
  if to_string_throws v then throw TypeError else ok (parseFloat_of v).

(** [x || 0] on numbers *)
Definition number_or_zero (x : float) : float :=
  if (x =? 0)%float || PrimFloat.is_nan x then 0%float else x.

Definition number_of_nat (n : nat) : float :=
  PrimFloat.of_uint63 (Uint63.of_Z (Z.of_nat n)).

(** ** The abuse score (section 4a of the script) *)

(** What the score functions take and return: a number, [null] or
    [undefined]. *)
Inductive score :=
| SNull
| SUndefined
| SNumber (x : float).

(** Text built by the script: a literal, [x.toFixed(2)] (left to the
    runtime), and concatenation. *)
Inductive text :=
| Lit (s : jsstring)
| ToFixed2 (x : float)
| Append (a b : text).

Definition normalizeScore (s : value) : value :=
  if negb (truthy s) || is_string s unknown_marker then VNum 0%float else s.

Definition riskFlags (securityFlags : value) : result (list value) :=
  is_crawler <- get securityFlags (js "is_crawler") ;;
  is_proxy <- get securityFlags (js "is_proxy") ;;
  is_vpn <- get securityFlags (js "is_vpn") ;;
  is_tor <- get securityFlags (js "is_tor") ;;
  is_abuser <- get securityFlags (js "is_abuser") ;;
  is_bogon <- get securityFlags (js "is_bogon") ;;
  ok [is_crawler; is_proxy; is_vpn; is_tor; is_abuser; is_bogon].

Definition riskCount (flags : list value) : nat :=
  List.length (filter is_true flags).

(** [calculateAbuseScore(companyScore, asnScore, securityFlags = {})] *)
Definition calculateAbuseScore (companyScore asnScore securityFlags : value)
  : result score :=
  let securityFlags :=
    match securityFlags with
    | VUndefined => VObj []
    | _ => securityFlags
    end in
  let companyScore := normalizeScore companyScore in
  let asnScore := normalizeScore asnScore in
  c <- parseFloat companyScore ;;
  let company := number_or_zero c in
  a <- parseFloat asnScore ;;
  let asn := number_or_zero a in
  let baseScore := (((company + asn) / 2) * 5)%float in
  flags <- riskFlags securityFlags ;;
  let riskAddition := (number_of_nat (riskCount flags) * 0.15)%float in
  let finalScore := (baseScore + riskAddition)%float in
  if (baseScore =? 0)%float && (riskAddition =? 0)%float then ok SNull
  else ok (SNumber finalScore).

(** [getThreatBadgeClass(score)] *)
Definition getThreatBadgeClass (score : value) : result jsstring :=
  if negb (truthy score) then ok (js "badge-info")
  else
    numScore <- parseFloat score ;;
    if (numScore <? 0.001)%float then ok (js "badge-success")
    else if (numScore <? 0.01)%float then ok (js "badge-info")
    else if (numScore <? 0.1)%float then ok (js "badge-warning")
    else ok (js "badge-danger").

(** [getAbuseScoreBadgeClass(percentage)] *)
Definition getAbuseScoreBadgeClass (percentage : score) : jsstring :=
  match percentage with
  | SNull | SUndefined => js "badge-info"
  | SNumber p =>
    if (100 <=? p)%float then js "badge-critical"
    else if (20 <=? p)%float then js "badge-high"
    else if (5 <=? p)%float then js "badge-elevated"
    else if (0.25 <=? p)%float then js "badge-low"
    else js "badge-verylow"
  end.

(** [formatAbuseScorePercentage(score)] *)
Definition formatAbuseScorePercentage (s : score) : text :=
  match s with
  | SNull | SUndefined => Lit unknown_marker
  | SNumber x =>
    let percentage := (x * 100)%float in
    Append (ToFixed2 percentage) (Lit (js "%"))
  end.

(** The risk-control cell of [showIpDetailModal]: the text [未知], or a badge
    with its class, the formatted score and the level text. *)
Inductive risk_control :=
| RiskText (s : jsstring)
| RiskBadge (badgeClass : jsstring) (formattedScore : text) (riskLevel : jsstring).

Definition riskLevelText (scorePercentage : float) : jsstring :=
  if (100 <=? scorePercentage)%float then js "极度危险"
  else if (20 <=? scorePercentage)%float then js "高风险"
  else if (5 <=? scorePercentage)%float then js "轻微风险"
  else if (0.25 <=? scorePercentage)%float then js "纯净"
  else js "极度纯净".

(** Lines 617-656 of [showIpDetailModal(data)]: the composite score of the
    looked-up address, and the cell that shows it. *)
Definition combinedScore (data : value) : result score :=
  company <- get data (js "company") ;;
  let companyScore :=
    match company with
    | VUndefined | VNull => VUndefined
    | _ => get_opt company (js "abuser_score")
    end in
  asn <- get data (js "asn") ;;
  let asnScore :=
    match asn with
    | VUndefined | VNull => VUndefined
    | _ => get_opt asn (js "abuser_score")
    end in
  is_crawler <- get data (js "is_crawler") ;;
  is_proxy <- get data (js "is_proxy") ;;
  is_vpn <- get data (js "is_vpn") ;;
  is_tor <- get data (js "is_tor") ;;
  is_abuser <- get data (js "is_abuser") ;;
  is_bogon <- get data (js "is_bogon") ;;
  let securityFlags :=
    VObj [(js "is_crawler", is_crawler); (js "is_proxy", is_proxy);
          (js "is_vpn", is_vpn); (js "is_tor", is_tor);
          (js "is_abuser", is_abuser); (js "is_bogon", is_bogon)] in
  calculateAbuseScore companyScore asnScore securityFlags.

Definition riskControl (combinedScore : score) : risk_control :=
  match combinedScore with
  | SNull => RiskText unknown_marker
  | _ =>
    let scorePercentage :=
      match combinedScore with
      | SNumber x => (x * 100)%float
      | _ => nan
      end in
    let badgeClass := getAbuseScoreBadgeClass (SNumber scorePercentage) in
    let formattedScore := formatAbuseScorePercentage combinedScore in
    RiskBadge badgeClass formattedScore (riskLevelText scorePercentage)
  end.

Definition riskControlHTML (data : value) : result risk_control :=
  s <- combinedScore data ;;
  ok (riskControl s).

(** Lines 886-888 and 934-936 of [showIpDetailModal]: the badge of the
    per-source score of a section ([data.company] or [data.asn]) that is
    present. *)
Definition sectionBadgeClass (section : value) : result jsstring :=
  raw <- get section (js "abuser_score") ;;
  let abuserScore := or_else raw (VStr unknown_marker) in
  getThreatBadgeClass abuserScore.

(** ** The page and the event loop *)

(** What an element holds after the script wrote it. *)
Inductive content :=
| Text (v : value)
  (** [textContent = v] *)
| ErrorSpan (message : jsstring)
  (** [innerHTML = '<span class="error">message</span>'] *)
| IndicatorAndLabel (label : jsstring)
  (** [innerHTML = '<span class="status-indicator" id="status-ipip"></span>label'] *).

Record element := {
  className : jsstring;
  inner : content;
  spinner : bool  (** a child of class [loading-spinner] *)
}.

(** The elements the script reaches: by id, and the parent of one. *)
Inductive node :=
| ById (id : jsstring)
| ParentOf (id : jsstring).

Definition node_eqb (a b : node) : bool :=
  match a, b with
  | ById x, ById y | ParentOf x, ParentOf y => jsstring_eqb x y
  | _, _ => false
  end.

(** The page: the markup (which is not part of the script) has every element
    the script looks up, so a lookup always finds one. *)
Definition dom := node -> element.

Definition update (n : node) (f : element -> element) (d : dom) : dom :=
  fun m => if node_eqb m n then f (d m) else d m.

Record response := {
  status : N;
  json_body : result value;    (** what [response.json()] settles to *)
  text_body : result jsstring  (** what [response.text()] settles to *)
}.

(** [response.ok] *)
Definition response_ok (r : response) : bool :=
  ((200 <=? status r) && (status r <=? 299))%N.

Inductive event :=
| Fetch (url : jsstring)
| ConsoleLog (message : jsstring)
| ConsoleWarn (message : jsstring) (e : exn)
| ConsoleError (message : jsstring) (e : option exn)
| Toast (message : jsstring)
| Modal (data : value).

(** An [async] function body: synchronous steps on the page, the clock and
    the log, and the points where it awaits a promise and is resumed with
    what the promise settled to. *)
Inductive async (A : Type) : Type :=
| Ret (a : A)
| Throw (e : exn)
| Dom (f : dom -> dom) (k : async A)
| Read (k : dom -> async A)
| Now (k : N -> async A)
| Emit (e : event) (k : async A)
| AwaitFetch (url : jsstring) (k : result response -> async A)
| AwaitJson (r : response) (k : result value -> async A)
| AwaitText (r : response) (k : result jsstring -> async A).

Arguments Ret {A} a.
Arguments Throw {A} e.
Arguments Dom {A} f k.
Arguments Read {A} k.
Arguments Now {A} k.
Arguments Emit {A} e k.
Arguments AwaitFetch {A} url k.
Arguments AwaitJson {A} r k.
Arguments AwaitText {A} r k.

Fixpoint bind {A B} (m : async A) (f : A -> async B) : async B :=
  match m with
  | Ret a => f a
  | Throw e => Throw e
  | Dom g k => Dom g (bind k f)
  | Read k => Read (fun d => bind (k d) f)
  | Now k => Now (fun t => bind (k t) f)
  | Emit e k => Emit e (bind k f)
  | AwaitFetch url k => AwaitFetch url (fun r => bind (k r) f)
  | AwaitJson r k => AwaitJson r (fun x => bind (k x) f)
  | AwaitText r k => AwaitText r (fun x => bind (k x) f)
  end.

(** [try { m } catch (error) { h error }] *)
Fixpoint try_catch {A} (m : async A) (h : exn -> async A) : async A :=
  match m with
  | Ret a => Ret a
  | Throw e => h e
  | Dom g k => Dom g (try_catch k h)
  | Read k => Read (fun d => try_catch (k d) h)
  | Now k => Now (fun t => try_catch (k t) h)
  | Emit e k => Emit e (try_catch k h)
  | AwaitFetch url k => AwaitFetch url (fun r => try_catch (k r) h)
  | AwaitJson r k => AwaitJson r (fun x => try_catch (k x) h)
  | AwaitText r k => AwaitText r (fun x => try_catch (k x) h)
  end.

Declare Scope async_scope.
Delimit Scope async_scope with async.
Notation "x <~ m ;; k" := (bind m (fun x => k))
  (at level 61, m at next level, right associativity) : async_scope.
Notation "m ;;; k" := (bind m (fun _ => k))
  (at level 61, right associativity) : async_scope.

(** A synchronous computation inside an [async] body. *)
Definition lift {A} (r : result A) : async A :=
  match r with
  | inl e => Throw e
  | inr a => Ret a
  end.

(** A rejected promise throws at the [await]. *)
Definition settled {A} (r : result A) : async A := lift r.

(** [await fetch(url)]: the call is logged, then the function is suspended. *)
Definition fetch (url : jsstring) : async response :=
  Emit (Fetch url) (AwaitFetch url settled).

Definition await_json (r : response) : async value := AwaitJson r settled.
Definition await_text (r : response) : async jsstring := AwaitText r settled.

Definition dom_ (f : dom -> dom) : async unit := Dom f (Ret tt).
Definition emit (e : event) : async unit := Emit e (Ret tt).

(** The world outside the script: what each request settles to, and what
    the clock shows at each reading. *)
Record world := {
  net : jsstring -> result response;
  clock : nat -> N
}.

Record state := {
  page : dom;
  ticks : nat;        (** readings of the clock so far *)
  log : list event    (** oldest first *)
}.

Definition on_page (f : dom -> dom) (s : state) : state :=
  {| page := f (page s); ticks := ticks s; log := log s |}.
Definition tick (s : state) : state :=
  {| page := page s; ticks := S (ticks s); log := log s |}.
Definition record (e : event) (s : state) : state :=
  {| page := page s; ticks := ticks s; log := (log s ++ [e])%list |}.

(** Running one function to its end, each awaited promise settling as the
    world says. *)
Fixpoint run {A} (w : world) (m : async A) (s : state) : result A * state :=
  match m with
  | Ret a => (ok a, s)
  | Throw e => (throw e, s)
  | Dom f k => run w k (on_page f s)
  | Read k => run w (k (page s)) s
  | Now k => run w (k (clock w (ticks s))) (tick s)
  | Emit e k => run w k (record e s)
  | AwaitFetch url k => run w (k (net w url)) s
  | AwaitJson r k => run w (k (json_body r)) s
  | AwaitText r k => run w (k (text_body r)) s
  end.

(** ** The domestic card: the provider cascade of [fetchIpipData] *)

Local Open Scope list_scope.
Local Open Scope async_scope.

Definition with_className (c : jsstring) (e : element) : element :=
  {| className := c; inner := inner e; spinner := spinner e |}.

Definition with_inner (c : content) (e : element) : element :=
  {| className := className e; inner := c; spinner := false |}.

(** [setStatus(id, status)] *)
Definition setStatus (id status : jsstring) : dom -> dom :=
  update (ById id) (with_className (js "status-indicator status-" ++ status)).

(** [document.getElementById(id).textContent = v]; the conversion of [v] to
    a string can throw. *)
Definition set_textContent (id : jsstring) (v : value) : async unit :=
  if to_string_throws v then Throw TypeError
  else dom_ (update (ById id) (with_inner (Text v))).

Definition error_marker : jsstring := Eval vm_compute in js "加载失败".

(** [document.getElementById(id).innerHTML = '<span class="error">加载失败</span>'] *)
Definition set_error (id : jsstring) : dom -> dom :=
  update (ById id) (with_inner (ErrorSpan error_marker)).

Record normalized := {
  ip : value;
  country : value;
  city : value
}.

Record apiConfig := {
  name : jsstring;
  url : jsstring;
  parser : value -> result normalized
}.

Definition format_error : exn := Error (js "数据格式错误").

Definition speedtest_parser (data : value) : result normalized :=
  code <- get data (js "code") ;;
  if is_number code 0%float then
    d <- get data (js "data") ;;
    if truthy d then
      i <- get d (js "ip") ;;
      c <- get d (js "country") ;;
      t <- get d (js "city") ;;
      ok {| ip := or_else i (VStr unknown_marker);
            country := or_else c (VStr unknown_marker);
            city := or_else t (VStr unknown_marker) |}
    else throw format_error
  else throw format_error.

Definition ipipv_parser (data : value) : result normalized :=
  i <- get data (js "Ip") ;;
  c <- get data (js "Country") ;;
  t <- get data (js "City") ;;
  ok {| ip := or_else i (VStr unknown_marker);
        country := or_else c (VStr unknown_marker);
        city := or_else t (VStr unknown_marker) |}.

Definition ipipnet_parser (data : value) : result normalized :=
  ret <- get data (js "ret") ;;
  if is_string ret (js "ok") then
    d <- get data (js "data") ;;
    if truthy d then
      i <- get d (js "ip") ;;
      l0 <- get d (js "location") ;;
      c <- get_index l0 0 ;;
      l2 <- get d (js "location") ;;
      t <- get_index l2 2 ;;
      ok {| ip := or_else i (VStr unknown_marker);
            country := or_else c (VStr unknown_marker);
            city := or_else t (VStr unknown_marker) |}
    else throw format_error
  else throw format_error.

(** The list [apiConfigs], in priority order. *)
Definition apiConfigs : list apiConfig :=
  [ {| name := js "speedtest.cn";
       url := js "https://api-v3.speedtest.cn/ip";
       parser := speedtest_parser |};
    {| name := js "ipipv.com";
       url := js "https://myip.ipipv.com/";
       parser := ipipv_parser |};
    {| name := js "ipip.net";
       url := js "https://myip.ipip.net/json";
       parser := ipipnet_parser |} ].

(** The address requested from a provider at a reading [timestamp] of the
    clock (milliseconds, printed as a decimal numeral). *)
Definition request_url (config : apiConfig) (timestamp : N) : jsstring :=
  url config
  ++ (if existsb (N.eqb 63) (url config) then js "&" else js "?")
  ++ js "t=" ++ decimal timestamp.

Definition title_label (config : apiConfig) : jsstring :=
  js "国内测试（" ++ name config ++ js "）".

(** [titleElement.innerHTML = ...]: the title gets a fresh indicator and the
    label naming the provider. *)
Definition set_title (config : apiConfig) (d : dom) : dom :=
  update (ById (js "status-ipip"))
    (fun _ => {| className := js "status-indicator";
                 inner := Text (VStr []); spinner := false |})
    (update (ParentOf (js "status-ipip"))
       (with_inner (IndicatorAndLabel (title_label config))) d).

(** The body of the [try] block for one provider. *)
Definition attempt (config : apiConfig) : async unit :=
  Now (fun timestamp =>
    response <~ fetch (request_url config timestamp) ;;
    data <~ await_json response ;;
    result <~ lift (parser config data) ;;
    set_textContent (js "ipip-ip") (ip result) ;;;
    set_textContent (js "ipip-country") (country result) ;;;
    set_textContent (js "ipip-city") (city result) ;;;
    dom_ (setStatus (js "status-ipip") (js "success")) ;;;
    dom_ (set_title config) ;;;
    dom_ (setStatus (js "status-ipip") (js "success")) ;;;
    emit (ConsoleLog (js "使用 " ++ name config ++ js " API 成功"))).

Definition all_failed_message : jsstring := Eval vm_compute in js "所有国内测试 API 都失败".

(** The statements after the loop. *)
Definition failure_path : async unit :=
  dom_ (set_error (js "ipip-ip")) ;;;
  set_textContent (js "ipip-country") (VStr []) ;;;
  set_textContent (js "ipip-city") (VStr []) ;;;
  dom_ (setStatus (js "status-ipip") (js "error")) ;;;
  emit (ConsoleError all_failed_message None).

(** [for (const config of configs) { try { ...; return } catch { warn } }],
    then the failure path. *)
Fixpoint cascade (configs : list apiConfig) : async unit :=
  match configs with
  | [] => failure_path
  | config :: rest =>
    returned <~ try_catch (attempt config ;;; Ret true)
                  (fun error =>
                     emit (ConsoleWarn (name config ++ js " 接口失败:") error) ;;;
                     Ret false) ;;
    if returned then Ret tt else cascade rest
  end.

(** [fetchIpipData] with its provider list as a parameter. *)
Definition fetchIpipDataWith (configs : list apiConfig) : async unit :=
  dom_ (setStatus (js "status-ipip") (js "loading")) ;;;
  cascade configs.

Definition fetchIpipData : async unit := fetchIpipDataWith apiConfigs.

(** ** The other cards, the join and the detail lookup *)

(** [String.prototype.split] at a separator of one code unit. *)
Fixpoint split_at (c : code_unit) (s : jsstring) : list jsstring :=
  match s with
  | [] => [[]]
  | x :: s' =>
    if (x =? c)%N then [] :: split_at c s'
    else
      match split_at c s' with
      | p :: ps => (x :: p) :: ps
      | [] => [[x]]
      end
  end.

Definition nonempty (s : jsstring) : bool :=
  match s with
  | [] => false
  | _ => true
  end.

(** [data[k] = v] on an object created by [{}] (assigning a string to
    [__proto__] changes nothing). *)
Fixpoint assign (k : jsstring) (v : value) (ms : list (jsstring * value))
  : list (jsstring * value) :=
  match ms with
  | [] => if jsstring_eqb k (js "__proto__") then [] else [(k, v)]
  | (k', v') :: ms' =>
    if jsstring_eqb k' k then (k', v) :: ms' else (k', v') :: assign k v ms'
  end.

(** The [key=value] lines of the trace text, as [fetchTwitterData] reads
    them. *)
Definition trace_data (text : jsstring) : value :=
  VObj (fold_left
          (fun data line =>
             match split_at 61%N line with
             | key :: value :: _ =>
               if nonempty key && nonempty value
               then assign (trim key) (VStr (trim value)) data
               else data
             | _ => data
             end)
          (split_at 10%N text) []).

(** [ipText.replace(/\*/g, '0')] *)
Definition replace_stars (s : jsstring) : jsstring :=
  map (fun c => if (c =? 42)%N then 48%N else c) s.

Definition detail_endpoint : jsstring := Eval vm_compute in js "https://api.ipapi.cmliussss.net/?ip=".

(** Class tokens of an element: [classList]. *)
Definition is_ascii_space (c : code_unit) : bool :=
  ((c =? 9) || (c =? 10) || (c =? 12) || (c =? 13) || (c =? 32))%N.

Fixpoint tokens_from (s : jsstring) (cur : jsstring) : list jsstring :=
  match s with
  | [] => if nonempty cur then [rev cur] else []
  | c :: s' =>
    if is_ascii_space c
    then (if nonempty cur then rev cur :: tokens_from s' [] else tokens_from s' [])
    else tokens_from s' (c :: cur)
  end.

Fixpoint ordered_set (seen l : list jsstring) : list jsstring :=
  match l with
  | [] => []
  | t :: l' =>
    if existsb (jsstring_eqb t) seen then ordered_set seen l'
    else t :: ordered_set (t :: seen) l'
  end.

Definition classList (e : element) : list jsstring :=
  ordered_set [] (tokens_from (className e) []).

Definition classList_contains (t : jsstring) (e : element) : bool :=
  existsb (jsstring_eqb t) (classList e).

Fixpoint join_tokens (l : list jsstring) : jsstring :=
  match l with
  | [] => []
  | [t] => t
  | t :: l' => t ++ 32%N :: join_tokens l'
  end.

Definition classList_add (t : jsstring) (e : element) : element :=
  with_className
    (join_tokens (if classList_contains t e then classList e
                  else classList e ++ [t])) e.

(** [element.querySelector('.error')] finds something. *)
Definition has_error_child (e : element) : bool :=
  match inner e with
  | ErrorSpan _ => true
  | _ => false
  end.

Inductive join_state :=
| Waiting               (** [Promise.all] is pending *)
| Joined                (** it fulfilled and [markIpAsClickable] ran *)
| Rejected (e : exn)    (** it rejected: the statement after it is skipped *).

Section Runtime.

(** Number::toString, the numeral the runtime prints for a number. *)
Variable number_to_string : float -> jsstring.
(** [document.querySelectorAll('.ip-text')]: the markup's elements of that
    class, which the script neither adds nor removes. *)
Variable ipTextElements : list node.
(** [document.querySelector('.network-cards-container')] finds an element. *)
Variable hasNetworkCards : bool.
(** [showIpDetailModal(data)]: its update of the page, or what it throws;
    the cells of it that matter here are [riskControlHTML] and
    [sectionBadgeClass]. *)
Variable showIpDetailModal : value -> result (dom -> dom).

(** ToString of a value whose conversion does not throw. *)
Fixpoint to_string (v : value) : jsstring :=
  match v with
  | VUndefined => js "undefined"
  | VNull => js "null"
  | VBool true => js "true"
  | VBool false => js "false"
  | VNum x => number_to_string x
  | VStr s => s
  | VArr items =>
    let item x :=
      match x with
      | VUndefined | VNull => []
      | _ => to_string x
      end in
    (fix join (l : list value) : jsstring :=
       match l with
       | [] => []
       | [x] => item x
       | x :: l' => item x ++ 44%N :: join l'
       end) items
  | VObj _ => js "[object Object]"
  end.

(** [element.textContent] *)
Definition textContent (e : element) : jsstring :=
  match inner e with
  | Text (VUndefined | VNull) => []
  | Text v => to_string v
  | ErrorSpan message => message
  | IndicatorAndLabel label => label
  end.

(** The catch block shared by the three single-provider cards. *)
Definition card_failed (card : jsstring) (message : jsstring) (error : exn)
  : async unit :=
  dom_ (set_error (card ++ js "-ip")) ;;;
  set_textContent (card ++ js "-country") (VStr []) ;;;
  set_textContent (card ++ js "-city") (VStr []) ;;;
  dom_ (setStatus (js "status-" ++ card) (js "error")) ;;;
  emit (ConsoleError message (Some error)).

Definition fetchEdgeOneData : async unit :=
  dom_ (setStatus (js "status-edgeone") (js "loading")) ;;;
  try_catch
    (response <~ fetch (js "https://api.ipapi.cmliussss.net") ;;
     data <~ await_json response ;;
     i <~ lift (get data (js "ip")) ;;
     set_textContent (js "edgeone-ip") (or_else i (VStr unknown_marker)) ;;;
     location <~ lift (get data (js "location")) ;;
     cc <~ lift (get location (js "country_code")) ;;
     set_textContent (js "edgeone-country") (or_else cc (VStr unknown_marker)) ;;;
     asn <~ lift (get data (js "asn")) ;;
     number <~ lift (get asn (js "asn")) ;;
     (if to_string_throws number then Throw TypeError else Ret tt) ;;;
     asn' <~ lift (get data (js "asn")) ;;
     org <~ lift (get asn' (js "org")) ;;
     (if to_string_throws org then Throw TypeError else Ret tt) ;;;
     set_textContent (js "edgeone-city")
       (or_else (VStr (js "AS" ++ to_string number ++ js " " ++ to_string org))
                (VStr unknown_marker)) ;;;
     dom_ (setStatus (js "status-edgeone") (js "success")))
    (card_failed (js "edgeone") (js "EdgeOne 接口错误:")).

Definition fetchCloudFlareData : async unit :=
  dom_ (setStatus (js "status-cf") (js "loading")) ;;;
  try_catch
    (Now (fun timestamp =>
     response <~ fetch (js "https://cf.090227.xyz/ip.json?t=" ++ decimal timestamp) ;;
     data <~ await_json response ;;
     i <~ lift (get data (js "ip")) ;;
     set_textContent (js "cf-ip") (or_else i (VStr unknown_marker)) ;;;
     c <~ lift (get data (js "country")) ;;
     set_textContent (js "cf-country") (or_else c (VStr unknown_marker)) ;;;
     org <~ lift (get data (js "org")) ;;
     set_textContent (js "cf-city") (or_else org (VStr unknown_marker)) ;;;
     dom_ (setStatus (js "status-cf") (js "success"))))
    (card_failed (js "cf") (js "CloudFlare 接口错误:")).

Definition fetchTwitterData : async unit :=
  dom_ (setStatus (js "status-twitter") (js "loading")) ;;;
  try_catch
    (Now (fun timestamp =>
     response <~ fetch (js "https://x.com/cdn-cgi/trace?t=" ++ decimal timestamp) ;;
     text <~ await_text response ;;
     let data := trace_data text in
     i <~ lift (get data (js "ip")) ;;
     set_textContent (js "twitter-ip") (or_else i (VStr unknown_marker)) ;;;
     loc <~ lift (get data (js "loc")) ;;
     set_textContent (js "twitter-country") (or_else loc (VStr unknown_marker)) ;;;
     colo <~ lift (get data (js "colo")) ;;
     set_textContent (js "twitter-city") (or_else colo (VStr [])) ;;;
     dom_ (setStatus (js "status-twitter") (js "success"))))
    (card_failed (js "twitter") (js "推特入口接口错误:")).

(** [markIpAsClickable()] *)
Definition markIpAsClickable (d : dom) : dom :=
  fold_left
    (fun d element =>
       let e := d element in
       let ipText := trim (textContent e) in
       if has_error_child e
          || jsstring_eqb ipText loading_marker
          || jsstring_eqb ipText unknown_marker
          || classList_contains (js "clickable") e
       then d
       else update element (classList_add (js "clickable")) d)
    ipTextElements d.

(** [fetchAndShowIpDetails(ipElement)] *)
Definition fetchAndShowIpDetails (ipElement : node) : async unit :=
  Read (fun d =>
    let ipText := trim (textContent (d ipElement)) in
    if spinner (d ipElement) then Ret tt
    else if jsstring_eqb ipText loading_marker
            || jsstring_eqb ipText unknown_marker then Ret tt
    else
      let cleanIp := replace_stars ipText in
      let set_spinner b :=
        update ipElement
          (fun e => {| className := className e; inner := inner e;
                       spinner := b |}) in
      dom_ (set_spinner true) ;;;
      try_catch
        (response <~ fetch (detail_endpoint ++ cleanIp) ;;
         (if response_ok response then Ret tt
          else Throw (Error (js "查询失败"))) ;;;
         data <~ await_json response ;;
         dom_ (set_spinner false) ;;;
         render <~ lift (showIpDetailModal data) ;;
         dom_ render)
        (fun error =>
           dom_ (set_spinner false) ;;;
           emit (Toast (js "❌ 查询IP详细信息失败")) ;;;
           emit (ConsoleError (js "IP查询错误:") (Some error)))).

(** *** The event loop under [loadNetworkInfo] *)

Variable w : world.

(** The synchronous part of a function, up to its next [await] or its
    end. *)
Fixpoint advance {A} (m : async A) (s : state) : async A * state :=
  match m with
  | Dom f k => advance k (on_page f s)
  | Read k => advance (k (page s)) s
  | Now k => advance (k (clock w (ticks s))) (tick s)
  | Emit e k => advance k (record e s)
  | _ => (m, s)
  end.

(** A suspended function, given what its promise settled to. *)
Definition resume {A} (m : async A) : option (async A) :=
  match m with
  | AwaitFetch url k => Some (k (net w url))
  | AwaitJson r k => Some (k (json_body r))
  | AwaitText r k => Some (k (text_body r))
  | _ => None
  end.

Definition fulfilled {A} (m : async A) : bool :=
  match m with
  | Ret _ => true
  | _ => false
  end.

(** [loadNetworkInfo] between two turns of the event loop: the four
    fetch functions, each suspended at an [await] or settled; the state of
    the join; how often [markIpAsClickable] ran. *)
Record machine := {
  tasks : list (async unit);
  join : join_state;
  marks : nat;
  st : state
}.

(** [Promise.all] rejects as soon as one of its promises does. *)
Definition join_after (t : async unit) (j : join_state) : join_state :=
  match j, t with
  | Waiting, Throw e => Rejected e
  | _, _ => j
  end.

Fixpoint replace_nth {A} (i : nat) (x : A) (l : list A) : list A :=
  match l, i with
  | [], _ => []
  | _ :: l', O => x :: l'
  | y :: l', S i' => y :: replace_nth i' x l'
  end.

(** One turn of the event loop: any suspended function is resumed and runs
    to its next [await]; or, all four being fulfilled, the function after
    the join runs [markIpAsClickable]. *)
Inductive step : machine -> machine -> Prop :=
| step_resume m i t t1 t' s' :
    nth_error (tasks m) i = Some t ->
    resume t = Some t1 ->
    advance t1 (st m) = (t', s') ->
    step m {| tasks := replace_nth i t' (tasks m);
              join := join_after t' (join m);
              marks := marks m;
              st := s' |}
| step_join m :
    join m = Waiting ->
    forallb fulfilled (tasks m) = true ->
    step m {| tasks := tasks m;
              join := Joined;
              marks := S (marks m);
              st := on_page markIpAsClickable (st m) |}.

Inductive steps : nat -> machine -> machine -> Prop :=
| steps_O m : steps 0 m m
| steps_S n m1 m2 m3 : steps n m1 m2 -> step m2 m3 -> steps (S n) m1 m3.

(** The calls in [Promise.all([...])]: each function runs to its first
    [await] before the next is called. *)
Fixpoint start (fs : list (async unit)) (s : state)
  : list (async unit) * state :=
  match fs with
  | [] => ([], s)
  | f :: fs' =>
    let (t, s1) := advance f s in
    let (ts, s2) := start fs' s1 in
    (t :: ts, s2)
  end.

Definition fetchers : list (async unit) :=
  [fetchIpipData; fetchEdgeOneData; fetchCloudFlareData; fetchTwitterData].

(** [loadNetworkInfo()] up to its [await]; on a page without the cards
    it returns at once and there is nothing to run. *)
Definition loadNetworkInfo (s : state) : option machine :=
  if hasNetworkCards then
    let (ts, s') := start fetchers s in
    Some {| tasks := ts;
            join := fold_left (fun j t => join_after t j) ts Waiting;
            marks := 0;
            st := s' |}
  else None.

End Runtime.

(** * What the properties are stated with *)

(** ** The inputs of the abuse score *)

(** The six flags, as booleans. *)
Record flag_set := {
  crawler : bool;
  proxy : bool;
  vpn : bool;
  tor : bool;
  abuser : bool;
  bogon : bool
}.

Definition no_flags : flag_set :=
  {| crawler := false; proxy := false; vpn := false;
     tor := false; abuser := false; bogon := false |}.

Definition flags_object (f : flag_set) : value :=
  VObj [(js "is_crawler", VBool (crawler f)); (js "is_proxy", VBool (proxy f));
        (js "is_vpn", VBool (vpn f)); (js "is_tor", VBool (tor f));
        (js "is_abuser", VBool (abuser f)); (js "is_bogon", VBool (bogon f))].

Definition true_flags (f : flag_set) : nat :=
  Nat.b2n (crawler f) + Nat.b2n (proxy f) + Nat.b2n (vpn f)
  + Nat.b2n (tor f) + Nat.b2n (abuser f) + Nat.b2n (bogon f).

(** The flags of any object, read strictly: a flag counts when its member is
    the boolean [true]. *)
Definition strict_flags (securityFlags : value) : flag_set :=
  {| crawler := is_true (get_opt securityFlags (js "is_crawler"));
     proxy := is_true (get_opt securityFlags (js "is_proxy"));
     vpn := is_true (get_opt securityFlags (js "is_vpn"));
     tor := is_true (get_opt securityFlags (js "is_tor"));
     abuser := is_true (get_opt securityFlags (js "is_abuser"));
     bogon := is_true (get_opt securityFlags (js "is_bogon")) |}.

(** [raw_score v x]: [v] is a raw score of the data model, and [x] the number
    it stands for: a number in [0,1] (also written as text that starts with
    its numeral, as the lookup service sends it), or 0 for a score that is
    absent, the sentinel, or text with no number in it. *)
Inductive raw_score : value -> float -> Prop :=
| raw_number x :
    (0 <=? x)%float = true -> (x <=? 1)%float = true -> raw_score (VNum x) x
| raw_numeral s x :
    parseFloat_string s = x ->
    (0 <=? x)%float = true -> (x <=? 1)%float = true -> raw_score (VStr s) x
| raw_undefined : raw_score VUndefined 0%float
| raw_null : raw_score VNull 0%float
| raw_unknown : raw_score (VStr unknown_marker) 0%float
| raw_not_numeric s :
    PrimFloat.is_nan (parseFloat_string s) = true -> raw_score (VStr s) 0%float.

Definition base_score (company asn : float) : float :=
  (((company + asn) / 2) * 5)%float.

Definition risk_addition (n : nat) : float := (0.15 * number_of_nat n)%float.

(** A number with the sign of a zero dropped: [-0] and [0] are the same
    number to [===], to [toFixed] and to every comparison of the script. *)
Definition canonical (x : float) : float := if (x =? 0)%float then 0%float else x.

(** The composite score as the specification writes it. *)
Definition composite (company asn : float) (n : nat) : score :=
  if (base_score company asn =? 0)%float && (risk_addition n =? 0)%float
  then SNull
  else SNumber (base_score company asn + risk_addition n)%float.

(** The invariant of the data model, as the specification words it: null
    exactly when both scores are absent or zero and no flag is true. *)
Definition null_iff_no_information (c a : value) (f : flag_set) : Prop :=
  forall nc na, raw_score c nc -> raw_score a na ->
    (calculateAbuseScore c a (flags_object f) = ok SNull
     <-> (nc =? 0)%float = true /\ (na =? 0)%float = true /\ true_flags f = 0).

(** The smallest positive number, [2^-1074]. *)
Definition least_positive : float := 5e-324%float.

(** The severity buckets as intervals of the percentage. *)
Definition bucket (p : float) : jsstring :=
  if (100 <=? p)%float then js "badge-critical"
  else if (20 <=? p)%float && (p <? 100)%float then js "badge-high"
  else if (5 <=? p)%float && (p <? 20)%float then js "badge-elevated"
  else if (0.25 <=? p)%float && (p <? 5)%float then js "badge-low"
  else js "badge-verylow".

Definition level (p : float) : jsstring :=
  if (100 <=? p)%float then js "极度危险"
  else if (20 <=? p)%float && (p <? 100)%float then js "高风险"
  else if (5 <=? p)%float && (p <? 20)%float then js "轻微风险"
  else if (0.25 <=? p)%float && (p <? 5)%float then js "纯净"
  else js "极度纯净".

(** ** Binary64 values as [spec_float]s *)

Definition sf_nonneg (x : spec_float) : bool :=
  match x with
  | S754_zero _ | S754_infinity false | S754_finite false _ _ => true
  | _ => false
  end.

Definition sf_is_zero (x : spec_float) : bool :=
  match x with
  | S754_zero _ => true
  | _ => false
  end.

Definition sf_signed (s : bool) (x : spec_float) : bool :=
  match x with
  | S754_zero s' | S754_infinity s' | S754_finite s' _ _ => Bool.eqb s s'
  | S754_nan => false
  end.

(** ** The cascade as a fold *)

Definition renderable (r : normalized) : bool :=
  negb (to_string_throws (ip r)) && negb (to_string_throws (country r))
  && negb (to_string_throws (city r)).

(** What one provider yields at a reading [t] of the clock: its result when
    the request resolves, the body parses, the parser returns and the three
    fields can be written as text; what was thrown otherwise.  This is all
    the [try] block examines: the status of the response is not. *)
Definition attempt_result (w : world) (c : apiConfig) (t : N)
  : result normalized :=
  response <- net w (request_url c t) ;;
  data <- json_body response ;;
  res <- parser c data ;;
  if renderable res then ok res else throw TypeError.

Definition attempt_error (w : world) (c : apiConfig) (t : N) : exn :=
  match net w (request_url c t) with
  | inr response =>
    match json_body response with
    | inr data =>
      match parser c data with
      | inr _ => TypeError
      | inl e => e
      end
    | inl e => e
    end
  | inl e => e
  end.

(** The page after a provider succeeded, and after all failed. *)
Definition show_result (c : apiConfig) (res : normalized) (d : dom) : dom :=
  setStatus (js "status-ipip") (js "success")
    (set_title c
       (setStatus (js "status-ipip") (js "success")
          (update (ById (js "ipip-city")) (with_inner (Text (city res)))
             (update (ById (js "ipip-country")) (with_inner (Text (country res)))
                (update (ById (js "ipip-ip")) (with_inner (Text (ip res))) d))))).

Definition show_failure (d : dom) : dom :=
  setStatus (js "status-ipip") (js "error")
    (update (ById (js "ipip-city")) (with_inner (Text (VStr [])))
       (update (ById (js "ipip-country")) (with_inner (Text (VStr [])))
          (set_error (js "ipip-ip") d))).

(** The fields a failed attempt wrote before it threw. *)
Definition partial_write (w : world) (c : apiConfig) (t : N) (d : dom) : dom :=
  match net w (request_url c t) with
  | inr response =>
    match json_body response with
    | inr data =>
      match parser c data with
      | inr res =>
        if to_string_throws (ip res) then d
        else
          let d1 := update (ById (js "ipip-ip")) (with_inner (Text (ip res))) d in
          if to_string_throws (country res) then d1
          else update (ById (js "ipip-country"))
                 (with_inner (Text (country res))) d1
      | inl _ => d
      end
    | inl _ => d
    end
  | inl _ => d
  end.

Definition success_message (c : apiConfig) : jsstring :=
  js "使用 " ++ name c ++ js " API 成功".

Definition warn_message (c : apiConfig) : jsstring := name c ++ js " 接口失败:".

Definition attempt_guarded (c : apiConfig) : async bool :=
  try_catch (attempt c ;;; Ret true)
    (fun error => emit (ConsoleWarn (warn_message c) error) ;;; Ret false).

Definition after_success (w : world) (c : apiConfig) (res : normalized)
  (s : state) : state :=
  {| page := show_result c res (page s);
     ticks := S (ticks s);
     log := (log s ++ [Fetch (request_url c (clock w (ticks s)))])
              ++ [ConsoleLog (success_message c)] |}.

Definition after_failure (w : world) (c : apiConfig) (s : state) : state :=
  {| page := partial_write w c (clock w (ticks s)) (page s);
     ticks := S (ticks s);
     log := (log s ++ [Fetch (request_url c (clock w (ticks s)))])
              ++ [ConsoleWarn (warn_message c)
                    (attempt_error w c (clock w (ticks s)))] |}.

Definition after_all_failed (s : state) : state :=
  {| page := show_failure (page s);
     ticks := ticks s;
     log := log s ++ [ConsoleError all_failed_message None] |}.

(** The first success wins. *)
Fixpoint cascade_state (w : world) (configs : list apiConfig) (s : state)
  : state :=
  match configs with
  | [] => after_all_failed s
  | c :: rest =>
    match attempt_result w c (clock w (ticks s)) with
    | inr res => after_success w c res s
    | inl _ => cascade_state w rest (after_failure w c s)
    end
  end.

Fixpoint first_success (w : world) (configs : list apiConfig) (k : nat)
  : option (apiConfig * normalized) :=
  match configs with
  | [] => None
  | c :: rest =>
    match attempt_result w c (clock w k) with
    | inr res => Some (c, res)
    | inl _ => first_success w rest (S k)
    end
  end.

Definition final_page (o : option (apiConfig * normalized)) (d : dom) : dom :=
  match o with
  | Some (c, res) => show_result c res d
  | None => show_failure d
  end.

(** The addresses requested, in order. *)
Definition fetched (l : list event) : list jsstring :=
  flat_map (fun e => match e with Fetch u => [u] | _ => [] end) l.

(** One request per provider, at successive readings of the clock. *)
Fixpoint requests (w : world) (configs : list apiConfig) (k : nat)
  : list jsstring :=
  match configs with
  | [] => []
  | c :: rest => request_url c (clock w k) :: requests w rest (S k)
  end.

(** What a run of failed providers logs. *)
Fixpoint failure_log (w : world) (configs : list apiConfig) (k : nat)
  : list event :=
  match configs with
  | [] => []
  | c :: rest =>
    Fetch (request_url c (clock w k))
    :: ConsoleWarn (warn_message c) (attempt_error w c (clock w k))
    :: failure_log w rest (S k)
  end.

(** The failure taxonomy of the specification, which counts a response
    outside 2xx as a failure. *)
Definition fails_as_specified (w : world) (c : apiConfig) (t : N) : Prop :=
  match net w (request_url c t) with
  | inl _ => True
  | inr response =>
    response_ok response = false
    \/ match json_body response with
       | inl _ => True
       | inr data => exists e, parser c data = inl e
       end
  end.

Definition succeeds_as_specified (w : world) (c : apiConfig) (t : N)
  (res : normalized) : Prop :=
  exists response data,
    net w (request_url c t) = inr response
    /\ response_ok response = true
    /\ json_body response = inr data
    /\ parser c data = inr res.

(** The cascade property with that taxonomy, for one world and state. *)
Definition cascade_as_specified (w : world) (s : state) : Prop :=
  forall i c res,
    nth_error apiConfigs i = Some c ->
    (forall j c', j < i -> nth_error apiConfigs j = Some c' ->
       fails_as_specified w c' (clock w (ticks s + j))) ->
    succeeds_as_specified w c (clock w (ticks s + i)) res ->
    inner (page (snd (run w fetchIpipData s)) (ById (js "ipip-ip")))
    = Text (ip res).

(** The failure path with that taxonomy, for one world and state: when every
    provider fails, the address shows the error marker, country and city are
    empty and the indicator is at error. *)
Definition failure_path_as_specified (w : world) (s : state) : Prop :=
  (forall j c, nth_error apiConfigs j = Some c ->
     fails_as_specified w c (clock w (ticks s + j))) ->
  let out := run w fetchIpipData s in
  inner (page (snd out) (ById (js "ipip-ip"))) = ErrorSpan error_marker
  /\ inner (page (snd out) (ById (js "ipip-country"))) = Text (VStr [])
  /\ inner (page (snd out) (ById (js "ipip-city"))) = Text (VStr [])
  /\ className (page (snd out) (ById (js "status-ipip")))
     = js "status-indicator status-error".

(** ** The event loop *)

(** Every way through the function ends in a return. *)
Inductive settles {A} : async A -> Prop :=
| settles_Ret a : settles (Ret a)
| settles_Dom f k : settles k -> settles (Dom f k)
| settles_Read k : (forall d, settles (k d)) -> settles (Read k)
| settles_Now k : (forall t, settles (k t)) -> settles (Now k)
| settles_Emit e k : settles k -> settles (Emit e k)
| settles_AwaitFetch u k :
    (forall r, settles (k r)) -> settles (AwaitFetch u k)
| settles_AwaitJson r k :
    (forall x, settles (k x)) -> settles (AwaitJson r k)
| settles_AwaitText r k :
    (forall x, settles (k x)) -> settles (AwaitText r k).

(** No way through the function meets more than [n] awaits. *)
Inductive awaits_le {A} : nat -> async A -> Prop :=
| awaits_Ret n a : awaits_le n (Ret a)
| awaits_Throw n e : awaits_le n (Throw e)
| awaits_Dom n f k : awaits_le n k -> awaits_le n (Dom f k)
| awaits_Read n k : (forall d, awaits_le n (k d)) -> awaits_le n (Read k)
| awaits_Now n k : (forall t, awaits_le n (k t)) -> awaits_le n (Now k)
| awaits_Emit n e k : awaits_le n k -> awaits_le n (Emit e k)
| awaits_AwaitFetch n u k :
    (forall r, awaits_le n (k r)) -> awaits_le (S n) (AwaitFetch u k)
| awaits_AwaitJson n r k :
    (forall x, awaits_le n (k x)) -> awaits_le (S n) (AwaitJson r k)
| awaits_AwaitText n r k :
    (forall x, awaits_le n (k x)) -> awaits_le (S n) (AwaitText r k).

(** Suspended at an await, or settled. *)
Definition at_rest {A} (m : async A) : bool :=
  match m with
  | Dom _ _ | Read _ | Now _ | Emit _ _ => false
  | _ => true
  end.


(** The awaits the functions of a list can still meet, in total. *)
Inductive budget : list (async unit) -> nat -> Prop :=
| budget_nil : budget [] 0
| budget_cons t ts n p :
    awaits_le n t -> budget ts p -> budget (t :: ts) (n + p).

Definition join_budget (j : join_state) : nat :=
  match j with
  | Waiting => 1
  | _ => 0
  end.

Record inv (m : machine) : Prop := {
  inv_settles : Forall settles (tasks m);
  inv_rest : Forall (fun t => at_rest t = true) (tasks m);
  inv_join :
    (join m = Waiting /\ marks m = 0)
    \/ (join m = Joined /\ marks m = 1
        /\ forallb fulfilled (tasks m) = true)
}.

Definition potential (m : machine) (p : nat) : Prop :=
  exists q, budget (tasks m) q /\ q + join_budget (join m) <= p.

(** ** Worlds and pages to run the script on *)

Definition blank : element :=
  {| className := []; inner := Text (VStr loading_marker); spinner := false |}.

(** A page whose elements all show the loading text. *)
Definition loading_page : state :=
  {| page := fun _ => blank; ticks := 0; log := [] |}.

(** A page whose elements all show a masked address. *)
Definition masked_page : state :=
  {| page := fun _ => {| className := []; inner := Text (VStr (js "1.2.*.4"));
                         spinner := false |};
     ticks := 0; log := [] |}.

Definition member (k : string) (v : value) : jsstring * value := (js k, v).

Definition json_response (code : N) (v : value) : response :=
  {| status := code; json_body := inr v; text_body := inl TypeError |}.

Definition epoch (n : nat) : N := (1700000000000 + N.of_nat n)%N.

(** No request gets through. *)
Definition offline : world :=
  {| net := fun _ => inl NetworkError; clock := epoch |}.

(** The first provider answers 500 with a well-formed body, every other
    address answers 200 with a body in the second provider's format. *)
Definition first_answers_500 : world :=
  {| net := fun u =>
       if starts_with (js "https://api-v3.speedtest.cn/ip") u
       then inr (json_response 500
                   (VObj [member "code" (VNum 0%float);
                          member "data"
                            (VObj [member "ip" (VStr (js "1.1.1.1"));
                                   member "country" (VStr (js "CN"));
                                   member "city" (VStr (js "Beijing"))])]))
       else inr (json_response 200
                   (VObj [member "Ip" (VStr (js "2.2.2.2"));
                          member "Country" (VStr (js "CN"));
                          member "City" (VStr (js "Shanghai"))]));
     clock := epoch |}.

(** Every address answers 429 with an error object. *)
Definition all_answer_429 : world :=
  {| net := fun _ =>
       inr (json_response 429
              (VObj [member "error" (VStr (js "rate limited"))]));
     clock := epoch |}.

(** The first provider is unreachable, the others answer as above. *)
Definition first_unreachable : world :=
  {| net := fun u =>
       if starts_with (js "https://api-v3.speedtest.cn/ip") u
       then inl NetworkError
       else net first_answers_500 u;
     clock := epoch |}.

(** * More of the script *)

(** ** Clickable addresses *)

(** A class token: not empty, no white space in it. *)
Definition token (t : jsstring) : Prop :=
  t <> [] /\ forallb (fun c => negb (is_ascii_space c)) t = true.

(** The element shows an address: no error span in it, and its text is
    neither the loading text nor the unknown marker. *)
Definition shows_address (number_to_string : float -> jsstring) (e : element) : bool :=
  negb (has_error_child e
        || jsstring_eqb (trim (textContent number_to_string e)) loading_marker
        || jsstring_eqb (trim (textContent number_to_string e)) unknown_marker).

Definition clickable (e : element) : bool := classList_contains (js "clickable") e.

(** ** The outcome of a detail lookup *)

(** What the detail lookup of an address comes to: the update of the page
    that shows the modal, or the error the [catch] block receives. *)
Definition lookup_outcome (w : world)
    (showIpDetailModal : value -> result (dom -> dom)) (cleanIp : jsstring)
  : result (dom -> dom) :=
  match net w (detail_endpoint ++ cleanIp) with
  | inl e => inl e
  | inr response =>
    if response_ok response then
      match json_body response with
      | inl e => inl e
      | inr data => showIpDetailModal data
      end
    else inl (Error (js "查询失败"))
  end.

(** The element is being looked up, or shows no address to look up. *)
Definition not_lookable (number_to_string : float -> jsstring) (e : element) : bool :=
  spinner e
  || jsstring_eqb (trim (textContent number_to_string e)) loading_marker
  || jsstring_eqb (trim (textContent number_to_string e)) unknown_marker.

(** ** The visit counter: [fetchVisitCount] *)

(** [v !== undefined] is false *)
Definition is_undefined (v : value) : bool :=
  match v with
  | VUndefined => true
  | _ => false
  end.

Definition visit_count_url : jsstring := Eval vm_compute in js "https://tongji.090227.xyz/?id=cf.090227.xyz".

(** [fetchVisitCount()]; [hasVisitCount]: the page has the element with id
    [visit-count]. *)
Definition fetchVisitCount (hasVisitCount : bool) : async unit :=
  try_catch
    (response <~ fetch visit_count_url ;;
     data <~ await_json response ;;
     if hasVisitCount then
       visitCount <~ lift (get data (js "visitCount")) ;;
       if is_undefined visitCount then Ret tt
       else
         visitCount' <~ lift (get data (js "visitCount")) ;;
         set_textContent (js "visit-count") visitCount'
     else Ret tt)
    (fun error =>
       emit (ConsoleError (js "获取访问统计失败:") (Some error)) ;;;
       if hasVisitCount
       then set_textContent (js "visit-count") (VStr error_marker)
       else Ret tt).

(** The count the statistics service sends: what is to be written to the
    page ([None]: nothing, the answer has no count), or the error caught. *)
Definition visit_count (w : world) : result (option value) :=
  response <- net w visit_count_url ;;
  data <- json_body response ;;
  visitCount <- get data (js "visitCount") ;;
  if is_undefined visitCount then ok None
  else if to_string_throws visitCount then throw TypeError
  else ok (Some visitCount).

(** ** The states of a card *)

(** The card shows a result: the indicator is at success and the address
    field was written with a value that JavaScript takes as true (not
    [undefined], [null], the empty string, [0] or [false]).  Its text can
    still be empty: an empty array is such a value and prints as nothing. *)
Definition card_succeeded (card : jsstring) (d : dom) : Prop :=
  className (d (ById (js "status-" ++ card))) = js "status-indicator status-success"
  /\ exists i, inner (d (ById (card ++ js "-ip"))) = Text i /\ truthy i = true.

(** The card shows the failure: the indicator is at error, the address field
    holds the error span, country and city are empty. *)
Definition card_errored (card : jsstring) (d : dom) : Prop :=
  className (d (ById (js "status-" ++ card))) = js "status-indicator status-error"
  /\ inner (d (ById (card ++ js "-ip"))) = ErrorSpan error_marker
  /\ inner (d (ById (card ++ js "-country"))) = Text (VStr [])
  /\ inner (d (ById (card ++ js "-city"))) = Text (VStr []).

(** The function returns with the card either showing a result or showing
    the failure, whatever the page was. *)
Definition one_way (w : world) (f : async unit) (card : jsstring) : Prop :=
  forall s,
    fst (run w f s) = ok tt
    /\ (card_succeeded card (page (snd (run w f s)))
        \/ card_errored card (page (snd (run w f s)))).

(** ** The trace text of [fetchTwitterData] *)

(** The [key=value] pairs of the lines of a trace text that
    [fetchTwitterData] keeps: the line has an [=], and something before and
    after it. *)
Definition trace_entries (text : jsstring) : list (jsstring * jsstring) :=
  flat_map
    (fun line =>
       match split_at 61%N line with
       | key :: value :: _ =>
         if nonempty key && nonempty value then [(trim key, trim value)] else []
       | _ => []
       end)
    (split_at 10%N text).

(** The value of the last pair with key [k]. *)
Fixpoint last_value (k : jsstring) (entries : list (jsstring * jsstring))
  : option jsstring :=
  match entries with
  | [] => None
  | (k', v) :: rest =>
    match last_value k rest with
    | Some x => Some x
    | None => if jsstring_eqb k' k then Some v else None
    end
  end.

Definition members (v : value) : list (jsstring * value) :=
  match v with
  | VObj ms => ms
  | _ => []
  end.

(** A text of several lines. *)
Fixpoint text_of_lines (lines : list jsstring) : jsstring :=
  match lines with
  | [] => []
  | [line] => line
  | line :: rest => line ++ 10%N :: text_of_lines rest
  end.

(** A world in which the trace endpoint answers with a trace text and every
    other request is rejected. *)
Definition trace_answers : world :=
  {| net := fun u =>
       if starts_with (js "https://x.com/cdn-cgi/trace") u
       then inr {| status := 200; json_body := inl SyntaxError;
                   text_body :=
                     inr (text_of_lines
                            [js "h=x.com"; js "ip=203.0.113.7";
                             js "ts=1700000000.123"; js "colo=SJC";
                             js "loc=US"; []]) |}
       else inl NetworkError;
     clock := epoch |}.

(** [x || fallback] for a text [x] that may be missing. *)
Definition shown (fallback : jsstring) (x : option jsstring) : jsstring :=
  match x with
  | Some (c :: v) => c :: v
  | _ => fallback
  end.

(** ** Answers of the EdgeOne endpoint *)

(** [v] is [undefined] or [null]: reading a member of it throws. *)
Definition nullish (v : value) : bool :=
  match v with
  | VUndefined | VNull => true
  | _ => false
  end.

Definition edgeone_url : jsstring := Eval vm_compute in js "https://api.ipapi.cmliussss.net".

(** A world in which the EdgeOne endpoint answers with an address, a
    location and a network, and every other request is rejected. *)
Definition edgeone_answers : world :=
  {| net := fun u =>
       if jsstring_eqb u edgeone_url
       then inr (json_response 200
                   (VObj [member "ip" (VStr (js "203.0.113.7"));
                          member "location"
                            (VObj [member "country_code" (VStr (js "US"))]);
                          member "asn"
                            (VObj [member "asn" (VStr (js "64500"));
                                   member "org" (VStr (js "Example"))])]))
       else inl NetworkError;
     clock := epoch |}.

(** The same, but the answer has no location. *)
Definition edgeone_without_location : world :=
  {| net := fun u =>
       if jsstring_eqb u edgeone_url
       then inr (json_response 200
                   (VObj [member "ip" (VStr (js "203.0.113.7"));
                          member "asn"
                            (VObj [member "asn" (VStr (js "64500"));
                                   member "org" (VStr (js "Example"))])]))
       else inl NetworkError;
     clock := epoch |}.

(** ** Providers of the domestic card *)

Definition speedtest_config : apiConfig :=
  {| name := js "speedtest.cn"; url := js "https://api-v3.speedtest.cn/ip";
     parser := speedtest_parser |}.

Definition ipipv_config : apiConfig :=
  {| name := js "ipipv.com"; url := js "https://myip.ipipv.com/";
     parser := ipipv_parser |}.

(** The first provider is unreachable; every other address answers 429 with
    an error object. *)
Definition second_answers_error : world :=
  {| net := fun u =>
       if starts_with (js "https://api-v3.speedtest.cn/ip") u
       then inl NetworkError
       else inr (json_response 429
                   (VObj [member "error" (VStr (js "rate limited"))]));
     clock := epoch |}.

(** ** Numerals *)

(** The number a decimal numeral stands for. *)
Definition numeral_value (s : jsstring) : N :=
  fold_left (fun acc c => (acc * 10 + (c - 48))%N) s 0%N.

(** ** The cascade over two lists *)

(** The state after each provider of a list failed in turn. *)
Definition after_failures (w : world) (configs : list apiConfig) (s : state)
  : state :=
  fold_left (fun s c => after_failure w c s) configs s.

(** ** The theme switcher: [initTheme] *)

(** What the listeners of [initTheme] read and write: the attribute
    [data-theme] of the root element ([None]: it has none) and the item
    [theme] of the local storage ([None]: there is none). *)
Record theme_state := {
  data_theme : option jsstring;
  stored_theme : option jsstring
}.

Inductive theme_event :=
| SwitcherClick                 (** a click on the switcher *)
| SystemChange (matches : bool) (** the system turned dark ([true]) or light *).

Definition dark : jsstring := Eval vm_compute in js "dark".
Definition light : jsstring := Eval vm_compute in js "light".

(** The click listener of the switcher. *)
Definition on_switcher_click (st : theme_state) : theme_state :=
  let theme := data_theme st in
  let newTheme :=
    if match theme with
       | Some t => jsstring_eqb t dark
       | None => false
       end
    then light else dark in
  {| data_theme := Some newTheme; stored_theme := Some newTheme |}.

(** The change listener of the media query [(prefers-color-scheme: dark)]. *)
Definition on_system_change (matches : bool) (st : theme_state) : theme_state :=
  if match stored_theme st with
     | Some (_ :: _) => false
     | _ => true
     end
  then {| data_theme := Some (if matches then dark else light);
          stored_theme := stored_theme st |}
  else st.

(** [initTheme()]: how the page reacts to an event once it ran.
    [hasSwitcher]: the page has the element with id [theme-switcher];
    [hasMatchMedia]: the window has [matchMedia]. *)
Definition initTheme (hasSwitcher hasMatchMedia : bool)
    (event : theme_event) (st : theme_state) : theme_state :=
  if hasSwitcher then
    match event with
    | SwitcherClick => on_switcher_click st
    | SystemChange matches =>
      if hasMatchMedia then on_system_change matches st else st
    end
  else st.

Definition theme_after (hasSwitcher hasMatchMedia : bool)
    (events : list theme_event) (st : theme_state) : theme_state :=
  fold_left (fun st event => initTheme hasSwitcher hasMatchMedia event st)
    events st.

Definition is_click (event : theme_event) : bool :=
  match event with
  | SwitcherClick => true
  | SystemChange _ => false
  end.

Definition other_theme (t : jsstring) : jsstring :=
  if jsstring_eqb t dark then light else dark.

(** The last system theme announced, if any. *)
Fixpoint last_system (events : list theme_event) : option bool :=
  match events with
  | [] => None
  | e :: rest =>
    match last_system rest with
    | Some m => Some m
    | None => match e with SystemChange m => Some m | SwitcherClick => None end
    end
  end.

(** After a click the theme is chosen: stored, dark or light, and on the
    page. *)
Definition chosen (t : jsstring) (st : theme_state) : Prop :=
  (t = dark \/ t = light) /\ data_theme st = Some t /\ stored_theme st = Some t.

(** ** Copying a domain: [copyDomain], [fallbackCopy] *)

(** What the browser does with a copy: [writeText] is what the promise of
    [navigator.clipboard.writeText] settles to for a text ([None]: the
    browser has no such function); [execCommand] is what
    [document.execCommand('copy')] returns or throws when a text is
    selected. *)
Record browser := {
  writeText : option (jsstring -> result unit);
  execCommand : jsstring -> result bool
}.

(** What a copy does to the page and the clipboard, in order. *)
Inductive copy_step :=
| ClipboardWrite (text : jsstring)  (** [navigator.clipboard.writeText(text)] *)
| TextareaAppended (text : jsstring)
  (** a [textarea] holding [text], appended to the body, focused, selected *)
| CopyCommand                       (** [document.execCommand('copy')] *)
| TextareaRemoved                   (** [document.body.removeChild(textArea)] *)
| ToastShown (message : jsstring)   (** [showToast(message)] *).

(** [domain.replace(/^\*\./, '')] *)
Definition strip_wildcard (domain : jsstring) : jsstring :=
  match domain with
  | 42%N :: 46%N :: rest => rest
  | _ => domain
  end.

Definition copied_message (text : jsstring) : jsstring := js "✅ 已复制: " ++ text.
Definition copy_failed_message : jsstring := Eval vm_compute in js "❌ 复制失败，请手动复制".

(** [fallbackCopy(text)] *)
Definition fallbackCopy (b : browser) (text : jsstring) : list copy_step :=
  [TextareaAppended text; CopyCommand]
  ++ match execCommand b text with
     | inr _ => [ToastShown (copied_message text)]
     | inl _ => [ToastShown copy_failed_message]
     end
  ++ [TextareaRemoved].

(** [copyDomain(domain)], with the reactions of its promise. *)
Definition copyDomain (b : browser) (domain : jsstring) : list copy_step :=
  let cleanDomain := strip_wildcard domain in
  match writeText b with
  | Some write =>
    ClipboardWrite cleanDomain
    :: match write cleanDomain with
       | inr _ => [ToastShown (copied_message cleanDomain)]
       | inl _ => fallbackCopy b cleanDomain
       end
  | None => fallbackCopy b cleanDomain
  end.

Definition toasts (l : list copy_step) : list jsstring :=
  flat_map (fun s => match s with ToastShown m => [m] | _ => [] end) l.

(** The text areas on the page after the steps, given how many there were. *)
Fixpoint textareas (l : list copy_step) (n : nat) : nat :=
  match l with
  | [] => n
  | TextareaAppended _ :: l' => textareas l' (S n)
  | TextareaRemoved :: l' => textareas l' (Nat.pred n)
  | _ :: l' => textareas l' n
  end.

(** The copy went through: the clipboard took the text, or the copy command
    did not throw. *)
Definition copy_went_through (b : browser) (text : jsstring) : bool :=
  match writeText b with
  | Some write =>
    match write text with
    | inr _ => true
    | inl _ => match execCommand b text with inr _ => true | inl _ => false end
    end
  | None => match execCommand b text with inr _ => true | inl _ => false end
  end.

(** ** Toasts: [showToast] *)

(** An element created by [showToast]: [toast_show] is the class [show]. *)
Record toast := {
  toast_id : nat;
  toast_message : jsstring;
  toast_show : bool
}.

(** The elements of class [toast] in the document, in document order, and
    the number of toasts created so far. *)
Record toast_page := {
  in_document : list toast;
  created : nat
}.

(** The callbacks [showToast] hands to [setTimeout], each for the toast it
    was created with. *)
Inductive toast_timer :=
| AddShow (id : nat)      (** after 10 ms: [toast.classList.add('show')] *)
| RemoveShow (id : nat)   (** after 3000 ms: [toast.classList.remove('show')],
                              and [RemoveToast] is set for 300 ms later *)
| RemoveToast (id : nat)  (** [toast.remove()] *).

Definition set_show (id : nat) (b : bool) (l : list toast) : list toast :=
  map (fun t =>
         if Nat.eqb (toast_id t) id
         then {| toast_id := toast_id t; toast_message := toast_message t;
                 toast_show := b |}
         else t) l.

(** [showToast(message)]: the page after it and the timers it sets. *)
Definition showToast (message : jsstring) (p : toast_page)
  : toast_page * list toast_timer :=
  let without_existing :=
    match in_document p with
    | [] => []
    | existingToast :: others => others
    end in
  let toast := {| toast_id := created p; toast_message := message;
                  toast_show := false |} in
  ({| in_document := without_existing ++ [toast]; created := S (created p) |},
   [AddShow (created p); RemoveShow (created p)]).

(** A timer fires. *)
Definition fire (timer : toast_timer) (p : toast_page)
  : toast_page * list toast_timer :=
  match timer with
  | AddShow id =>
    ({| in_document := set_show id true (in_document p);
        created := created p |}, [])
  | RemoveShow id =>
    ({| in_document := set_show id false (in_document p);
        created := created p |}, [RemoveToast id])
  | RemoveToast id =>
    ({| in_document :=
          filter (fun t => negb (Nat.eqb (toast_id t) id)) (in_document p);
        created := created p |}, [])
  end.

(** What happens on the page: a call of [showToast], or a timer firing. *)
Inductive toast_event :=
| Show (message : jsstring)
| Fire (timer : toast_timer).

Definition toast_step (p : toast_page) (e : toast_event) : toast_page :=
  match e with
  | Show message => fst (showToast message p)
  | Fire timer => fst (fire timer p)
  end.

(** ** The cards under the event loop *)

(** The elements of a card. *)
Definition card_nodes (card : jsstring) : list node :=
  [ById (js "status-" ++ card); ParentOf (js "status-" ++ card);
   ById (card ++ js "-ip"); ById (card ++ js "-country");
   ById (card ++ js "-city")].

Definition own (card : jsstring) (n : node) : bool :=
  existsb (node_eqb n) (card_nodes card).

(** The cards, in the order [loadNetworkInfo] calls their functions. *)
Definition cards : list jsstring :=
  [js "ipip"; js "edgeone"; js "cf"; js "twitter"].

(** An update of the page that gives each element a value that depends on
    the element alone. *)
Definition local (f : dom -> dom) : Prop :=
  forall d d' n, d n = d' n -> f d n = f d' n.

Definition card_ok (card : jsstring) (d : dom) : Prop :=
  card_succeeded card d \/ card_errored card d.

(** Whatever the promises settle to and the clock shows, the rest [t] of the
    function of a card returns with the card showing a result or the
    failure, and on its way writes to the elements of its card only. *)
Fixpoint tends (card : jsstring) (t : async unit) (d : dom) : Prop :=
  match t with
  | Ret _ => card_ok card d
  | Throw _ => False
  | Dom f k =>
    local f /\ (forall d0 n, own card n = false -> f d0 n = d0 n)
    /\ tends card k (f d)
  | Read _ => False
  | Now k => forall x, tends card (k x) d
  | Emit _ k => tends card k d
  | AwaitFetch _ k => forall r, tends card (k r) d
  | AwaitJson _ k => forall r, tends card (k r) d
  | AwaitText _ k => forall r, tends card (k r) d
  end.

(** Each function of a card is on its way to a result or the failure of its
    card, whatever the others did to theirs. *)
Definition on_their_way (m : machine) : Prop :=
  List.length (tasks m) = 4
  /\ forall i card t,
       nth_error cards i = Some card -> nth_error (tasks m) i = Some t ->
       tends card t (page (st m)).

(** The machine with the task at index [i] resumed. *)
Definition resumed (w : world) (i : nat) (m : machine) : machine :=
  match nth_error (tasks m) i with
  | Some t =>
    match resume w t with
    | Some t1 =>
      let (t', s') := advance w t1 (st m) in
      {| tasks := replace_nth i t' (tasks m);
         join := join_after t' (join m);
         marks := marks m;
         st := s' |}
    | None => m
    end
  | None => m
  end.

(** [loadNetworkInfo] from the loading page, with no network. *)
Definition offline_start : machine :=
  match loadNetworkInfo (fun _ => []) true offline loading_page with
  | Some m => m
  | None => {| tasks := []; join := Waiting; marks := 0; st := loading_page |}
  end.

(** ** The requests of [loadNetworkInfo] *)

(** No way through the function sends more than [n] requests. *)
Fixpoint requests_le {A} (n : nat) (t : async A) : Prop :=
  match t with
  | Ret _ | Throw _ => True
  | Dom _ k => requests_le n k
  | Read k => forall d, requests_le n (k d)
  | Now k => forall x, requests_le n (k x)
  | Emit (Fetch _) k =>
    match n with
    | S n' => requests_le n' k
    | O => False
    end
  | Emit _ k => requests_le n k
  | AwaitFetch _ k => forall r, requests_le n (k r)
  | AwaitJson _ k => forall r, requests_le n (k r)
  | AwaitText _ k => forall r, requests_le n (k r)
  end.



(** ** A run of [loadNetworkInfo] to its end *)

(** The machine after the join fulfilled. *)
Definition joined (number_to_string : float -> jsstring)
    (ipTextElements : list node) (m : machine) : machine :=
  {| tasks := tasks m;
     join := Joined;
     marks := S (marks m);
     st := on_page (markIpAsClickable number_to_string ipTextElements) (st m) |}.

(** Two elements of class [ip-text]: the address of a card and another. *)
Definition sample_ip_elements : list node :=
  [ById (js "extra-ip"); ById (js "cf-ip")].

(** [loadNetworkInfo] with no network, from a page whose elements all show a
    masked address, run to its end: the three providers of the domestic card
    one after the other, the other cards, the join. *)
Definition offline_run_0 : machine :=
  match loadNetworkInfo (fun _ => []) true offline masked_page with
  | Some m => m
  | None => {| tasks := []; join := Waiting; marks := 0; st := masked_page |}
  end.

Definition offline_run_1 : machine := resumed offline 0 offline_run_0.

Definition offline_run_2 : machine := resumed offline 0 offline_run_1.

Definition offline_run_3 : machine := resumed offline 0 offline_run_2.

Definition offline_run_4 : machine := resumed offline 1 offline_run_3.

Definition offline_run_5 : machine := resumed offline 2 offline_run_4.

Definition offline_run_6 : machine := resumed offline 3 offline_run_5.

Definition offline_end : machine :=
  joined (fun _ => []) sample_ip_elements offline_run_6.

(** ** The classes of the elements *)

(** The status indicator of one of the cards. *)
Definition is_indicator (n : node) : bool :=
  existsb (fun card => node_eqb n (ById (js "status-" ++ card))) cards.

(** Whatever the promises settle to, the function changes the class of no
    element but the status indicators. *)
Fixpoint keeps_classes {A} (t : async A) : Prop :=
  match t with
  | Ret _ | Throw _ => True
  | Dom f k =>
    (forall d n, is_indicator n = false -> className (f d n) = className (d n))
    /\ keeps_classes k
  | Read k => forall d, keeps_classes (k d)
  | Now k => forall x, keeps_classes (k x)
  | Emit _ k => keeps_classes k
  | AwaitFetch _ k => forall r, keeps_classes (k r)
  | AwaitJson _ k => forall r, keeps_classes (k r)
  | AwaitText _ k => forall r, keeps_classes (k r)
  end.

(** Until the join, the classes are those of the start. *)
Definition classes_kept (s0 : state) (m : machine) : Prop :=
  Forall keeps_classes (tasks m)
  /\ (join m = Waiting ->
      forall n, is_indicator n = false ->
        className (page (st m) n) = className (page s0 n)).

(** * Properties *)

(** ** Binary64 arithmetic

    The facts about rounding that the properties of the score need, read off
    the specification of the operations ([SpecFloat]). *)

Module Binary64.

Local Open Scope Z_scope.

Lemma prim_zero : Prim2SF 0 = S754_zero false.
Proof. reflexivity. Qed.

Lemma prim_two : Prim2SF 2 = S754_finite false 4503599627370496 (-51).
Proof. reflexivity. Qed.

Lemma prim_five : Prim2SF 5 = S754_finite false 5629499534213120 (-50).
Proof. reflexivity. Qed.

Lemma prim_least_positive : Prim2SF least_positive = S754_finite false 1 (-1074).
Proof. reflexivity. Qed.

Lemma is_nan_spec x : PrimFloat.is_nan x = true <-> Prim2SF x = S754_nan.
Proof.
  unfold PrimFloat.is_nan. rewrite FloatAxioms.eqb_spec. unfold SFeqb.
  destruct (Prim2SF x) as [s|s| |s m e] eqn:E; simpl; try (split; congruence);
    destruct s; rewrite ?Z.compare_refl, ?Pos.compare_cont_refl; simpl;
    split; congruence.
Qed.

Lemma is_zero_spec x : (x =? 0)%float = sf_is_zero (Prim2SF x).
Proof.
  rewrite FloatAxioms.eqb_spec, prim_zero.
  destruct (Prim2SF x) as [s|[]| |[] m e]; reflexivity.
Qed.

Lemma nonneg_spec x : (0 <=? x)%float = sf_nonneg (Prim2SF x).
Proof.
  rewrite FloatAxioms.leb_spec, prim_zero.
  destruct (Prim2SF x) as [s|[]| |[] m e]; reflexivity.
Qed.

Lemma eqb_zero_cases x : (x =? 0)%float = true -> x = 0%float \/ x = (-0)%float.
Proof.
  rewrite is_zero_spec. destruct (Prim2SF x) as [s| | |] eqn:E; try discriminate.
  intros _. destruct s; [right|left]; apply Prim2SF_inj; rewrite E; reflexivity.
Qed.

Lemma add_zero_l z y :
  (z =? 0)%float = true -> (y =? 0)%float = false -> (z + y)%float = y.
Proof.
  rewrite !is_zero_spec. intros Hz Hy.
  apply Prim2SF_inj. rewrite FloatAxioms.add_spec.
  destruct (Prim2SF z); try discriminate.
  destruct (Prim2SF y); try discriminate; reflexivity.
Qed.

Lemma add_zero_r z y :
  (z =? 0)%float = true -> (y =? 0)%float = false -> (y + z)%float = y.
Proof.
  rewrite !is_zero_spec. intros Hz Hy.
  apply Prim2SF_inj. rewrite FloatAxioms.add_spec.
  destruct (Prim2SF z); try discriminate.
  destruct (Prim2SF y); try discriminate; reflexivity.
Qed.

Lemma leb_not_nan_r x y : (x <=? y)%float = true -> PrimFloat.is_nan y = false.
Proof.
  intros H. destruct (PrimFloat.is_nan y) eqn:E; [|reflexivity].
  apply is_nan_spec in E. rewrite FloatAxioms.leb_spec, E in H. unfold SFleb in H.
  destruct (Prim2SF x); simpl in H; congruence.
Qed.

Lemma SFcompare_antisym a b :
  SFcompare b a = option_map CompOpp (SFcompare a b).
Proof.
  destruct a as [s|s| |s m e], b as [s'|s'| |s' m' e']; try reflexivity;
    try (destruct s; reflexivity); try (destruct s'; reflexivity);
    try (destruct s, s'; reflexivity).
  destruct s, s'; simpl; try reflexivity;
    rewrite (Z.compare_antisym e e');
    destruct (e ?= e') eqn:E; simpl; try reflexivity;
    rewrite ?(Pos.compare_cont_antisym m m' Eq); simpl; reflexivity.
Qed.

Lemma ltb_leb_false x y : (x <? y)%float = true -> (y <=? x)%float = false.
Proof.
  rewrite FloatAxioms.ltb_spec, FloatAxioms.leb_spec. unfold SFltb, SFleb.
  rewrite (SFcompare_antisym (Prim2SF x) (Prim2SF y)).
  destruct (SFcompare (Prim2SF x) (Prim2SF y)) as [[]|]; simpl; congruence.
Qed.

Lemma leb_false_ltb x y :
  PrimFloat.is_nan x = false -> PrimFloat.is_nan y = false ->
  (y <=? x)%float = false -> (x <? y)%float = true.
Proof.
  intros Hx Hy.
  rewrite FloatAxioms.ltb_spec, FloatAxioms.leb_spec. unfold SFltb, SFleb.
  rewrite (SFcompare_antisym (Prim2SF x) (Prim2SF y)).
  assert (Prim2SF x <> S754_nan) by (intros E; apply is_nan_spec in E; congruence).
  assert (Prim2SF y <> S754_nan) by (intros E; apply is_nan_spec in E; congruence).
  destruct (Prim2SF x) as [s|s| |s m e], (Prim2SF y) as [s'|s'| |s' m' e'];
    try congruence; simpl;
    repeat match goal with
           | s : bool |- _ => destruct s
           end; simpl; try congruence;
    destruct (e ?= e'); simpl; try congruence;
    destruct (Pos.compare_cont Eq m m'); simpl; congruence.
Qed.

(** Between two thresholds: at least the lower and not at least the upper
    is below the upper. *)
Lemma between a b p :
  PrimFloat.is_nan b = false ->
  (a <=? p)%float = true -> (b <=? p)%float = false -> (p <? b)%float = true.
Proof.
  intros Hb Ha Hp. apply leb_false_ltb; auto. eapply leb_not_nan_r; eauto.
Qed.

(** *** Shifts and rounding *)

Lemma digits2_pos_bounds p :
  2 ^ (Zpos (digits2_pos p) - 1) <= Zpos p < 2 ^ Zpos (digits2_pos p).
Proof.
  induction p as [p IH|p IH|]; cbn [digits2_pos].
  - rewrite Pos2Z.inj_succ.
    replace (Z.succ (Zpos (digits2_pos p)) - 1)
      with (Z.succ (Zpos (digits2_pos p) - 1)) by lia.
    rewrite !Z.pow_succ_r by lia. lia.
  - rewrite Pos2Z.inj_succ.
    replace (Z.succ (Zpos (digits2_pos p)) - 1)
      with (Z.succ (Zpos (digits2_pos p) - 1)) by lia.
    rewrite !Z.pow_succ_r by lia. lia.
  - cbn. lia.
Qed.

Lemma digits_above p k : 0 <= k -> 2 ^ k <= Zpos p -> k < Zpos (digits2_pos p).
Proof.
  intros Hk H. destruct (digits2_pos_bounds p) as [_ Hu].
  destruct (Z.lt_ge_cases k (Zpos (digits2_pos p))) as [|Hge]; [assumption|].
  exfalso.
  assert (2 ^ Zpos (digits2_pos p) <= 2 ^ k) by (apply Z.pow_le_mono_r; lia).
  lia.
Qed.

Lemma digits_one m : Zpos (digits2_pos m) <= 1 -> m = 1%positive.
Proof.
  destruct m as [p|p|]; cbn [digits2_pos]; try reflexivity;
    rewrite Pos2Z.inj_succ; lia.
Qed.

Lemma Zdigits2_pos m : 0 < m -> 0 < Zdigits2 m /\ 2 ^ (Zdigits2 m - 1) <= m.
Proof.
  destruct m as [|p|p]; try lia. intros _. cbn [Zdigits2].
  split; [lia|]. apply digits2_pos_bounds.
Qed.

Lemma shr_1_m r : 0 <= shr_m r -> shr_m (shr_1 r) = shr_m r / 2.
Proof.
  destruct r as [m rb sb]. cbn [shr_m]. intros H.
  destruct m as [|[p|p|]|p].
  - reflexivity.
  - change (Z.pos p = Z.pos p~1 / 2). apply Z.div_unique with 1; lia.
  - change (Z.pos p = Z.pos p~0 / 2). apply Z.div_unique with 0; lia.
  - reflexivity.
  - lia.
Qed.

Lemma iter_shr_1_m n : forall r,
  0 <= shr_m r -> shr_m (iter_pos shr_1 n r) = shr_m r / 2 ^ Zpos n.
Proof.
  induction n as [n IH|n IH|]; intros r Hr; cbn [iter_pos].
  - rewrite IH, IH, shr_1_m by
      (rewrite ?IH, ?shr_1_m; try apply Z.div_pos; rewrite ?shr_1_m;
       try apply Z.div_pos; try lia; apply Z.pow_pos_nonneg; lia).
    rewrite !Z.div_div by (try apply Z.pow_pos_nonneg; lia).
    f_equal. rewrite <- Z.pow_add_r by lia. rewrite <- Z.pow_succ_r by lia.
    f_equal. lia.
  - rewrite IH, IH by
      (rewrite ?IH; try apply Z.div_pos; try lia; apply Z.pow_pos_nonneg; lia).
    rewrite !Z.div_div by (try apply Z.pow_pos_nonneg; lia).
    f_equal. rewrite <- Z.pow_add_r by lia. f_equal. lia.
  - rewrite shr_1_m by lia. reflexivity.
Qed.

Lemma shr_record_of_loc_m m l : shr_m (shr_record_of_loc m l) = m.
Proof. destruct l as [|[]]; reflexivity. Qed.

Lemma shr_m_spec r e n :
  0 <= shr_m r ->
  shr_m (fst (shr r e n)) = if 0 <? n then shr_m r / 2 ^ n else shr_m r.
Proof.
  intros H. destruct n as [|p|p]; cbn [shr fst]; try reflexivity.
  rewrite iter_shr_1_m by assumption. reflexivity.
Qed.

Lemma shr_e_spec r e n : snd (shr r e n) = if 0 <? n then e + n else e.
Proof. destruct n; reflexivity. Qed.

Lemma fexp_eq k : fexp prec emax k = Z.max (k - 53) (-1074).
Proof. reflexivity. Qed.

Lemma shr_fexp_e_ge m e l : -1074 <= snd (shr_fexp prec emax m e l).
Proof.
  unfold shr_fexp. rewrite shr_e_spec, fexp_eq.
  destruct (0 <? _) eqn:E; [apply Z.ltb_lt in E | apply Z.ltb_ge in E]; lia.
Qed.

Lemma shr_fexp_m_nonneg m e l :
  0 <= m -> 0 <= shr_m (fst (shr_fexp prec emax m e l)).
Proof.
  intros H. unfold shr_fexp.
  rewrite shr_m_spec by (rewrite shr_record_of_loc_m; lia).
  rewrite shr_record_of_loc_m. destruct (0 <? _) eqn:E; [|lia].
  apply Z.ltb_lt in E. apply Z.div_pos; [lia|]. apply Z.pow_pos_nonneg; lia.
Qed.

Lemma shr_fexp_m_pos m e l :
  0 < m -> -1074 - e < Zdigits2 m ->
  0 < shr_m (fst (shr_fexp prec emax m e l)).
Proof.
  intros H Hd. destruct (Zdigits2_pos m H) as [Hd0 Hp]. unfold shr_fexp.
  rewrite shr_m_spec by (rewrite shr_record_of_loc_m; lia).
  rewrite shr_record_of_loc_m, fexp_eq. destruct (0 <? _) eqn:E; [|lia].
  apply Z.ltb_lt in E. apply Z.div_str_pos. split.
  - apply Z.pow_pos_nonneg; lia.
  - etransitivity; [|exact Hp]. apply Z.pow_le_mono_r; lia.
Qed.

Lemma round_nearest_even_bounds m l :
  m <= round_nearest_even m l <= m + 1.
Proof. destruct l as [|[]]; cbn; try lia. destruct (Z.even m); lia. Qed.

(** A positive value that is at least the least positive number does not
    round to zero. *)
Lemma binary_round_aux_nonzero s m e l :
  0 < m -> -1074 - e < Zdigits2 m ->
  sf_is_zero (binary_round_aux prec emax s m e l) = false.
Proof.
  intros H Hd. unfold binary_round_aux.
  pose proof (shr_fexp_m_pos m e l H Hd) as H1.
  pose proof (shr_fexp_e_ge m e l) as He1.
  destruct (shr_fexp prec emax m e l) as [mrs' e']. cbn [fst snd] in *.
  pose proof (round_nearest_even_bounds (shr_m mrs') (loc_of_shr_record mrs')) as Hr.
  set (m1 := round_nearest_even (shr_m mrs') (loc_of_shr_record mrs')) in *.
  assert (Hm1 : 0 < m1) by lia.
  pose proof (shr_fexp_m_pos m1 e' loc_Exact Hm1) as H2.
  destruct (Zdigits2_pos m1 Hm1) as [Hd1 _].
  specialize (H2 ltac:(lia)).
  destruct (shr_fexp prec emax m1 e' loc_Exact) as [mrs'' e'']. cbn [fst] in H2.
  destruct (shr_m mrs''); try lia.
  destruct (e'' <=? emax - prec); reflexivity.
Qed.

(** Rounding keeps the sign. *)
Lemma binary_round_aux_signed s m e l :
  0 <= m -> sf_signed s (binary_round_aux prec emax s m e l) = true.
Proof.
  intros H. unfold binary_round_aux.
  pose proof (shr_fexp_m_nonneg m e l H) as H1.
  destruct (shr_fexp prec emax m e l) as [mrs' e']. cbn [fst snd] in *.
  pose proof (round_nearest_even_bounds (shr_m mrs') (loc_of_shr_record mrs')) as Hr.
  set (m1 := round_nearest_even (shr_m mrs') (loc_of_shr_record mrs')) in *.
  pose proof (shr_fexp_m_nonneg m1 e' loc_Exact ltac:(lia)) as H2.
  destruct (shr_fexp prec emax m1 e' loc_Exact) as [mrs'' e'']. cbn [fst] in H2.
  destruct (shr_m mrs''); try lia.
  - apply Bool.eqb_reflx.
  - destruct (e'' <=? emax - prec); apply Bool.eqb_reflx.
Qed.

Lemma sf_signed_nonneg x : sf_signed false x = true -> sf_nonneg x = true.
Proof. destruct x as [s|[]| |[] m e]; cbn; congruence. Qed.

Lemma valid_finite x s m e :
  Prim2SF x = S754_finite s m e ->
  e = Z.max (Zpos (digits2_pos m) + e - 53) (-1074) /\ e <= 971.
Proof.
  intros E. pose proof (Prim2SF_valid x) as V. rewrite E in V.
  cbn [valid_binary] in V. unfold bounded, canonical_mantissa in V.
  apply andb_prop in V. destruct V as [V1 V2].
  apply Z.eqb_eq in V1. apply Z.leb_le in V2. rewrite fexp_eq in V1.
  split; [lia | exact V2].
Qed.

(** *** Zero and sign of the three operations of the base score *)

Lemma mul5_zero x : (x * 5 =? 0)%float = true -> (x =? 0)%float = true.
Proof.
  rewrite !is_zero_spec, FloatAxioms.mul_spec, prim_five.
  destruct (Prim2SF x) as [s|s| |s m e] eqn:E; cbn [SF64mul SFmul sf_is_zero];
    try congruence.
  destruct (valid_finite _ _ _ _ E) as [He _].
  rewrite binary_round_aux_nonzero; [congruence|lia|].
  cbn [Zdigits2].
  assert (52 < Zpos (digits2_pos (m * 5629499534213120))).
  { apply digits_above; [lia|]. change (2 ^ 52) with 4503599627370496. lia. }
  lia.
Qed.

Lemma add_zero c a :
  (0 <=? c)%float = true -> (0 <=? a)%float = true ->
  (c + a =? 0)%float = true -> (c =? 0)%float = true /\ (a =? 0)%float = true.
Proof.
  rewrite !nonneg_spec, !is_zero_spec, FloatAxioms.add_spec.
  destruct (Prim2SF c) as [s|[]| |[] m e] eqn:Ec; cbn [sf_nonneg]; try congruence;
    destruct (Prim2SF a) as [s'|[]| |[] m' e'] eqn:Ea; cbn [sf_nonneg];
    try congruence;
    intros _ _; cbn [SF64add SFadd sf_is_zero]; try (intuition congruence).
  destruct (valid_finite _ _ _ _ Ec) as [He _].
  destruct (valid_finite _ _ _ _ Ea) as [He' _].
  cbn [cond_Zopp Z.add binary_normalize]. unfold binary_round.
  set (M := (fst (shl_align m e (Z.min e e'))
             + fst (shl_align m' e' (Z.min e e')))%positive).
  unfold shl_align at 1.
  destruct (fexp prec emax (Z.pos (digits2_pos M) + Z.min e e') - Z.min e e')
    eqn:Ed;
    rewrite binary_round_aux_nonzero; try congruence; try lia; cbn [Zdigits2];
    rewrite ?fexp_eq; lia.
Qed.

Lemma div2_core m e :
  e = Z.max (Zpos (digits2_pos m) + e - 53) (-1074) ->
  (m, e) <> (1%positive, -1074) ->
  let '(q, e', _) :=
    SFdiv_core_binary prec emax (Zpos m) e 4503599627370496 (-51) in
  0 < q /\ -1074 <= e'.
Proof.
  intros He Hne. unfold SFdiv_core_binary.
  change (Zdigits2 4503599627370496) with 53. cbn [Zdigits2].
  set (d := Zpos (digits2_pos m)) in *.
  assert (Hd : 0 < d) by (unfold d; lia).
  rewrite fexp_eq.
  set (e' := Z.min (Z.max (d + e - (53 + -51) - 53) (-1074)) (e - -51)).
  set (s := e - -51 - e').
  assert (Hs : 0 < s) by (unfold s, e'; lia).
  assert (He' : -1074 <= e') by (unfold e'; lia).
  assert (Hds : 53 <= d + s).
  { unfold s, e'.
    destruct (Z.eq_dec d 1) as [Hd1|Hd1].
    - assert (m = 1%positive) by (apply digits_one; fold d; lia). subst m.
      assert (e <> -1074) by congruence. lia.
    - lia. }
  destruct s as [|ps|ps] eqn:Es; try lia.
  rewrite Z.shiftl_mul_pow2 by lia.
  pose proof (Z_div_mod (Zpos m * 2 ^ Zpos ps) 4503599627370496 ltac:(lia)) as Hdm.
  destruct (Z.div_eucl (Zpos m * 2 ^ Zpos ps) 4503599627370496) as [q r].
  split; [|exact He'].
  assert (2 ^ 52 <= Zpos m * 2 ^ Zpos ps).
  { destruct (digits2_pos_bounds m) as [Hl _]. fold d in Hl.
    assert (2 ^ 52 <= 2 ^ (d - 1) * 2 ^ Zpos ps).
    { rewrite <- Z.pow_add_r by lia. apply Z.pow_le_mono_r; lia. }
    assert (0 < 2 ^ Zpos ps) by (apply Z.pow_pos_nonneg; lia).
    nia. }
  change (2 ^ 52) with 4503599627370496 in *. lia.
Qed.

(** Halving rounds to zero only at zero and at the least positive number
    (a tie, which goes to the even neighbour, zero). *)
Lemma div2_zero x :
  (x / 2 =? 0)%float = true ->
  (x =? 0)%float = true \/ exists s, Prim2SF x = S754_finite s 1 (-1074).
Proof.
  rewrite !is_zero_spec, FloatAxioms.div_spec, prim_two.
  destruct (Prim2SF x) as [s|s| |s m e] eqn:E; cbn [SF64div SFdiv sf_is_zero];
    try congruence; auto.
  destruct (valid_finite _ _ _ _ E) as [He _].
  destruct (Z.eq_dec e (-1074)) as [He1|He1];
    [destruct (Pos.eq_dec m 1) as [Hm|Hm]|].
  - subst. eauto.
  - pose proof (div2_core m e He ltac:(congruence)) as Hc.
    destruct (SFdiv_core_binary prec emax (Z.pos m) e 4503599627370496 (-51))
      as [[q e'] l].
    destruct Hc as [Hq He'].
    rewrite binary_round_aux_nonzero; [congruence|assumption|].
    destruct (Zdigits2_pos q Hq). lia.
  - pose proof (div2_core m e He ltac:(congruence)) as Hc.
    destruct (SFdiv_core_binary prec emax (Z.pos m) e 4503599627370496 (-51))
      as [[q e'] l].
    destruct Hc as [Hq He'].
    rewrite binary_round_aux_nonzero; [congruence|assumption|].
    destruct (Zdigits2_pos q Hq). lia.
Qed.

Lemma nonneg_add c a :
  (0 <=? c)%float = true -> (0 <=? a)%float = true ->
  (0 <=? c + a)%float = true.
Proof.
  rewrite !nonneg_spec, FloatAxioms.add_spec.
  destruct (Prim2SF c) as [s|[]| |[] m e] eqn:Ec; cbn [sf_nonneg]; try congruence;
    destruct (Prim2SF a) as [s'|[]| |[] m' e'] eqn:Ea; cbn [sf_nonneg];
    try congruence;
    intros _ _; cbn [SF64add SFadd sf_nonneg]; try reflexivity.
  - destruct s, s'; reflexivity.
  - cbn [cond_Zopp Z.add binary_normalize]. unfold binary_round.
    destruct (shl_align _ _ _) as [mz ez].
    apply sf_signed_nonneg, binary_round_aux_signed. lia.
Qed.

Lemma div_core_nonneg m e m2 e2 :
  let '(q, _, _) := SFdiv_core_binary prec emax (Zpos m) e (Zpos m2) e2 in
  0 <= q.
Proof.
  unfold SFdiv_core_binary.
  set (s := e - e2 - _).
  set (m' := match s with
             | Z.pos _ => Z.shiftl (Z.pos m) s
             | 0 => Z.pos m
             | Z.neg _ => 0
             end).
  assert (0 <= m').
  { unfold m'. destruct s; try lia. apply Z.shiftl_nonneg. lia. }
  pose proof (Z_div_mod m' (Zpos m2) ltac:(lia)) as Hdm.
  destruct (Z.div_eucl m' (Zpos m2)) as [q r]. nia.
Qed.

Lemma nonneg_div2 x : (0 <=? x)%float = true -> (0 <=? x / 2)%float = true.
Proof.
  rewrite !nonneg_spec, FloatAxioms.div_spec, prim_two.
  destruct (Prim2SF x) as [s|[]| |[] m e] eqn:E; cbn [sf_nonneg]; try congruence;
    intros _; cbn [SF64div SFdiv sf_nonneg xorb]; try reflexivity.
  pose proof (div_core_nonneg m e 4503599627370496 (-51)) as Hc.
  destruct (SFdiv_core_binary prec emax (Z.pos m) e 4503599627370496 (-51))
    as [[q e'] l].
  apply sf_signed_nonneg, binary_round_aux_signed. exact Hc.
Qed.

Lemma nonneg_mul5 x : (0 <=? x)%float = true -> (0 <=? x * 5)%float = true.
Proof.
  rewrite !nonneg_spec, FloatAxioms.mul_spec, prim_five.
  destruct (Prim2SF x) as [s|[]| |[] m e] eqn:E; cbn [sf_nonneg]; try congruence;
    intros _; cbn [SF64mul SFmul sf_nonneg xorb]; try reflexivity.
  apply sf_signed_nonneg, binary_round_aux_signed. lia.
Qed.

(** The base score of two non-negative scores. *)
Lemma base_score_nonneg c a :
  (0 <=? c)%float = true -> (0 <=? a)%float = true ->
  (0 <=? base_score c a)%float = true.
Proof.
  intros Hc Ha. unfold base_score.
  apply nonneg_mul5, nonneg_div2, nonneg_add; assumption.
Qed.

Lemma base_score_zero c a :
  (0 <=? c)%float = true -> (0 <=? a)%float = true ->
  (base_score c a =? 0)%float = true ->
  ((c =? 0)%float = true /\ (a =? 0)%float = true)
  \/ (c + a)%float = least_positive.
Proof.
  intros Hc Ha H. unfold base_score in H.
  apply mul5_zero, div2_zero in H. destruct H as [H|[s H]].
  - left. apply add_zero; assumption.
  - right. apply Prim2SF_inj. rewrite prim_least_positive, H.
    pose proof (nonneg_add c a Hc Ha) as Hn. rewrite nonneg_spec, H in Hn.
    destruct s; [discriminate|reflexivity].
Qed.

Lemma base_score_of_zeros c a :
  (c =? 0)%float = true -> (a =? 0)%float = true ->
  (base_score c a =? 0)%float = true.
Proof.
  intros Hc Ha. apply eqb_zero_cases in Hc, Ha.
  destruct Hc as [-> | ->], Ha as [-> | ->]; reflexivity.
Qed.

End Binary64.

(** ** The abuse score *)

Import Binary64.

Lemma jsstring_eqb_eq a : forall b, jsstring_eqb a b = true <-> a = b.
Proof.
  induction a as [|x a IH]; intros [|y b]; cbn [jsstring_eqb];
    try (split; congruence).
  rewrite andb_true_iff, N.eqb_eq, IH. split.
  - intros [-> ->]. reflexivity.
  - intros E. injection E as -> ->. auto.
Qed.

Lemma jsstring_eqb_refl a : jsstring_eqb a a = true.
Proof. apply jsstring_eqb_eq. reflexivity. Qed.

(** A number between 0 and 1 comes through the normalization unchanged, up
    to the sign of zero. *)
Lemma normalize_spec c nc :
  raw_score c nc ->
  exists x, parseFloat (normalizeScore c) = ok x
            /\ number_or_zero x = canonical nc.
Proof.
  intros H. destruct H as [x H0 H1|s x Hs H0 H1| | | |s Hs].
  - unfold normalizeScore. cbn [truthy is_string].
    rewrite (leb_not_nan_r _ _ H0), orb_false_r, negb_involutive, orb_false_r.
    unfold canonical. destruct (x =? 0)%float eqn:E.
    + exists 0%float. split; reflexivity.
    + exists x. split.
      * unfold parseFloat. cbn. rewrite E. reflexivity.
      * unfold number_or_zero. rewrite E, (leb_not_nan_r _ _ H0). reflexivity.
  - unfold normalizeScore.
    destruct (negb (truthy (VStr s)) || is_string (VStr s) unknown_marker) eqn:E.
    + exfalso. apply orb_prop in E. destruct E as [E|E].
      * destruct s; [|discriminate]. subst x. discriminate.
      * apply jsstring_eqb_eq in E. subst s x. discriminate.
    + exists x. split; [unfold parseFloat; cbn; congruence|].
      unfold number_or_zero, canonical.
      rewrite (leb_not_nan_r _ _ H0), orb_false_r. reflexivity.
  - exists 0%float. split; reflexivity.
  - exists 0%float. split; reflexivity.
  - exists 0%float. split; reflexivity.
  - unfold normalizeScore.
    destruct (negb (truthy (VStr s)) || is_string (VStr s) unknown_marker).
    + exists 0%float. split; reflexivity.
    + exists (parseFloat_string s). split; [reflexivity|].
      unfold number_or_zero. rewrite Hs, orb_true_r. reflexivity.
Qed.

Lemma raw_score_nonneg c nc : raw_score c nc -> (0 <=? nc)%float = true.
Proof. intros H. destruct H; auto. Qed.

Lemma riskFlags_flags_object f :
  riskFlags (flags_object f)
  = ok [VBool (crawler f); VBool (proxy f); VBool (vpn f); VBool (tor f);
        VBool (abuser f); VBool (bogon f)].
Proof. reflexivity. Qed.

Lemma riskCount_flags f :
  riskCount [VBool (crawler f); VBool (proxy f); VBool (vpn f); VBool (tor f);
             VBool (abuser f); VBool (bogon f)] = true_flags f.
Proof. destruct f as [[] [] [] [] [] []]; reflexivity. Qed.

Lemma true_flags_le f : true_flags f <= 6.
Proof. destruct f as [[] [] [] [] [] []]; cbn; lia. Qed.

Ltac upto6 n :=
  destruct n as [|[|[|[|[|[|[|?]]]]]]]; try lia; try reflexivity.

Lemma risk_commutes n :
  n <= 6 -> (number_of_nat n * 0.15)%float = risk_addition n.
Proof. intros H. upto6 n. Qed.

Lemma risk_zero n : n <= 6 -> ((risk_addition n =? 0)%float = true <-> n = 0).
Proof. intros H. upto6 n; split; (discriminate || reflexivity). Qed.

Lemma risk_nonneg n : n <= 6 -> (0 <=? risk_addition n)%float = true.
Proof. intros H. upto6 n. Qed.

Lemma composite_canonical c a n :
  n <= 6 -> composite (canonical c) (canonical a) n = composite c a n.
Proof.
  intros Hn. unfold canonical.
  destruct (c =? 0)%float eqn:Ec; destruct (a =? 0)%float eqn:Ea; try reflexivity.
  - apply eqb_zero_cases in Ec, Ea.
    destruct Ec as [-> | ->], Ea as [-> | ->]; upto6 n.
  - unfold composite, base_score.
    rewrite !(add_zero_l _ a) by (assumption || reflexivity). reflexivity.
  - unfold composite, base_score.
    rewrite !(add_zero_r _ c) by (assumption || reflexivity). reflexivity.
Qed.

(** The value of [calculateAbuseScore] on the data model. *)
Lemma calculateAbuseScore_composite c a nc na f :
  raw_score c nc -> raw_score a na ->
  calculateAbuseScore c a (flags_object f) = ok (composite nc na (true_flags f)).
Proof.
  intros Hc Ha.
  destruct (normalize_spec _ _ Hc) as (x & Hx & Hx').
  destruct (normalize_spec _ _ Ha) as (y & Hy & Hy').
  unfold calculateAbuseScore. cbn [flags_object].
  rewrite Hx. cbn [rbind]. rewrite Hy. cbn [rbind].
  change (VObj _) with (flags_object f).
  rewrite riskFlags_flags_object. cbn [rbind ok].
  rewrite riskCount_flags, Hx', Hy'.
  rewrite risk_commutes by apply true_flags_le.
  rewrite <- (composite_canonical nc na) by apply true_flags_le.
  unfold composite, base_score.
  destruct (_ && _); reflexivity.
Qed.

(** [C1] For raw scores of the data model (a number in [0,1], absent, the
    sentinel, or text: normalized to the number, or to 0) and every set of
    the six boolean flags, [calculateAbuseScore] returns, and never throws:
    null in the null case and otherwise
    ((company + asn) / 2) * 5 + 0.15 * (number of true flags). *)
Theorem calculateAbuseScore_formula c a nc na f :
  raw_score c nc -> raw_score a na ->
  calculateAbuseScore c a (flags_object f) = ok (composite nc na (true_flags f)).
Proof. exact (calculateAbuseScore_composite c a nc na f). Qed.

Lemma calculateAbuseScore_formula_witness :
  calculateAbuseScore (VNum 0.01) (VStr unknown_marker)
    (flags_object {| crawler := false; proxy := false; vpn := true;
                     tor := false; abuser := false; bogon := false |})
  = ok (composite 0.01 0 1).
Proof.
  apply (calculateAbuseScore_formula (VNum 0.01) (VStr unknown_marker) 0.01 0).
  - apply raw_number; reflexivity.
  - apply raw_unknown.
Defined.

(** The function returns for every pair of scores that can be converted to
    a string, and every flags object. *)
Lemma calculateAbuseScore_returns c a members :
  to_string_throws c = false -> to_string_throws a = false ->
  exists r, calculateAbuseScore c a (VObj members) = ok r.
Proof.
  intros Hc Ha. unfold calculateAbuseScore.
  assert (N : forall v, to_string_throws v = false ->
                        parseFloat (normalizeScore v) = ok (parseFloat_of (normalizeScore v))).
  { intros v Hv. unfold normalizeScore, parseFloat.
    destruct (negb (truthy v) || is_string v unknown_marker); [reflexivity|].
    rewrite Hv. reflexivity. }
  rewrite (N c Hc), (N a Ha). cbn [rbind riskFlags get ok].
  destruct (_ && _); eauto.
Qed.

Lemma is_true_idem v : is_true (VBool (is_true v)) = is_true v.
Proof. destruct v as [| |[]| | | |]; reflexivity. Qed.

Lemma riskCount_strict v1 v2 v3 v4 v5 v6 :
  riskCount [v1; v2; v3; v4; v5; v6]
  = riskCount [VBool (is_true v1); VBool (is_true v2); VBool (is_true v3);
               VBool (is_true v4); VBool (is_true v5); VBool (is_true v6)].
Proof.
  unfold riskCount. cbn [filter]. rewrite !is_true_idem.
  destruct (is_true v1), (is_true v2), (is_true v3), (is_true v4),
    (is_true v5), (is_true v6); reflexivity.
Qed.

(** [C10] Only a flag that is the boolean [true] counts: for every flags
    object, the score is the one of the six flags read strictly, so a truthy
    value that is not a boolean (1, 'true', any text) and an absent flag add
    nothing, as [false] does. *)
Theorem only_true_flags_count companyScore asnScore members :
  calculateAbuseScore companyScore asnScore (VObj members)
  = calculateAbuseScore companyScore asnScore
      (flags_object (strict_flags (VObj members)))
  /\ (forall l, riskFlags (VObj members) = ok l ->
                riskCount l = true_flags (strict_flags (VObj members)))
  /\ calculateAbuseScore (VNum 0) (VNum 0)
       (VObj [member "is_vpn" (VNum 1); member "is_tor" (VStr (js "true"));
              member "is_proxy" (VStr (js "yes"))]) = ok SNull
  /\ calculateAbuseScore (VNum 0) (VNum 0)
       (VObj [member "is_vpn" (VBool true)]) = ok (SNumber 0.15).
Proof.
  assert (R : forall l, riskFlags (VObj members) = ok l ->
                riskCount l = true_flags (strict_flags (VObj members))).
  { intros l E. cbn [riskFlags get rbind ok] in E. injection E as <-.
    rewrite <- riskCount_flags. unfold strict_flags, get_opt.
    cbn [get ok crawler proxy vpn tor abuser bogon].
    apply riskCount_strict. }
  split; [|split; [exact R|split; reflexivity]].
  unfold calculateAbuseScore.
  destruct (parseFloat (normalizeScore companyScore)) as [e|x]; [reflexivity|].
  destruct (parseFloat (normalizeScore asnScore)) as [e|y]; [reflexivity|].
  cbn [rbind flags_object].
  pose proof (riskFlags_flags_object (strict_flags (VObj members))) as RF.
  cbn [flags_object] in RF. rewrite RF.
  destruct (riskFlags (VObj members)) as [e|l] eqn:E; [discriminate|].
  cbn [rbind ok]. rewrite (R l eq_refl), riskCount_flags. reflexivity.
Qed.

(** [C2] The property as worded fails: [calculateAbuseScore(5e-324, 0, {})] is
    null although the first score is not zero (half of the least positive
    number rounds to 0), so "null exactly when both scores are absent or zero
    and no flag is true" does not hold of it. *)
Lemma null_with_a_positive_score :
  ~ null_iff_no_information (VNum least_positive) (VNum 0) no_flags.
Proof.
  intros H.
  assert (Hc : raw_score (VNum least_positive) least_positive)
    by (apply raw_number; reflexivity).
  assert (Ha : raw_score (VNum 0) 0) by (apply raw_number; reflexivity).
  destruct (H _ _ Hc Ha) as [H1 _].
  destruct (H1 eq_refl) as [E _]. discriminate.
Qed.

(** [C2] For raw scores of the data model and every set of the six flags:
    the result is null exactly when the base score computed is 0 and the risk
    addition is 0; the risk addition is 0 exactly when no flag is true; the
    base score is 0 when both scores are absent, the sentinel or zero, and
    otherwise only when the two scores add up to the least positive number;
    null is shown as the sentinel text, a number as its percentage; and every
    result that is not null is at least 0. *)
Theorem calculateAbuseScore_null c a nc na f :
  raw_score c nc -> raw_score a na ->
  let r := calculateAbuseScore c a (flags_object f) in
  (r = ok SNull
   <-> (base_score nc na =? 0)%float = true
       /\ (risk_addition (true_flags f) =? 0)%float = true)
  /\ ((risk_addition (true_flags f) =? 0)%float = true <-> true_flags f = 0)
  /\ ((nc =? 0)%float = true -> (na =? 0)%float = true ->
      (base_score nc na =? 0)%float = true)
  /\ ((base_score nc na =? 0)%float = true ->
      ((nc =? 0)%float = true /\ (na =? 0)%float = true)
      \/ (nc + na)%float = least_positive)
  /\ riskControl SNull = RiskText unknown_marker
  /\ formatAbuseScorePercentage SNull = Lit unknown_marker
  /\ (forall x, riskControl (SNumber x)
                = RiskBadge (getAbuseScoreBadgeClass (SNumber (x * 100)))
                    (Append (ToFixed2 (x * 100)) (Lit (js "%")))
                    (riskLevelText (x * 100)))
  /\ (forall x, r = ok (SNumber x) -> (0 <=? x)%float = true).
Proof.
  intros Hc Ha r. subst r.
  rewrite (calculateAbuseScore_composite c a nc na f Hc Ha).
  pose proof (raw_score_nonneg _ _ Hc) as Nc.
  pose proof (raw_score_nonneg _ _ Ha) as Na.
  pose proof (true_flags_le f) as Hf.
  split; [|split; [|split; [|split; [|split; [|split; [|split]]]]]];
    try reflexivity.
  - unfold composite. split.
    + intros E. destruct (base_score nc na =? 0)%float; [|discriminate].
      destruct (risk_addition (true_flags f) =? 0)%float;
        [split; reflexivity|discriminate].
    + intros [-> ->]. reflexivity.
  - apply risk_zero. exact Hf.
  - apply base_score_of_zeros.
  - apply base_score_zero; assumption.
  - intros x E. unfold composite in E.
    destruct (_ && _); [discriminate|]. injection E as <-.
    apply nonneg_add; [apply base_score_nonneg; assumption|].
    apply risk_nonneg. exact Hf.
Qed.

Lemma calculateAbuseScore_null_witness :
  calculateAbuseScore VUndefined (VNum 0) (flags_object no_flags) = ok SNull
  <-> (base_score 0 0 =? 0)%float = true
      /\ (risk_addition (true_flags no_flags) =? 0)%float = true.
Proof.
  apply (calculateAbuseScore_null VUndefined (VNum 0) 0 0 no_flags).
  - apply raw_undefined.
  - apply raw_number; reflexivity.
Defined.

(** The thresholds of the threat badge, for a score that is a number other
    than zero. *)
Lemma getThreatBadgeClass_number x :
  (x =? 0)%float = false -> PrimFloat.is_nan x = false ->
  getThreatBadgeClass (VNum x)
  = ok (if (x <? 0.001)%float then js "badge-success"
        else if (x <? 0.01)%float then js "badge-info"
        else if (x <? 0.1)%float then js "badge-warning"
        else js "badge-danger").
Proof.
  intros E N. unfold getThreatBadgeClass, parseFloat. cbn. rewrite E, N. cbn.
  destruct (x <? 0.001)%float; [reflexivity|].
  destruct (x <? 0.01)%float; [reflexivity|].
  destruct (x <? 0.1)%float; reflexivity.
Qed.

(** [C3] What the code does with an absent score.  The function alone
    gives 'info' to an absent score, but the modal replaces an absent score
    by the sentinel text before the call, and the badge of a section without
    a score is 'danger'; a score that is the number 0 gets 'info' from the
    function and 'danger' in the modal, not 'success'. *)
Theorem threat_badge_of_absent_score :
  getThreatBadgeClass VUndefined = ok (js "badge-info")
  /\ sectionBadgeClass (VObj [member "name" (VStr (js "Example"))])
     = ok (js "badge-danger")
  /\ getThreatBadgeClass (VStr unknown_marker) = ok (js "badge-danger")
  /\ getThreatBadgeClass (VNum 0) = ok (js "badge-info")
  /\ sectionBadgeClass (VObj [member "abuser_score" (VNum 0)])
     = ok (js "badge-danger")
  /\ getThreatBadgeClass (VNum 0.0005) = ok (js "badge-success")
  /\ getThreatBadgeClass (VNum 0.005) = ok (js "badge-info")
  /\ getThreatBadgeClass (VNum 0.05) = ok (js "badge-warning")
  /\ getThreatBadgeClass (VNum 0.5) = ok (js "badge-danger").
Proof. repeat split; reflexivity. Qed.

Lemma badge_bucket p : getAbuseScoreBadgeClass (SNumber p) = bucket p.
Proof.
  unfold getAbuseScoreBadgeClass, bucket.
  destruct (100 <=? p)%float eqn:E100; [reflexivity|].
  destruct (20 <=? p)%float eqn:E20.
  { rewrite (between 20 100 p); auto. }
  destruct (5 <=? p)%float eqn:E5.
  { rewrite (between 5 20 p); auto. }
  destruct (0.25 <=? p)%float eqn:E025.
  { rewrite (between 0.25 5 p); auto. }
  reflexivity.
Qed.

Lemma level_bucket p : riskLevelText p = level p.
Proof.
  unfold riskLevelText, level.
  destruct (100 <=? p)%float eqn:E100; [reflexivity|].
  destruct (20 <=? p)%float eqn:E20.
  { rewrite (between 20 100 p); auto. }
  destruct (5 <=? p)%float eqn:E5.
  { rewrite (between 5 20 p); auto. }
  destruct (0.25 <=? p)%float eqn:E025.
  { rewrite (between 0.25 5 p); auto. }
  reflexivity.
Qed.

(** [C4] For every composite score, the badge of its percentage (the score
    times 100) is fixed by lower bounds taken in descending order: at least
    100 is 'critical', from 20 up to 100 'high', from 5 up to 20 'elevated',
    from 0.25 up to 5 'low', anything else 'very low', each bound belonging
    to the bucket above it; the level text follows the same bounds.  The score
    of no data and one flag is 0.15, which is 15 percent, 'elevated'; a null or
    undefined percentage is 'info'. *)
Theorem severity_buckets x :
  let percentage := (x * 100)%float in
  getAbuseScoreBadgeClass (SNumber percentage) = bucket percentage
  /\ riskLevelText percentage = level percentage
  /\ calculateAbuseScore (VNum 0) (VNum 0) (VObj [member "is_vpn" (VBool true)])
     = ok (SNumber 0.15)
  /\ (0.15 * 100)%float = 15%float
  /\ getAbuseScoreBadgeClass (SNumber 15) = js "badge-elevated"
  /\ getAbuseScoreBadgeClass (SNumber 100) = js "badge-critical"
  /\ getAbuseScoreBadgeClass (SNumber 20) = js "badge-high"
  /\ getAbuseScoreBadgeClass (SNumber 5) = js "badge-elevated"
  /\ getAbuseScoreBadgeClass (SNumber 0.25) = js "badge-low"
  /\ getAbuseScoreBadgeClass SNull = js "badge-info"
  /\ getAbuseScoreBadgeClass SUndefined = js "badge-info".
Proof.
  cbn zeta. split; [apply badge_bucket|]. split; [apply level_bucket|].
  repeat split; reflexivity.
Qed.

(** ** The provider cascade *)

Lemma run_bind {A B} (w : world) (m : async A) (f : A -> async B) : forall s,
  run w (bind m f) s =
  match run w m s with
  | (inr a, s1) => run w (f a) s1
  | (inl e, s1) => (inl e, s1)
  end.
Proof.
  induction m as [a|e|g k IH|k IH|k IH|e k IH|u k IH|r k IH|r k IH]; intros s;
    cbn [bind run]; auto.
Qed.

Lemma run_try_catch {A} (w : world) (m : async A) (h : exn -> async A) :
  forall s,
  run w (try_catch m h) s =
  match run w m s with
  | (inr a, s1) => (inr a, s1)
  | (inl e, s1) => run w (h e) s1
  end.
Proof.
  induction m as [a|e|g k IH|k IH|k IH|e k IH|u k IH|r k IH|r k IH]; intros s;
    cbn [try_catch run]; auto.
Qed.

Ltac run_step :=
  cbn [bind try_catch run fetch settled lift await_json await_text dom_ emit].

Lemma run_attempt_ok w c s res :
  attempt_result w c (clock w (ticks s)) = inr res ->
  run w (attempt_guarded c) s = (inr true, after_success w c res s).
Proof.
  unfold attempt_result, attempt_guarded, attempt, renderable, set_textContent.
  intros H. run_step.
  destruct (net w _) as [e|response]; cbn [rbind] in H; [discriminate|].
  run_step.
  destruct (json_body response) as [e|data]; cbn [rbind] in H; [discriminate|].
  run_step.
  destruct (parser c data) as [e|res']; cbn [rbind] in H; [discriminate|].
  run_step.
  destruct (to_string_throws (ip res')); [discriminate|].
  destruct (to_string_throws (country res')); [discriminate|].
  destruct (to_string_throws (city res')); [discriminate|].
  cbn in H. injection H as ->. reflexivity.
Qed.

Lemma run_attempt_failed w c s e :
  attempt_result w c (clock w (ticks s)) = inl e ->
  run w (attempt_guarded c) s = (inr false, after_failure w c s).
Proof.
  unfold attempt_result, attempt_guarded, attempt, renderable, set_textContent,
    after_failure, partial_write, attempt_error.
  intros H. run_step.
  destruct (net w _) as [e0|response]; cbn [rbind] in H; [reflexivity|].
  run_step.
  destruct (json_body response) as [e0|data]; cbn [rbind] in H; [reflexivity|].
  run_step.
  destruct (parser c data) as [e0|res']; cbn [rbind] in H; [reflexivity|].
  run_step.
  destruct (to_string_throws (ip res')); [reflexivity|].
  destruct (to_string_throws (country res')); [reflexivity|].
  destruct (to_string_throws (city res')); [|discriminate].
  reflexivity.
Qed.

(** The cascade is the fold in which the first success wins. *)
Lemma run_cascade w configs : forall s,
  run w (cascade configs) s = (inr tt, cascade_state w configs s).
Proof.
  induction configs as [|c rest IH]; intros s.
  - reflexivity.
  - cbn [cascade cascade_state]. rewrite run_bind.
    change (try_catch (attempt c ;;; Ret true) _) with (attempt_guarded c).
    destruct (attempt_result w c (clock w (ticks s))) as [e|res] eqn:E.
    + rewrite (run_attempt_failed _ _ _ _ E). apply IH.
    + rewrite (run_attempt_ok _ _ _ _ E). reflexivity.
Qed.

Lemma run_fetchIpipDataWith w configs s :
  run w (fetchIpipDataWith configs) s =
  (inr tt, cascade_state w configs
             (on_page (setStatus (js "status-ipip") (js "loading")) s)).
Proof.
  unfold fetchIpipDataWith. rewrite run_bind. cbn [dom_ run]. apply run_cascade.
Qed.

Lemma fetched_app l l' : fetched (l ++ l') = fetched l ++ fetched l'.
Proof. apply flat_map_app. Qed.

Lemma cascade_state_success w configs : forall s i c res,
  nth_error configs i = Some c ->
  (forall j c', j < i -> nth_error configs j = Some c' ->
     exists e, attempt_result w c' (clock w (ticks s + j)) = inl e) ->
  attempt_result w c (clock w (ticks s + i)) = inr res ->
  let s' := cascade_state w configs s in
  inner (page s' (ById (js "ipip-ip"))) = Text (ip res)
  /\ inner (page s' (ById (js "ipip-country"))) = Text (country res)
  /\ inner (page s' (ById (js "ipip-city"))) = Text (city res)
  /\ inner (page s' (ParentOf (js "status-ipip")))
     = IndicatorAndLabel (title_label c)
  /\ className (page s' (ById (js "status-ipip")))
     = js "status-indicator status-success"
  /\ fetched (log s')
     = fetched (log s) ++ requests w (firstn (S i) configs) (ticks s).
Proof.
  induction configs as [|c0 rest IH]; intros s i c res Hi Hfail Hok.
  - destruct i; discriminate.
  - destruct i as [|i].
    + injection Hi as ->. rewrite Nat.add_0_r in Hok.
      cbn [cascade_state]. rewrite Hok. cbn zeta.
      repeat split; try reflexivity.
      unfold after_success. cbn [log]. rewrite !fetched_app.
      cbn [firstn requests fetched flat_map]. rewrite !app_nil_r. reflexivity.
    + destruct (Hfail 0 c0 ltac:(lia) eq_refl) as [e He].
      rewrite Nat.add_0_r in He. cbn [cascade_state]. rewrite He.
      cbn [nth_error] in Hi.
      specialize (IH (after_failure w c0 s) i c res Hi).
      unfold after_failure in IH at 1 2. cbn [ticks] in IH.
      destruct IH as (H1 & H2 & H3 & H4 & H5 & H6).
      * intros j c' Hj Hn. replace (S (ticks s) + j) with (ticks s + S j) by lia.
        apply Hfail; [lia|exact Hn].
      * replace (S (ticks s) + i) with (ticks s + S i) by lia. exact Hok.
      * cbn zeta. repeat split; try assumption.
        rewrite H6. unfold after_failure. cbn [log]. rewrite !fetched_app.
        cbn [firstn requests fetched flat_map].
        rewrite !app_nil_r, <- !app_assoc. reflexivity.
Qed.

Lemma cascade_state_all_failed w configs : forall s,
  (forall j c, nth_error configs j = Some c ->
     exists e, attempt_result w c (clock w (ticks s + j)) = inl e) ->
  let s' := cascade_state w configs s in
  inner (page s' (ById (js "ipip-ip"))) = ErrorSpan error_marker
  /\ inner (page s' (ById (js "ipip-country"))) = Text (VStr [])
  /\ inner (page s' (ById (js "ipip-city"))) = Text (VStr [])
  /\ className (page s' (ById (js "status-ipip")))
     = js "status-indicator status-error"
  /\ log s' = log s ++ failure_log w configs (ticks s)
                ++ [ConsoleError all_failed_message None].
Proof.
  induction configs as [|c0 rest IH]; intros s Hfail.
  - cbn. repeat split; reflexivity.
  - destruct (Hfail 0 c0 eq_refl) as [e He].
    rewrite Nat.add_0_r in He. cbn [cascade_state]. rewrite He.
    specialize (IH (after_failure w c0 s)).
    unfold after_failure in IH at 1. cbn [ticks] in IH.
    destruct IH as (H1 & H2 & H3 & H4 & H5).
    + intros j c Hn. replace (S (ticks s) + j) with (ticks s + S j) by lia.
      apply Hfail. exact Hn.
    + cbn zeta. repeat split; try assumption.
      rewrite H5. unfold after_failure. cbn [log ticks failure_log].
      rewrite <- !app_assoc. reflexivity.
Qed.

(** [C5] The cascade does not treat a response outside 2xx as a failure of
    the provider, as the specification requires: [fetchIpipData] never looks
    at the status of a response.  When the first provider answers 500 with a
    well-formed body and the second would succeed, the page shows the first
    provider's address and the second is never asked, so the cascade
    property with the specification's failure kinds does not hold of the
    code. *)
Lemma status_is_not_examined :
  ~ cascade_as_specified first_answers_500 loading_page.
Proof.
  intros H.
  specialize (H 1 {| name := js "ipipv.com"; url := js "https://myip.ipipv.com/";
                     parser := ipipv_parser |}
                {| ip := VStr (js "2.2.2.2"); country := VStr (js "CN");
                   city := VStr (js "Shanghai") |} eq_refl).
  assert (E : inner (page (snd (run first_answers_500 fetchIpipData loading_page))
                       (ById (js "ipip-ip"))) = Text (VStr (js "1.1.1.1")))
    by reflexivity.
  rewrite H in E; [discriminate| |].
  - intros j c' Hj Hn. destruct j as [|j]; [|lia].
    injection Hn as <-. left. reflexivity.
  - eexists _, _. repeat split; reflexivity.
Qed.

(** [X26] For every ordered provider list: when the attempt at provider i
    goes through (its request resolves, its body parses as JSON, its parser
    returns, and the three fields can be written as text) and the attempts
    at the providers before it all throw (the request rejects, the body does
    not parse, the parser throws, or a field cannot be written), the function
    returns with provider i's address, country and city on the page, the
    title naming provider i and the indicator at success; it has requested
    the providers up to i once each, in order, and none after i.  The status
    of a response plays no part in whether an attempt goes through. *)
Theorem cascade_first_success w configs s i c res :
  nth_error configs i = Some c ->
  (forall j c', j < i -> nth_error configs j = Some c' ->
     exists e, attempt_result w c' (clock w (ticks s + j)) = inl e) ->
  attempt_result w c (clock w (ticks s + i)) = inr res ->
  let out := run w (cascade configs) s in
  fst out = ok tt
  /\ inner (page (snd out) (ById (js "ipip-ip"))) = Text (ip res)
  /\ inner (page (snd out) (ById (js "ipip-country"))) = Text (country res)
  /\ inner (page (snd out) (ById (js "ipip-city"))) = Text (city res)
  /\ inner (page (snd out) (ParentOf (js "status-ipip")))
     = IndicatorAndLabel (title_label c)
  /\ className (page (snd out) (ById (js "status-ipip")))
     = js "status-indicator status-success"
  /\ fetched (log (snd out))
     = fetched (log s) ++ requests w (firstn (S i) configs) (ticks s).
Proof.
  intros Hi Hfail Hok. cbn zeta. rewrite run_cascade. cbn [fst snd].
  split; [reflexivity|]. apply (cascade_state_success w configs s i c res); assumption.
Qed.

Lemma cascade_first_success_witness :
  inner (page (snd (run first_unreachable (cascade apiConfigs) loading_page))
           (ById (js "ipip-ip"))) = Text (VStr (js "2.2.2.2")).
Proof.
  apply (cascade_first_success first_unreachable apiConfigs loading_page 1
           {| name := js "ipipv.com"; url := js "https://myip.ipipv.com/";
              parser := ipipv_parser |}
           {| ip := VStr (js "2.2.2.2"); country := VStr (js "CN");
              city := VStr (js "Shanghai") |}).
  - reflexivity.
  - intros j c' Hj Hn. destruct j as [|j]; [|lia].
    exists NetworkError. injection Hn as <-. reflexivity.
  - reflexivity.
Defined.

(** [X27] When the attempt at every provider of the list throws (the
    request rejects, the body does not parse, the parser throws or a field
    cannot be written), the function returns and the failure path has run
    exactly once: the address shows the error marker, country and city are
    empty, the indicator is at error (not loading, not success), and the log
    holds one request and one warning per provider, then the one error
    line. *)
Theorem cascade_all_failed w configs s :
  (forall j c, nth_error configs j = Some c ->
     exists e, attempt_result w c (clock w (ticks s + j)) = inl e) ->
  let out := run w (fetchIpipDataWith configs) s in
  fst out = ok tt
  /\ inner (page (snd out) (ById (js "ipip-ip"))) = ErrorSpan error_marker
  /\ inner (page (snd out) (ById (js "ipip-country"))) = Text (VStr [])
  /\ inner (page (snd out) (ById (js "ipip-city"))) = Text (VStr [])
  /\ className (page (snd out) (ById (js "status-ipip")))
     = js "status-indicator status-error"
  /\ log (snd out)
     = log s ++ failure_log w configs (ticks s)
         ++ [ConsoleError all_failed_message None].
Proof.
  intros Hfail. cbn zeta. rewrite run_fetchIpipDataWith. cbn [fst snd].
  split; [reflexivity|].
  apply (cascade_state_all_failed w configs
           (on_page (setStatus (js "status-ipip") (js "loading")) s)).
  exact Hfail.
Qed.

Lemma cascade_all_failed_witness :
  inner (page (snd (run offline fetchIpipData loading_page)) (ById (js "ipip-ip")))
  = ErrorSpan error_marker.
Proof.
  apply (cascade_all_failed offline apiConfigs loading_page).
  intros j c Hn. exists NetworkError. reflexivity.
Defined.

(** [C6] The failure path does not run when every provider fails by its
    status, as the specification requires.  When each of the three providers
    answers 429 with an error object, every provider has failed in the
    specification's sense; the first provider's parser throws on the body,
    the second provider's parser takes it, and the function ends with the
    card at success under the second provider's name, the three fields
    showing the unknown marker, the third provider never asked and no error
    line logged.  So the failure path property with the specification's
    failure kinds does not hold of the code. *)
Theorem failure_path_is_skipped :
  (forall j c, nth_error apiConfigs j = Some c ->
     fails_as_specified all_answer_429 c
       (clock all_answer_429 (ticks loading_page + j)))
  /\ (let out := run all_answer_429 fetchIpipData loading_page in
      fst out = ok tt
      /\ inner (page (snd out) (ById (js "ipip-ip"))) = Text (VStr unknown_marker)
      /\ inner (page (snd out) (ById (js "ipip-country")))
         = Text (VStr unknown_marker)
      /\ inner (page (snd out) (ById (js "ipip-city")))
         = Text (VStr unknown_marker)
      /\ className (page (snd out) (ById (js "status-ipip")))
         = js "status-indicator status-success"
      /\ inner (page (snd out) (ParentOf (js "status-ipip")))
         = IndicatorAndLabel (js "国内测试（ipipv.com）")
      /\ fetched (log (snd out))
         = requests all_answer_429 (firstn 2 apiConfigs) 0
      /\ ~ In (ConsoleError all_failed_message None) (log (snd out)))
  /\ ~ failure_path_as_specified all_answer_429 loading_page.
Proof.
  assert (F : forall j c, nth_error apiConfigs j = Some c ->
            fails_as_specified all_answer_429 c
              (clock all_answer_429 (ticks loading_page + j))).
  { intros j c _. left. reflexivity. }
  split; [exact F|]. split.
  - cbv zeta. repeat (split; [reflexivity|]).
    intros H. vm_compute in H.
    repeat (destruct H as [H|H]; [discriminate H|]). exact H.
  - intros H. destruct (H F) as (E & _).
    assert (E' : inner (page (snd (run all_answer_429 fetchIpipData loading_page))
                          (ById (js "ipip-ip"))) = Text (VStr unknown_marker))
      by reflexivity.
    rewrite E in E'. discriminate E'.
Qed.

Ltac by_node n :=
  unfold final_page, show_result, show_failure, set_title, setStatus, set_error,
    update;
  repeat match goal with
         | |- context [node_eqb n ?k] => destruct (node_eqb n k) eqn:?
         end;
  try reflexivity.

Lemma final_page_ext o d d' n : d n = d' n -> final_page o d n = final_page o d' n.
Proof.
  intros H. destruct o as [[c res]|]; by_node n; rewrite H; reflexivity.
Qed.

Lemma final_page_partial o w c t d n :
  final_page o (partial_write w c t d) n = final_page o d n.
Proof.
  unfold partial_write.
  destruct (net w _) as [?|response]; [reflexivity|].
  destruct (json_body response) as [?|data]; [reflexivity|].
  destruct (parser c data) as [?|res']; [reflexivity|].
  destruct (to_string_throws (ip res')); [reflexivity|].
  destruct (to_string_throws (country res'));
    destruct o as [[c1 res]|]; by_node n.
Qed.

(** The page after the cascade depends on the page before it field by
    field, and on the world through the first success alone. *)
Lemma page_cascade_state w configs : forall s n,
  page (cascade_state w configs s) n
  = final_page (first_success w configs (ticks s)) (page s) n.
Proof.
  induction configs as [|c rest IH]; intros s n.
  - reflexivity.
  - cbn [cascade_state first_success].
    destruct (attempt_result w c (clock w (ticks s))) as [e|res].
    + rewrite IH. unfold after_failure. cbn [page ticks].
      apply final_page_partial.
    + reflexivity.
Qed.

Lemma attempt_result_time w c t t' :
  net w (request_url c t) = net w (request_url c t') ->
  attempt_result w c t = attempt_result w c t'.
Proof. unfold attempt_result. intros ->. reflexivity. Qed.

Lemma first_success_time w configs : forall k k',
  (forall c t t', In c configs ->
     net w (request_url c t) = net w (request_url c t')) ->
  first_success w configs k = first_success w configs k'.
Proof.
  induction configs as [|c rest IH]; intros k k' H; [reflexivity|].
  cbn [first_success].
  rewrite (attempt_result_time w c (clock w k) (clock w k'))
    by (apply H; left; reflexivity).
  destruct (attempt_result w c (clock w k')); [|reflexivity].
  apply IH. intros c' t t' Hin. apply H. right. exact Hin.
Qed.

Lemma final_page_idempotent o d n :
  final_page o (setStatus (js "status-ipip") (js "loading")
                  (final_page o (setStatus (js "status-ipip") (js "loading") d))) n
  = final_page o (setStatus (js "status-ipip") (js "loading") d) n.
Proof. destruct o as [[c res]|]; by_node n. Qed.

Lemma setStatus_ext id st d d' n :
  d n = d' n -> setStatus id st d n = setStatus id st d' n.
Proof. intros H. unfold setStatus, update. rewrite H. reflexivity. Qed.

(** [C9] Calling the function twice while every provider answers each of
    its requests alike (whatever the time stamp in the address): both calls
    return, and the page after the second call is, element by element, the
    page after the first; nothing the first call left behind changes what the
    second shows.  The same holds for every provider list. *)
Theorem fetchIpipData_twice w configs s :
  (forall c t t', In c configs ->
     net w (request_url c t) = net w (request_url c t')) ->
  let first := run w (fetchIpipDataWith configs) s in
  let second := run w (fetchIpipDataWith configs) (snd first) in
  fst first = ok tt /\ fst second = ok tt
  /\ forall n, page (snd second) n = page (snd first) n.
Proof.
  intros H. cbn zeta. rewrite !run_fetchIpipDataWith. cbn [fst snd].
  repeat split. intros n.
  rewrite !page_cascade_state. cbn [on_page page ticks].
  rewrite (first_success_time w configs _ (ticks s) H).
  erewrite final_page_ext.
  2:{ apply setStatus_ext. apply page_cascade_state. }
  cbn [on_page page ticks]. apply final_page_idempotent.
Qed.

Lemma fetchIpipData_twice_witness :
  page (snd (run first_unreachable fetchIpipData
               (snd (run first_unreachable fetchIpipData loading_page))))
    (ById (js "ipip-ip"))
  = page (snd (run first_unreachable fetchIpipData loading_page))
      (ById (js "ipip-ip")).
Proof.
  apply (fetchIpipData_twice first_unreachable apiConfigs loading_page).
  intros c t t' Hin. cbn [first_unreachable first_answers_500 net].
  repeat (destruct Hin as [<-|Hin]; [reflexivity|]). destruct Hin.
Defined.

(** ** The join of the four cards *)

Create HintDb async.
#[local] Hint Constructors settles awaits_le : async.

Lemma settles_bind {A B} (m : async A) (f : A -> async B) :
  settles m -> (forall a, settles (f a)) -> settles (bind m f).
Proof. intros Hm Hf. induction Hm; cbn [bind]; auto with async. Qed.

(** A [try] whose [catch] block cannot throw does not throw. *)
Lemma settles_try_catch {A} (m : async A) (h : exn -> async A) :
  (forall e, settles (h e)) -> settles (try_catch m h).
Proof.
  intros Hh.
  induction m as [a|e|g k IH|k IH|k IH|e k IH|u k IH|r k IH|r k IH];
    cbn [try_catch]; auto with async.
Qed.


Lemma awaits_le_mono {A} n n' (m : async A) :
  awaits_le n m -> n <= n' -> awaits_le n' m.
Proof.
  intros H. revert n'. induction H; intros n' Hn; auto with async;
    destruct n' as [|n']; try lia; constructor; intros; eauto with arith.
Qed.

Lemma awaits_le_bind {A B} n k (m : async A) (f : A -> async B) :
  awaits_le n m -> (forall a, awaits_le k (f a)) -> awaits_le (n + k) (bind m f).
Proof.
  intros Hm Hf. induction Hm; cbn [bind]; auto with async.
  - apply awaits_le_mono with k; auto. lia.
  - constructor; auto.
  - constructor; auto.
  - constructor; auto.
Qed.

Lemma awaits_le_try_catch {A} n (m : async A) (h : exn -> async A) :
  awaits_le n m -> (forall e, awaits_le 0 (h e)) -> awaits_le n (try_catch m h).
Proof.
  intros Hm Hh. induction Hm; cbn [try_catch]; auto with async.
  apply awaits_le_mono with 0; auto. lia.
Qed.

Lemma settles_cascade configs : settles (cascade configs).
Proof.
  induction configs as [|c rest IH]; [repeat constructor|].
  cbn [cascade]. apply settles_bind.
  - apply settles_try_catch. intros e. repeat constructor.
  - intros []; [constructor | exact IH].
Qed.

Lemma settles_fetchIpipData : settles fetchIpipData.
Proof. apply settles_bind; [repeat constructor | intros; apply settles_cascade]. Qed.

Lemma settles_card_failed card message e : settles (card_failed card message e).
Proof. repeat constructor. Qed.

Lemma awaits_card_failed card message e : awaits_le 0 (card_failed card message e).
Proof. repeat constructor. Qed.

Lemma awaits_set_textContent n id v : awaits_le n (set_textContent id v).
Proof. unfold set_textContent. destruct (to_string_throws v); repeat constructor. Qed.

Lemma awaits_lift {A} n (r : result A) : awaits_le n (lift r).
Proof. destruct r; constructor. Qed.

#[local] Hint Resolve awaits_set_textContent awaits_lift : async.

Ltac awaits_body :=
  repeat first
    [ solve [auto with async | repeat constructor]
    | apply (awaits_le_bind 0 0);
      [solve [auto with async | repeat constructor]|intros]
    | match goal with
      | |- awaits_le _ (bind (if ?b then _ else _) _) => destruct b; cbn [bind]
      | |- awaits_le _ (if ?b then _ else _) => destruct b
      end ].

Lemma awaits_attempt c : awaits_le 2 (attempt c ;;; Ret true).
Proof.
  unfold attempt. cbn [bind fetch settled lift await_json].
  constructor. intros t. constructor. constructor.
  intros [e|r]; cbn [bind lift]; [constructor|].
  constructor. intros [e|data]; cbn [bind lift]; [constructor|].
  change 0 with (0 + 0).
  repeat (apply awaits_le_bind; [auto with async|intros]); repeat constructor.
  all: repeat (apply (awaits_le_bind 0 0); [auto with async|intros]);
    repeat constructor.
Qed.

Lemma awaits_cascade configs :
  awaits_le (2 * List.length configs) (cascade configs).
Proof.
  induction configs as [|c rest IH]; [repeat constructor|].
  cbn [cascade List.length].
  replace (2 * S (List.length rest)) with (2 + 2 * List.length rest) by lia.
  apply awaits_le_bind.
  - apply awaits_le_try_catch; [apply awaits_attempt|]. intros e. repeat constructor.
  - intros []; [constructor | exact IH].
Qed.

Lemma awaits_fetchIpipData : awaits_le 6 fetchIpipData.
Proof.
  unfold fetchIpipData, fetchIpipDataWith.
  apply (awaits_le_bind 0 6); [repeat constructor|].
  intros _. apply (awaits_cascade apiConfigs).
Qed.

Lemma awaits_fetchCloudFlareData : awaits_le 2 fetchCloudFlareData.
Proof.
  unfold fetchCloudFlareData.
  apply (awaits_le_bind 0 2); [repeat constructor|]. intros _.
  apply awaits_le_try_catch; [|apply awaits_card_failed].
  cbn [bind fetch settled lift await_json].
  constructor. intros t. constructor. constructor.
  intros [e|r]; cbn [bind lift]; [constructor|].
  constructor. intros [e|data]; cbn [bind lift]; [constructor|].
  awaits_body.
Qed.

Lemma awaits_fetchTwitterData : awaits_le 2 fetchTwitterData.
Proof.
  unfold fetchTwitterData.
  apply (awaits_le_bind 0 2); [repeat constructor|]. intros _.
  apply awaits_le_try_catch; [|apply awaits_card_failed].
  cbn [bind fetch settled lift await_text].
  constructor. intros t. constructor. constructor.
  intros [e|r]; cbn [bind lift]; [constructor|].
  constructor. intros [e|text]; cbn [bind lift]; [constructor|].
  awaits_body.
Qed.

Lemma settles_single_card status body card message :
  settles (dom_ status ;;; try_catch body (card_failed card message)).
Proof.
  apply settles_bind; [repeat constructor|]. intros _.
  apply settles_try_catch. apply settles_card_failed.
Qed.

Lemma Forall_replace_nth {A} (P : A -> Prop) i x (l : list A) :
  Forall P l -> P x -> Forall P (replace_nth i x l).
Proof.
  intros H. revert i.
  induction H as [|y l Hy Hl IH]; intros i Hx; [destruct i; constructor|].
  destruct i; cbn [replace_nth]; constructor; auto.
Qed.

Lemma Forall_nth_error {A} (P : A -> Prop) i x (l : list A) :
  Forall P l -> nth_error l i = Some x -> P x.
Proof.
  intros H. revert i.
  induction H as [|y l Hy Hl IH]; intros [|i] E; try discriminate.
  - injection E as ->. exact Hy.
  - eapply IH. exact E.
Qed.

Lemma forallb_nth_error {A} (f : A -> bool) i x (l : list A) :
  forallb f l = true -> nth_error l i = Some x -> f x = true.
Proof.
  revert i. induction l as [|y l IH]; intros [|i] H E; try discriminate;
    cbn [forallb] in H; apply andb_prop in H; destruct H as [H1 H2].
  - injection E as ->. exact H1.
  - eapply IH; eauto.
Qed.

Lemma forallb_false_nth {A} (f : A -> bool) (l : list A) :
  forallb f l = false -> exists i x, nth_error l i = Some x /\ f x = false.
Proof.
  induction l as [|y l IH]; cbn [forallb]; [discriminate|].
  destruct (f y) eqn:E; cbn [andb]; intros H.
  - destruct (IH H) as (i & x & Hn & Hx). exists (S i), x. auto.
  - exists 0, y. auto.
Qed.


Lemma join_after_settles t j : settles t -> join_after t j = j.
Proof. intros H. destruct H, j; reflexivity. Qed.

Lemma fold_join_settles ts :
  Forall settles ts -> fold_left (fun j t => join_after t j) ts Waiting = Waiting.
Proof.
  induction 1 as [|t ts Ht Hts IH]; [reflexivity|].
  cbn [fold_left]. rewrite join_after_settles by assumption. exact IH.
Qed.

Section Loop.
Variable number_to_string : float -> jsstring.
Variable ipTextElements : list node.
Variable hasNetworkCards : bool.
Variable w : world.

Lemma awaits_fetchEdgeOneData : awaits_le 2 (fetchEdgeOneData number_to_string).
Proof.
  unfold fetchEdgeOneData.
  apply (awaits_le_bind 0 2); [repeat constructor|]. intros _.
  apply awaits_le_try_catch; [|apply awaits_card_failed].
  cbn [bind fetch settled lift await_json].
  constructor. constructor. intros [e|r]; cbn [bind lift]; [constructor|].
  constructor. intros [e|data]; cbn [bind lift]; [constructor|].
  awaits_body.
Qed.

Lemma settles_fetchers : Forall settles (fetchers number_to_string).
Proof.
  repeat apply Forall_cons; try apply Forall_nil.
  - apply settles_fetchIpipData.
  - apply settles_single_card.
  - apply settles_single_card.
  - apply settles_single_card.
Qed.

Lemma awaits_fetchers : Forall2 awaits_le [6; 2; 2; 2] (fetchers number_to_string).
Proof.
  repeat apply Forall2_cons; try apply Forall2_nil.
  - apply awaits_fetchIpipData.
  - apply awaits_fetchEdgeOneData.
  - apply awaits_fetchCloudFlareData.
  - apply awaits_fetchTwitterData.
Qed.

Lemma advance_settles {A} (m : async A) :
  settles m -> forall s, settles (fst (advance w m s)).
Proof. intros H. induction H; intros s; cbn [advance fst]; auto with async. Qed.

Lemma advance_awaits {A} n (m : async A) :
  awaits_le n m -> forall s, awaits_le n (fst (advance w m s)).
Proof. intros H. induction H; intros s; cbn [advance fst]; auto with async. Qed.

Lemma advance_at_rest {A} (m : async A) :
  forall s, at_rest (fst (advance w m s)) = true.
Proof.
  induction m as [a|e|g k IH|k IH|k IH|e k IH|u k IH|r k IH|r k IH]; intros s;
    cbn [advance fst]; auto.
Qed.

Lemma resume_settles {A} (m m1 : async A) :
  settles m -> resume w m = Some m1 -> settles m1.
Proof. intros H. destruct H; cbn [resume]; intros E; inversion E; subst; auto. Qed.


Lemma resume_not_fulfilled {A} (m m1 : async A) :
  resume w m = Some m1 -> fulfilled m = false.
Proof. destruct m; cbn; congruence. Qed.

Lemma settles_at_rest {A} (m : async A) :
  settles m -> at_rest m = true -> fulfilled m = false ->
  exists m1, resume w m = Some m1.
Proof. intros H. destruct H; cbn; intros; try discriminate; eauto. Qed.


Lemma step_inv m m' :
  step number_to_string ipTextElements w m m' -> inv m -> inv m'.
Proof.
  intros Hs [H1 H2 H3]. destruct Hs as [m i t t1 t' s' Hn Hr Ha|m Hj Hf].
  - assert (Ht : settles t) by (eapply Forall_nth_error; eauto).
    assert (Ht' : settles t').
    { replace t' with (fst (advance w t1 (st m))) by (rewrite Ha; reflexivity).
      apply advance_settles. eapply resume_settles; eauto. }
    constructor; cbn [tasks join marks].
    + apply Forall_replace_nth; assumption.
    + apply Forall_replace_nth; [assumption|].
      replace t' with (fst (advance w t1 (st m))) by (rewrite Ha; reflexivity).
      apply advance_at_rest.
    + rewrite join_after_settles by assumption.
      destruct H3 as [H3|(_ & _ & H3)]; [left; exact H3|].
      pose proof (forallb_nth_error _ _ _ _ H3 Hn) as F.
      rewrite (resume_not_fulfilled _ _ Hr) in F. discriminate.
  - constructor; cbn [tasks join marks]; try assumption.
    right. destruct H3 as [[_ H3]|(H3 & _)]; [|congruence].
    rewrite H3. auto.
Qed.


Lemma steps_inv n m0 m :
  steps number_to_string ipTextElements w n m0 m -> inv m0 -> inv m.
Proof. intros H. induction H; intros Hi; [assumption|]. eapply step_inv; eauto. Qed.


(** A function that has not settled can always be resumed, whatever the
    others did. *)
Lemma progress_task m i t :
  inv m -> nth_error (tasks m) i = Some t -> fulfilled t = false ->
  exists t1 t' s',
    resume w t = Some t1 /\ advance w t1 (st m) = (t', s')
    /\ step number_to_string ipTextElements w m
         {| tasks := replace_nth i t' (tasks m);
            join := join_after t' (join m);
            marks := marks m;
            st := s' |}.
Proof.
  intros [H1 H2 H3] Hn Hf.
  destruct (settles_at_rest t) as [t1 Hr]; auto.
  - eapply Forall_nth_error; eauto.
  - eapply (Forall_nth_error (fun t => at_rest t = true)); eauto.
  - destruct (advance w t1 (st m)) as [t' s'] eqn:Ha.
    exists t1, t', s'. repeat split; auto. eapply step_resume; eauto.
Qed.

Lemma final_joined m :
  inv m -> (forall m', ~ step number_to_string ipTextElements w m m') ->
  join m = Joined /\ marks m = 1.
Proof.
  intros Hi Hfin. destruct (inv_join _ Hi) as [[Hj Hm]|(Hj & Hm & _)]; [|auto].
  exfalso. destruct (forallb fulfilled (tasks m)) eqn:Hf.
  - eapply Hfin. apply step_join; assumption.
  - destruct (forallb_false_nth _ _ Hf) as (i & t & Hn & Ht).
    destruct (progress_task m i t Hi Hn Ht) as (t1 & t' & s' & _ & _ & Hs).
    eapply Hfin; eauto.
Qed.

Lemma start_spec fs : forall s ns,
  Forall settles fs -> Forall2 awaits_le ns fs ->
  Forall settles (fst (start w fs s))
  /\ Forall (fun t => at_rest t = true) (fst (start w fs s))
  /\ budget (fst (start w fs s)) (list_sum ns)
  /\ List.length (fst (start w fs s)) = List.length fs.
Proof.
  induction fs as [|f fs IH]; intros s ns Hs Hb.
  - inversion Hb; subst. cbn. repeat constructor.
  - inversion Hs; subst. inversion Hb as [|n ? ns' ? Hn Hns]; subst.
    cbn [start].
    pose proof (advance_settles f H1 s) as A1.
    pose proof (advance_at_rest f s) as A2.
    pose proof (advance_awaits n f Hn s) as A3.
    destruct (advance w f s) as [t s1]. cbn [fst] in *.
    specialize (IH s1 ns' H2 Hns). destruct (start w fs s1) as [ts s2].
    cbn [fst] in *. destruct IH as (I1 & I2 & I3 & I4).
    split; [|split; [|split]].
    + constructor; assumption.
    + constructor; assumption.
    + cbn [list_sum]. constructor; assumption.
    + cbn [List.length]. congruence.
Qed.

Lemma loadNetworkInfo_spec s m0 :
  loadNetworkInfo number_to_string hasNetworkCards w s = Some m0 ->
  inv m0 /\ potential m0 13 /\ List.length (tasks m0) = 4.
Proof.
  unfold loadNetworkInfo. destruct hasNetworkCards; [|discriminate].
  pose proof (start_spec (fetchers number_to_string) s [6; 2; 2; 2]
                settles_fetchers awaits_fetchers) as (H1 & H2 & H3 & H4).
  destruct (start w (fetchers number_to_string) s) as [ts s'].
  intros E. injection E as <-. cbn [fst] in *.
  split; [|split; [|exact H4]].
  - constructor; cbn [tasks join marks]; auto.
    left. split; [apply fold_join_settles; assumption | reflexivity].
  - exists 12. cbn [tasks join]. rewrite fold_join_settles by assumption.
    split; [exact H3 | cbn; lia].
Qed.

End Loop.

(** ** The detail lookup *)

Lemma replace_stars_length s : List.length (replace_stars s) = List.length s.
Proof. apply length_map. Qed.

Lemma replace_stars_nth s i :
  nth_error (replace_stars s) i
  = option_map (fun c => if (c =? 42)%N then 48%N else c) (nth_error s i).
Proof. apply nth_error_map. Qed.

Lemma replace_stars_no_star s : ~ In 42%N (replace_stars s).
Proof.
  unfold replace_stars. rewrite in_map_iff. intros (c & Hc & _).
  destruct (c =? 42)%N eqn:E; [discriminate|]. apply N.eqb_neq in E. congruence.
Qed.

Ltac request_logged :=
  cbn [snd record on_page log]; rewrite ?fetched_app;
  cbn [fetched flat_map app]; rewrite ?app_nil_r; reflexivity.

(** [C8] A click on an element that is not already loading and shows
    neither the loading text nor the unknown marker sends exactly one
    request, to the detail endpoint followed by the trimmed text of the
    element with its stars replaced: the replaced text has the length of the
    text, a ['0'] wherever the text has a ['*'] (first or not), the text's
    own code unit everywhere else, and so no ['*'] at all. *)
Theorem detail_request number_to_string showIpDetailModal w ipElement s :
  spinner (page s ipElement) = false ->
  jsstring_eqb (trim (textContent number_to_string (page s ipElement)))
    loading_marker = false ->
  jsstring_eqb (trim (textContent number_to_string (page s ipElement)))
    unknown_marker = false ->
  let ipText := trim (textContent number_to_string (page s ipElement)) in
  let cleanIp := replace_stars ipText in
  fetched (log (snd (run w (fetchAndShowIpDetails number_to_string
                               showIpDetailModal ipElement) s)))
  = fetched (log s) ++ [detail_endpoint ++ cleanIp]
  /\ List.length cleanIp = List.length ipText
  /\ (forall i,
        nth_error cleanIp i
        = option_map (fun c => if (c =? 42)%N then 48%N else c)
            (nth_error ipText i))
  /\ ~ In 42%N cleanIp.
Proof.
  intros H1 H2 H3 ipText cleanIp.
  split; [|split; [apply replace_stars_length
                  |split; [apply replace_stars_nth|apply replace_stars_no_star]]].
  unfold fetchAndShowIpDetails. cbn [run].
  fold ipText. rewrite H1. fold ipText in H2, H3. rewrite H2, H3. cbn [orb].
  fold cleanIp.
  cbn [bind try_catch run fetch settled lift await_json dom_ emit].
  destruct (net w _) as [e|r];
    cbn [bind try_catch run fetch settled lift await_json dom_ emit].
  { request_logged. }
  destruct (response_ok r);
    cbn [bind try_catch run fetch settled lift await_json dom_ emit].
  2:{ request_logged. }
  destruct (json_body r) as [e|data];
    cbn [bind try_catch run fetch settled lift await_json dom_ emit].
  { request_logged. }
  destruct (showIpDetailModal data) as [e|render];
    cbn [bind try_catch run fetch settled lift await_json dom_ emit].
  { request_logged. }
  request_logged.
Qed.

Lemma detail_request_witness :
  fetched (log (snd (run offline
                       (fetchAndShowIpDetails (fun _ => []) (fun _ => ok (fun d => d))
                          (ById (js "ipip-ip")))
                       masked_page)))
  = [js "https://api.ipapi.cmliussss.net/?ip=1.2.0.4"].
Proof.
  exact (proj1 (detail_request (fun _ => []) (fun _ => ok (fun d => d)) offline
                  (ById (js "ipip-ip")) masked_page
                  eq_refl eq_refl eq_refl)).
Defined.

(** * Further properties *)

(** ** Class tokens *)

Lemma existsb_jsstring_eqb t l : existsb (jsstring_eqb t) l = true <-> In t l.
Proof.
  rewrite existsb_exists. split.
  - intros (x & Hx & E). apply jsstring_eqb_eq in E. subst. exact Hx.
  - intros H. exists t. split; [exact H | apply jsstring_eqb_refl].
Qed.

Lemma existsb_jsstring_eqb_false t l : existsb (jsstring_eqb t) l = false <-> ~ In t l.
Proof.
  rewrite <- existsb_jsstring_eqb. destruct (existsb _ l); split; congruence.
Qed.

Lemma node_eqb_eq a b : node_eqb a b = true <-> a = b.
Proof.
  destruct a, b; cbn [node_eqb]; rewrite ?jsstring_eqb_eq; split; congruence.
Qed.

Lemma node_eqb_refl a : node_eqb a a = true.
Proof. apply node_eqb_eq. reflexivity. Qed.

Lemma tokens_from_token t s cur :
  forallb (fun c => negb (is_ascii_space c)) t = true ->
  tokens_from (t ++ s) cur = tokens_from s (rev t ++ cur).
Proof.
  revert cur. induction t as [|c t IH]; intros cur H; [reflexivity|].
  cbn [forallb] in H. apply andb_prop in H. destruct H as [Hc Ht].
  cbn [app tokens_from rev]. apply negb_true_iff in Hc. rewrite Hc.
  rewrite IH by assumption. rewrite <- app_assoc. reflexivity.
Qed.

Lemma nonempty_true s : s <> [] -> nonempty s = true.
Proof. destruct s; [congruence | reflexivity]. Qed.

(** Splitting the serialisation of a list of tokens gives the list back. *)
Lemma tokens_from_join l :
  Forall token l -> tokens_from (join_tokens l) [] = l.
Proof.
  induction 1 as [|t l [Hne Hsp] Hl IH]; [reflexivity|].
  destruct l as [|t' l'].
  - cbn [join_tokens]. rewrite <- (app_nil_r t) at 1.
    rewrite tokens_from_token by assumption. cbn [tokens_from].
    rewrite app_nil_r, nonempty_true, rev_involutive; [reflexivity|].
    intros E. apply (f_equal (@rev _)) in E. rewrite rev_involutive in E.
    exact (Hne E).
  - change (join_tokens (t :: t' :: l')) with (t ++ 32%N :: join_tokens (t' :: l')).
    rewrite tokens_from_token by assumption. cbn [tokens_from is_ascii_space].
    change ((32 =? 9) || (32 =? 10) || (32 =? 12) || (32 =? 13) || (32 =? 32))%N
      with true.
    cbv iota. rewrite app_nil_r, nonempty_true, rev_involutive, IH; [reflexivity|].
    intros E. apply (f_equal (@rev _)) in E. rewrite rev_involutive in E.
    exact (Hne E).
Qed.

Lemma tokens_from_tokens s : forall cur,
  forallb (fun c => negb (is_ascii_space c)) cur = true ->
  Forall token (tokens_from s cur).
Proof.
  assert (R : forall cur, cur <> [] ->
                forallb (fun c => negb (is_ascii_space c)) cur = true ->
                token (rev cur)).
  { intros cur Hne H. split.
    - intros E. apply Hne. apply (f_equal (@rev _)) in E.
      rewrite rev_involutive in E. exact E.
    - rewrite forallb_forall in *. intros x Hx. apply H. apply in_rev. exact Hx. }
  induction s as [|c s IH]; intros cur H; cbn [tokens_from].
  - destruct cur as [|x cur]; cbn [nonempty]; constructor; [|constructor].
    apply R; [discriminate | assumption].
  - destruct (is_ascii_space c) eqn:Ec.
    + destruct cur as [|x cur]; cbn [nonempty]; [apply IH; reflexivity|].
      constructor; [apply R; [discriminate | assumption] | apply IH; reflexivity].
    + apply IH. cbn [forallb]. rewrite Ec. exact H.
Qed.

Lemma ordered_set_spec l : forall seen,
  NoDup (ordered_set seen l)
  /\ forall x, In x (ordered_set seen l) <-> In x l /\ ~ In x seen.
Proof.
  induction l as [|t l IH]; intros seen; cbn [ordered_set].
  - split; [constructor | intros x; cbn; tauto].
  - destruct (existsb (jsstring_eqb t) seen) eqn:E.
    + apply existsb_jsstring_eqb in E. destruct (IH seen) as [N I].
      split; [exact N|]. intros x. rewrite I. cbn [In]. split; [tauto|].
      intros [[->|H] Hn]; tauto.
    + apply existsb_jsstring_eqb_false in E. destruct (IH (t :: seen)) as [N I].
      split.
      * constructor; [|exact N]. rewrite I. cbn [In]. tauto.
      * intros x. cbn [In]. rewrite I. cbn [In]. split.
        -- intros [<-|[H Hn]]; tauto.
        -- intros [[<-|H] Hn]; [tauto|].
           destruct (list_eq_dec N.eq_dec t x) as [->|D]; [tauto|]. right. tauto.
Qed.

Lemma ordered_set_id l : forall seen,
  NoDup l -> (forall x, In x l -> ~ In x seen) -> ordered_set seen l = l.
Proof.
  induction l as [|t l IH]; intros seen N H; [reflexivity|].
  cbn [ordered_set]. inversion N as [|? ? Ht Hl]; subst.
  assert (E : existsb (jsstring_eqb t) seen = false).
  { apply existsb_jsstring_eqb_false. apply H. left. reflexivity. }
  rewrite E. f_equal. apply IH; [assumption|].
  intros x Hx [<-|Hs]; [tauto|]. exact (H x (or_intror Hx) Hs).
Qed.

Lemma ordered_set_tokens l : forall seen,
  Forall token l -> Forall token (ordered_set seen l).
Proof.
  induction l as [|t l IH]; intros seen H; cbn [ordered_set]; [constructor|].
  inversion H; subst. destruct (existsb _ seen); [auto|constructor; auto].
Qed.

Lemma classList_tokens e : Forall token (classList e) /\ NoDup (classList e).
Proof.
  split.
  - apply ordered_set_tokens, tokens_from_tokens. reflexivity.
  - apply ordered_set_spec.
Qed.

(** The class list of an element whose class name is the serialisation of a
    list of distinct tokens is that list. *)
Lemma classList_join l e :
  Forall token l -> NoDup l -> classList (with_className (join_tokens l) e) = l.
Proof.
  intros T N. unfold classList. cbn [with_className className].
  rewrite tokens_from_join by assumption.
  apply ordered_set_id; [assumption | intros x _ []].
Qed.

Lemma classList_after_add t e :
  token t ->
  classList (classList_add t e)
  = if classList_contains t e then classList e else classList e ++ [t].
Proof.
  intros Ht. unfold classList_add. destruct (classList_tokens e) as [T N].
  destruct (classList_contains t e) eqn:E.
  - apply classList_join; assumption.
  - apply classList_join.
    + apply Forall_app. split; [assumption | constructor; [assumption|constructor]].
    + apply existsb_jsstring_eqb_false in E.
      apply NoDup_app; [assumption | constructor; [intros []|constructor] |].
      intros x Hx [<-|[]]. exact (E Hx).
Qed.

Lemma classList_contains_add t e :
  token t -> classList_contains t (classList_add t e) = true.
Proof.
  intros Ht. unfold classList_contains at 1. rewrite classList_after_add by assumption.
  destruct (classList_contains t e) eqn:E; [exact E|].
  apply existsb_jsstring_eqb. apply in_or_app. right. left. reflexivity.
Qed.

Lemma classList_contains_add_other t u e :
  token t -> classList_contains u (classList_add t e)
             = classList_contains u e || jsstring_eqb u t.
Proof.
  intros Ht. unfold classList_contains at 1. rewrite classList_after_add by assumption.
  destruct (classList_contains t e) eqn:E.
  - fold (classList_contains u e).
    destruct (jsstring_eqb u t) eqn:Eu; [|rewrite orb_false_r; reflexivity].
    apply jsstring_eqb_eq in Eu. subst. rewrite E. reflexivity.
  - rewrite existsb_app. cbn [existsb]. rewrite orb_false_r. reflexivity.
Qed.

Lemma clickable_token : token (js "clickable").
Proof. split; [discriminate | reflexivity]. Qed.

(** ** Clickable addresses: [markIpAsClickable] *)

Section Clickable.
Variable number_to_string : float -> jsstring.
Variable ipTextElements : list node.

Lemma shows_address_add t e :
  shows_address number_to_string (classList_add t e)
  = shows_address number_to_string e.
Proof. reflexivity. Qed.

(** The loop over the elements, element by element. *)
Lemma markIpAsClickable_at l : forall d n,
  fold_left
    (fun d element =>
       let e := d element in
       let ipText := trim (textContent number_to_string e) in
       if has_error_child e
          || jsstring_eqb ipText loading_marker
          || jsstring_eqb ipText unknown_marker
          || classList_contains (js "clickable") e
       then d
       else update element (classList_add (js "clickable")) d) l d n
  = if existsb (node_eqb n) l && shows_address number_to_string (d n)
       && negb (clickable (d n))
    then classList_add (js "clickable") (d n)
    else d n.
Proof.
  induction l as [|el l IH]; intros d n; [reflexivity|].
  cbn [fold_left existsb]. rewrite IH. clear IH.
  cbv zeta. unfold shows_address, clickable.
  destruct (node_eqb n el) eqn:En.
  - apply node_eqb_eq in En. subst el. cbn [orb andb].
    destruct (has_error_child (d n) || _ || _ || _) eqn:C.
    + rewrite <- orb_assoc in C.
      destruct (existsb (node_eqb n) l); cbn [andb]; [|
        destruct (negb _ && negb _) eqn:C'; [|reflexivity]];
      rewrite orb_assoc in C.
      * destruct (negb _ && negb _) eqn:C'; reflexivity.
      * apply andb_prop in C'. destruct C' as [C1 C2].
        apply negb_true_iff in C1, C2. rewrite C1, C2 in C. discriminate.
    + apply orb_false_elim in C. destruct C as [C1 C2]. rewrite C1, C2.
      cbn [negb andb]. unfold update. rewrite node_eqb_refl.
      change (has_error_child (classList_add (js "clickable") (d n)))
        with (has_error_child (d n)).
      change (textContent number_to_string (classList_add (js "clickable") (d n)))
        with (textContent number_to_string (d n)).
      rewrite C1, classList_contains_add by apply clickable_token.
      cbn [negb andb]. rewrite andb_false_r. reflexivity.
  - cbn [orb].
    destruct (has_error_child (d el) || _ || _ || _); [reflexivity|].
    unfold update. rewrite En. reflexivity.
Qed.

Lemma markIpAsClickable_pointwise d n :
  markIpAsClickable number_to_string ipTextElements d n
  = if existsb (node_eqb n) ipTextElements
       && shows_address number_to_string (d n) && negb (clickable (d n))
    then classList_add (js "clickable") (d n)
    else d n.
Proof. apply markIpAsClickable_at. Qed.

Lemma existsb_node_eqb n l : existsb (node_eqb n) l = true <-> In n l.
Proof.
  rewrite existsb_exists. split.
  - intros (x & Hx & E). apply node_eqb_eq in E. subst. exact Hx.
  - intros H. exists n. split; [exact H | apply node_eqb_refl].
Qed.

(** [X1] After [markIpAsClickable], an element of class [ip-text] is
    clickable exactly when it was clickable before or shows an address: an
    element that holds the error span, the loading text or the unknown marker
    is never made clickable. *)
Theorem markIpAsClickable_marks d n :
  In n ipTextElements ->
  clickable (markIpAsClickable number_to_string ipTextElements d n)
  = clickable (d n) || shows_address number_to_string (d n).
Proof.
  intros Hin. rewrite markIpAsClickable_pointwise.
  apply existsb_node_eqb in Hin. rewrite Hin. cbn [andb].
  destruct (shows_address number_to_string (d n)), (clickable (d n)) eqn:E;
    cbn [andb negb orb]; try assumption.
  apply classList_contains_add, clickable_token.
Qed.

(** [X2] [markIpAsClickable] writes nothing but the class: the content of
    every element and the loading spinner stay, every other class of an
    element stays, and an element that is not of class [ip-text] is
    untouched. *)
Theorem markIpAsClickable_frame d n :
  inner (markIpAsClickable number_to_string ipTextElements d n) = inner (d n)
  /\ spinner (markIpAsClickable number_to_string ipTextElements d n)
     = spinner (d n)
  /\ (forall t, t <> js "clickable" ->
        classList_contains t (markIpAsClickable number_to_string ipTextElements d n)
        = classList_contains t (d n))
  /\ (~ In n ipTextElements ->
      markIpAsClickable number_to_string ipTextElements d n = d n).
Proof.
  rewrite markIpAsClickable_pointwise.
  split; [|split; [|split]].
  - destruct (_ && _ && _); reflexivity.
  - destruct (_ && _ && _); reflexivity.
  - intros t Ht. destruct (_ && _ && _); [|reflexivity].
    rewrite classList_contains_add_other by apply clickable_token.
    destruct (jsstring_eqb t (js "clickable")) eqn:E; [|apply orb_false_r].
    apply jsstring_eqb_eq in E. contradiction.
  - intros Hn. rewrite <- existsb_node_eqb in Hn.
    destruct (existsb (node_eqb n) ipTextElements); [contradiction Hn; reflexivity|].
    reflexivity.
Qed.

(** [X3] Running [markIpAsClickable] again changes nothing. *)
Theorem markIpAsClickable_idempotent d n :
  markIpAsClickable number_to_string ipTextElements
    (markIpAsClickable number_to_string ipTextElements d) n
  = markIpAsClickable number_to_string ipTextElements d n.
Proof.
  rewrite (markIpAsClickable_pointwise (markIpAsClickable _ _ d)).
  rewrite markIpAsClickable_pointwise.
  destruct (existsb (node_eqb n) ipTextElements
            && shows_address number_to_string (d n) && negb (clickable (d n)))
    eqn:E; [|rewrite E; reflexivity].
  unfold clickable at 1. rewrite classList_contains_add by apply clickable_token.
  rewrite andb_false_r. reflexivity.
Qed.
End Clickable.

Lemma markIpAsClickable_marks_witness :
  clickable (markIpAsClickable (fun _ => []) [ById (js "cf-ip")]
               (page masked_page) (ById (js "cf-ip")))
  = true.
Proof.
  exact (markIpAsClickable_marks (fun _ => []) [ById (js "cf-ip")]
           (page masked_page) (ById (js "cf-ip")) (or_introl eq_refl)).
Defined.

(** ** The detail lookup: [fetchAndShowIpDetails] *)

(** A lookup that failed: the page is restored and the failure is logged. *)
Ltac lookup_failed :=
  cbn [fst snd ticks page log record on_page];
  split; [reflexivity|split; [reflexivity|split; [
    intros n; match goal with R : forall n b, _ |- _ => apply R end
  | rewrite <- !app_assoc; reflexivity]]].

Section Details.
Variable number_to_string : float -> jsstring.
Variable showIpDetailModal : value -> result (dom -> dom).
Variable w : world.

(** [X4] A click on an element that already holds the loading spinner, or
    that shows the loading text or the unknown marker, does nothing: no
    request, no toast, the page as it was. *)
Theorem fetchAndShowIpDetails_guard ipElement s :
  not_lookable number_to_string (page s ipElement) = true ->
  run w (fetchAndShowIpDetails number_to_string showIpDetailModal ipElement) s
  = (ok tt, s).
Proof.
  unfold not_lookable, fetchAndShowIpDetails. cbn [run]. intros H.
  destruct (spinner (page s ipElement)); [reflexivity|].
  cbn [orb] in H. rewrite H. reflexivity.
Qed.

(** [X5] A lookup that is made ends in exactly one of two ways, and never
    rejects.  When the request resolves with a status in 200..299, the body
    parses and the modal renders, the spinner is removed and the modal is
    shown, with no toast.  In every other case (the request rejects, the
    status is outside 200..299, the body does not parse, rendering throws)
    the page is as before the click and one toast and one error line are
    logged. *)
Theorem fetchAndShowIpDetails_outcome ipElement s :
  not_lookable number_to_string (page s ipElement) = false ->
  let cleanIp :=
    replace_stars (trim (textContent number_to_string (page s ipElement))) in
  let out :=
    run w (fetchAndShowIpDetails number_to_string showIpDetailModal ipElement) s in
  fst out = ok tt
  /\ ticks (snd out) = ticks s
  /\ match lookup_outcome w showIpDetailModal cleanIp with
     | inr render =>
       (exists d, page (snd out) = render d /\ forall n, d n = page s n)
       /\ log (snd out) = log s ++ [Fetch (detail_endpoint ++ cleanIp)]
     | inl error =>
       (forall n, page (snd out) n = page s n)
       /\ log (snd out)
          = log s ++ [Fetch (detail_endpoint ++ cleanIp);
                      Toast (js "❌ 查询IP详细信息失败");
                      ConsoleError (js "IP查询错误:") (Some error)]
     end.
Proof.
  unfold not_lookable. intros H.
  apply orb_false_elim in H. destruct H as [H H3].
  apply orb_false_elim in H. destruct H as [H1 H2].
  cbv zeta. unfold fetchAndShowIpDetails, lookup_outcome. cbn [run].
  rewrite H1, H2, H3. cbn [orb].
  assert (R : forall n b,
            update ipElement
              (fun e => {| className := className e; inner := inner e;
                           spinner := false |})
              (update ipElement
                 (fun e => {| className := className e; inner := inner e;
                              spinner := b |}) (page s)) n = page s n).
  { intros n b. unfold update. destruct (node_eqb n ipElement) eqn:E; [|reflexivity].
    apply node_eqb_eq in E. subst n. rewrite <- H1. destruct (page s ipElement).
    reflexivity. }
  run_step.
  destruct (net w _) as [e|r]; run_step.
  { lookup_failed. }
  destruct (response_ok r); run_step.
  2:{ lookup_failed. }
  destruct (json_body r) as [e|data]; run_step.
  { lookup_failed. }
  destruct (showIpDetailModal data) as [e|render]; run_step.
  { cbn [fst snd ticks page log record on_page].
    split; [reflexivity|split; [reflexivity|split]].
    - intros n. unfold update at 1. destruct (node_eqb n ipElement) eqn:E.
      + cbn [className inner]. rewrite (R n true). apply node_eqb_eq in E. subst n.
        rewrite <- H1. destruct (page s ipElement). reflexivity.
      + apply R.
    - rewrite <- !app_assoc. reflexivity. }
  cbn [fst snd ticks page log record on_page].
  split; [reflexivity|split; [reflexivity|split; [|reflexivity]]].
  eexists. split; [reflexivity|]. intros n. apply R.
Qed.
End Details.

Lemma fetchAndShowIpDetails_guard_witness :
  run offline
    (fetchAndShowIpDetails (fun _ => []) (fun _ => ok (fun d => d))
       (ById (js "cf-ip"))) loading_page
  = (ok tt, loading_page).
Proof.
  exact (fetchAndShowIpDetails_guard (fun _ => []) (fun _ => ok (fun d => d))
           offline (ById (js "cf-ip")) loading_page eq_refl).
Defined.

Lemma fetchAndShowIpDetails_outcome_witness :
  log (snd (run offline
              (fetchAndShowIpDetails (fun _ => []) (fun _ => ok (fun d => d))
                 (ById (js "cf-ip"))) masked_page))
  = [Fetch (js "https://api.ipapi.cmliussss.net/?ip=1.2.0.4");
     Toast (js "❌ 查询IP详细信息失败");
     ConsoleError (js "IP查询错误:") (Some NetworkError)].
Proof.
  exact (proj2 (proj2 (proj2
    (fetchAndShowIpDetails_outcome (fun _ => []) (fun _ => ok (fun d => d))
       offline (ById (js "cf-ip")) masked_page eq_refl)))).
Defined.

Section Pending.
Variable number_to_string : float -> jsstring.
Variable showIpDetailModal : value -> result (dom -> dom).
Variable w : world.

(** [X6] While a lookup of an element is pending (the function is suspended
    at its request), another click on the element does nothing: the first
    call has put the spinner into the element before its request, so the
    second returns at once, with no second request. *)
Theorem fetchAndShowIpDetails_pending ipElement s :
  not_lookable number_to_string (page s ipElement) = false ->
  let first :=
    advance w
      (fetchAndShowIpDetails number_to_string showIpDetailModal ipElement) s in
  at_rest (fst first) = true
  /\ fulfilled (fst first) = false
  /\ fetched (log (snd first))
     = fetched (log s)
       ++ [detail_endpoint
           ++ replace_stars
                (trim (textContent number_to_string (page s ipElement)))]
  /\ run w (fetchAndShowIpDetails number_to_string showIpDetailModal ipElement)
       (snd first)
     = (ok tt, snd first).
Proof.
  unfold not_lookable. intros H.
  apply orb_false_elim in H. destruct H as [H H3].
  apply orb_false_elim in H. destruct H as [H1 H2].
  cbv zeta. unfold fetchAndShowIpDetails. cbn [advance].
  rewrite H1, H2, H3. cbn [orb].
  cbn [bind try_catch fetch dom_ emit advance fst snd at_rest fulfilled].
  split; [reflexivity|]. split; [reflexivity|]. split.
  - cbn [log record on_page]. rewrite fetched_app. reflexivity.
  - cbn [run page record on_page].
    unfold update. rewrite node_eqb_refl. reflexivity.
Qed.
End Pending.

Lemma fetchAndShowIpDetails_pending_witness :
  fetched (log (snd (advance offline
                       (fetchAndShowIpDetails (fun _ => [])
                          (fun _ => ok (fun d => d)) (ById (js "cf-ip")))
                       masked_page)))
  = [js "https://api.ipapi.cmliussss.net/?ip=1.2.0.4"].
Proof.
  exact (proj1 (proj2 (proj2
    (fetchAndShowIpDetails_pending (fun _ => []) (fun _ => ok (fun d => d))
       offline (ById (js "cf-ip")) masked_page eq_refl)))).
Defined.

(** ** The visit counter: [fetchVisitCount] *)

(** [X7] [fetchVisitCount] never rejects, reads the clock never, sends its
    one request, and writes to no element but the counter; on a page without
    the counter it leaves the page as it is. *)
Theorem fetchVisitCount_frame w hasVisitCount s :
  let out := run w (fetchVisitCount hasVisitCount) s in
  fst out = ok tt
  /\ ticks (snd out) = ticks s
  /\ fetched (log (snd out)) = fetched (log s) ++ [visit_count_url]
  /\ (forall n, n <> ById (js "visit-count") -> page (snd out) n = page s n)
  /\ (hasVisitCount = false -> page (snd out) = page s).
Proof.
  cbv zeta. unfold fetchVisitCount. run_step.
  assert (F : forall d (f : element -> element) n,
            n <> ById (js "visit-count") ->
            update (ById (js "visit-count")) f d n = d n).
  { intros d f n Hn. unfold update. destruct (node_eqb n _) eqn:E; [|reflexivity].
    apply node_eqb_eq in E. contradiction. }
  assert (L : forall l e, fetched (l ++ [ConsoleError (js "获取访问统计失败:") e])
                          = fetched l).
  { intros l e. rewrite fetched_app. cbn. apply app_nil_r. }
  assert (L' : forall l, fetched (l ++ [Fetch visit_count_url])
                         = fetched l ++ [visit_count_url]).
  { intros l. rewrite fetched_app. reflexivity. }
  destruct (net w _) as [e|r]; run_step.
  { destruct hasVisitCount; cbn; rewrite L, L'; repeat split; auto; discriminate. }
  destruct (json_body r) as [e|data]; run_step.
  { destruct hasVisitCount; cbn; rewrite L, L'; repeat split; auto; discriminate. }
  destruct hasVisitCount; run_step.
  2:{ cbn. rewrite L'. repeat split; auto. }
  destruct (get data (js "visitCount")) as [e|v]; run_step.
  { cbn. rewrite L, L'. repeat split; auto; discriminate. }
  destruct (is_undefined v); run_step.
  { cbn. rewrite L'. repeat split; auto; discriminate. }
  unfold set_textContent. destruct (to_string_throws v); run_step.
  - cbn. rewrite L, L'. repeat split; auto; discriminate.
  - cbn. rewrite L'. repeat split; auto; discriminate.
Qed.

(** [X8] On a page with the counter: a count in the answer is shown as it is
    (also [0], and [null] as the empty text), whatever the status of the
    response; an answer without a count leaves the counter as it was and logs
    nothing; and when the request rejects, the body does not parse, the
    answer is [null] or the count cannot be converted to text, the counter
    shows the failure text and the error is logged once. *)
Theorem fetchVisitCount_shows w s :
  let out := run w (fetchVisitCount true) s in
  match visit_count w with
  | inr (Some visitCount) =>
    inner (page (snd out) (ById (js "visit-count"))) = Text visitCount
    /\ log (snd out) = log s ++ [Fetch visit_count_url]
  | inr None =>
    page (snd out) = page s
    /\ log (snd out) = log s ++ [Fetch visit_count_url]
  | inl error =>
    inner (page (snd out) (ById (js "visit-count"))) = Text (VStr error_marker)
    /\ log (snd out)
       = log s ++ [Fetch visit_count_url;
                   ConsoleError (js "获取访问统计失败:") (Some error)]
  end.
Proof.
  cbv zeta. unfold fetchVisitCount, visit_count. run_step.
  destruct (net w _) as [e|r]; cbn [rbind]; run_step.
  { cbn. rewrite <- app_assoc. split; reflexivity. }
  destruct (json_body r) as [e|data]; cbn [rbind]; run_step.
  { cbn. rewrite <- app_assoc. split; reflexivity. }
  destruct (get data (js "visitCount")) as [e|v]; cbn [rbind]; run_step.
  { cbn. rewrite <- app_assoc. split; reflexivity. }
  destruct (is_undefined v); run_step.
  { split; reflexivity. }
  unfold set_textContent. destruct (to_string_throws v); run_step.
  - cbn. rewrite <- app_assoc. split; reflexivity.
  - split; reflexivity.
Qed.

(** ** The single-provider cards *)

Lemma truthy_or_else a : truthy (or_else a (VStr unknown_marker)) = true.
Proof. unfold or_else. destruct (truthy a) eqn:E; [exact E | reflexivity]. Qed.

Ltac card_step :=
  cbn [bind try_catch run fetch settled lift await_json await_text dom_ emit].

Ltac card_errors :=
  split; [reflexivity|]; right; cbn; repeat split; reflexivity.

(** The next statement of the [try] block that can throw. *)
Ltac card_case :=
  match goal with
  | |- context [try_catch (bind (lift (get ?v ?k)) _) _] =>
    let e := fresh "e" in let x := fresh "x" in
    destruct (get v k) as [e|x] eqn:?; card_step
  | |- context [try_catch (bind (if to_string_throws ?v then _ else _) _) _] =>
    destruct (to_string_throws v) eqn:?; card_step
  end.

Ltac card_succeeds :=
  split; [reflexivity|]; left; split; [reflexivity|];
  eexists; split; [reflexivity|]; apply truthy_or_else.

Section Cards.
Variable number_to_string : float -> jsstring.
Variable w : world.

Lemma fetchCloudFlareData_one_way : one_way w fetchCloudFlareData (js "cf").
Proof.
  intros s. unfold fetchCloudFlareData, set_textContent. card_step.
  destruct (net w _) as [e|r]; card_step; [card_errors|].
  destruct (json_body r) as [e|data]; card_step; [card_errors|].
  repeat (card_case; [card_errors|]).
  card_succeeds.
Qed.

Lemma fetchTwitterData_one_way : one_way w fetchTwitterData (js "twitter").
Proof.
  intros s. unfold fetchTwitterData, set_textContent. card_step.
  destruct (net w _) as [e|r]; card_step; [card_errors|].
  destruct (text_body r) as [e|text]; card_step; [card_errors|].
  cbv zeta.
  repeat (card_case; [card_errors|]).
  card_succeeds.
Qed.

Lemma fetchEdgeOneData_one_way :
  one_way w (fetchEdgeOneData number_to_string) (js "edgeone").
Proof.
  intros s. unfold fetchEdgeOneData, set_textContent. card_step.
  destruct (net w _) as [e|r]; card_step; [card_errors|].
  destruct (json_body r) as [e|data]; card_step; [card_errors|].
  repeat (card_case; [card_errors|]).
  card_succeeds.
Qed.

(** [X9] Each of the three single-provider cards ends in one of two states,
    whatever the provider sent and whatever the page showed before: a result
    (indicator at success, the address field written with a value that
    JavaScript takes as true: the provider's value or the unknown marker), or
    the failure (indicator at error, the error span for the address, country
    and city empty).  It is never left at loading and never shows part of a
    result next to the failure.  The value of a result need not print as
    visible text: an address that is an empty array is taken as true and
    prints as nothing. *)
Theorem cards_end_one_way :
  one_way w (fetchEdgeOneData number_to_string) (js "edgeone")
  /\ one_way w fetchCloudFlareData (js "cf")
  /\ one_way w fetchTwitterData (js "twitter").
Proof.
  split; [|split].
  - apply fetchEdgeOneData_one_way.
  - apply fetchCloudFlareData_one_way.
  - apply fetchTwitterData_one_way.
Qed.
End Cards.

(** ** The trace text of [fetchTwitterData] *)

Lemma jsstring_eqb_sym a b : jsstring_eqb a b = jsstring_eqb b a.
Proof.
  destruct (jsstring_eqb a b) eqn:E.
  - apply jsstring_eqb_eq in E. subst. symmetry. apply jsstring_eqb_refl.
  - destruct (jsstring_eqb b a) eqn:E'; [|reflexivity].
    apply jsstring_eqb_eq in E'. subst. rewrite jsstring_eqb_refl in E. discriminate.
Qed.

Lemma jsstring_eqb_trans_false a b c :
  jsstring_eqb a b = true -> jsstring_eqb b c = jsstring_eqb a c.
Proof. intros E. apply jsstring_eqb_eq in E. subst. reflexivity. Qed.

(** Reading a key after an assignment: the value assigned if the key is the
    one assigned, what was there before if not. *)
Lemma lookup_assign k k' v ms :
  lookup (js "__proto__") ms = None ->
  lookup k (assign k' v ms)
  = if jsstring_eqb k' k && negb (jsstring_eqb k' (js "__proto__"))
    then Some v else lookup k ms.
Proof.
  induction ms as [|[k0 v0] ms IH]; intros P.
  - cbn [assign lookup]. destruct (jsstring_eqb k' (js "__proto__")) eqn:E.
    + rewrite andb_false_r. reflexivity.
    + rewrite andb_true_r. cbn [lookup]. reflexivity.
  - cbn [assign lookup] in *.
    destruct (jsstring_eqb k0 (js "__proto__")) eqn:E0; [discriminate|].
    destruct (jsstring_eqb k0 k') eqn:E.
    + apply jsstring_eqb_eq in E. subst k0. rewrite E0. cbn [lookup negb].
      rewrite andb_true_r. destruct (jsstring_eqb k' k); reflexivity.
    + cbn [lookup]. rewrite (IH P).
      destruct (jsstring_eqb k0 k) eqn:E1; [|reflexivity].
      apply jsstring_eqb_eq in E1. subst k0. rewrite jsstring_eqb_sym, E.
      reflexivity.
Qed.

Lemma lookup_proto_assign k' v ms :
  lookup (js "__proto__") ms = None ->
  lookup (js "__proto__") (assign k' v ms) = None.
Proof.
  intros P. rewrite lookup_assign by assumption. rewrite P.
  destruct (_ && _) eqn:E; [|reflexivity].
  destruct (jsstring_eqb k' (js "__proto__")); discriminate.
Qed.

Lemma trace_fold k lines : forall ms,
  lookup (js "__proto__") ms = None ->
  k <> js "__proto__" ->
  let entries :=
    flat_map
      (fun line =>
         match split_at 61%N line with
         | key :: value :: _ =>
           if nonempty key && nonempty value then [(trim key, trim value)] else []
         | _ => []
         end) lines in
  lookup k
    (fold_left
       (fun data line =>
          match split_at 61%N line with
          | key :: value :: _ =>
            if nonempty key && nonempty value
            then assign (trim key) (VStr (trim value)) data
            else data
          | _ => data
          end) lines ms)
  = match last_value k entries with
    | Some v => Some (VStr v)
    | None => lookup k ms
    end.
Proof.
  induction lines as [|line lines IH]; intros ms P Hk; [reflexivity|].
  cbn [fold_left flat_map]. cbv zeta in *.
  destruct (split_at 61%N line) as [|key [|value rest]];
    try (cbn [app]; apply IH; assumption).
  destruct (nonempty key && nonempty value);
    [|cbn [app]; apply IH; assumption].
  cbn [app last_value]. rewrite IH by (try apply lookup_proto_assign; assumption).
  destruct (last_value k _); [reflexivity|].
  rewrite lookup_assign by assumption.
  destruct (jsstring_eqb (trim key) k) eqn:E; [|reflexivity].
  apply jsstring_eqb_eq in E. rewrite E.
  destruct (jsstring_eqb k (js "__proto__")) eqn:E'; [|reflexivity].
  apply jsstring_eqb_eq in E'. contradiction.
Qed.

Lemma trace_get text k :
  k <> js "__proto__" ->
  get (trace_data text) k
  = ok (match last_value k (trace_entries text) with
        | Some v => VStr v
        | None => VUndefined
        end).
Proof.
  intros Hk. unfold trace_data, trace_entries. cbn [get].
  rewrite (trace_fold k (split_at 10%N text) [] eq_refl Hk).
  destruct (last_value k _); reflexivity.
Qed.

(** [X10] The object [fetchTwitterData] builds from the trace text maps a key
    to the value of the last kept line with that key, both trimmed, and has
    no other member: a line without [=], with nothing before the [=] or with
    nothing after it is skipped, and of a line with more than one [=] only
    what is between the first two counts as the value. *)
Theorem trace_data_lookup text k :
  k <> js "__proto__" ->
  lookup k (members (trace_data text))
  = option_map VStr (last_value k (trace_entries text)).
Proof.
  intros Hk. unfold trace_data, trace_entries. cbn [members].
  rewrite (trace_fold k (split_at 10%N text) [] eq_refl Hk).
  destruct (last_value k _); reflexivity.
Qed.

Lemma trace_data_lookup_witness :
  lookup (js "loc")
    (members (trace_data (text_of_lines [js "ip=203.0.113.7"; js "loc=XX=1";
                                         js "colo"; js "loc = US "])))
  = Some (VStr (js "US")).
Proof.
  refine (trace_data_lookup
            (text_of_lines [js "ip=203.0.113.7"; js "loc=XX=1";
                            js "colo"; js "loc = US "]) (js "loc") _).
  discriminate.
Defined.

Lemma or_else_shown fallback x :
  or_else (match x with Some v => VStr v | None => VUndefined end) (VStr fallback)
  = VStr (shown fallback x).
Proof. destruct x as [[|c v]|]; reflexivity. Qed.

(** [X11] When the trace request resolves and its body can be read as text,
    the card always ends at success, whatever the status of the response and
    whatever the text is: each field shows the value of its key ([ip], [loc],
    [colo]) in the text, and a key that is missing or has a blank value
    shows the unknown marker (the city: nothing).  Nothing is logged but the
    request. *)
Theorem fetchTwitterData_any_text w s r text :
  net w (js "https://x.com/cdn-cgi/trace?t=" ++ decimal (clock w (ticks s)))
  = inr r ->
  text_body r = inr text ->
  let out := run w fetchTwitterData s in
  let entries := trace_entries text in
  className (page (snd out) (ById (js "status-twitter")))
  = js "status-indicator status-success"
  /\ inner (page (snd out) (ById (js "twitter-ip")))
     = Text (VStr (shown unknown_marker (last_value (js "ip") entries)))
  /\ inner (page (snd out) (ById (js "twitter-country")))
     = Text (VStr (shown unknown_marker (last_value (js "loc") entries)))
  /\ inner (page (snd out) (ById (js "twitter-city")))
     = Text (VStr (shown [] (last_value (js "colo") entries)))
  /\ log (snd out)
     = log s ++ [Fetch (js "https://x.com/cdn-cgi/trace?t="
                        ++ decimal (clock w (ticks s)))].
Proof.
  intros Hr Ht. cbv zeta. unfold fetchTwitterData. card_step.
  cbn [ticks on_page tick record]. rewrite Hr. card_step. rewrite Ht. card_step.
  rewrite !trace_get by discriminate. unfold ok. card_step.
  rewrite !or_else_shown. unfold set_textContent. cbn [to_string_throws].
  card_step. cbn. repeat split; reflexivity.
Qed.

Lemma fetchTwitterData_any_text_witness :
  inner (page (snd (run trace_answers fetchTwitterData loading_page))
           (ById (js "twitter-country")))
  = Text (VStr (js "US")).
Proof.
  refine (proj1 (proj2 (proj2
    (fetchTwitterData_any_text trace_answers loading_page _ _ eq_refl eq_refl)))).
Defined.

(** ** The EdgeOne card *)

Lemma get_nullish v k : nullish v = true -> get v k = throw TypeError.
Proof. destruct v; cbn; congruence. Qed.

Section EdgeOne.
Variable number_to_string : float -> jsstring.
Variable w : world.

(** [X12] When the EdgeOne card ends at success, its third field is the text
    [AS], the number of the network, a space and its organisation: it always
    starts with [AS], so the fallback to the unknown marker written after it
    is never taken, and a network without number or organisation shows as
    [ASundefined undefined]. *)
Theorem fetchEdgeOneData_city s :
  let out := run w (fetchEdgeOneData number_to_string) s in
  className (page (snd out) (ById (js "status-edgeone")))
  = js "status-indicator status-success" ->
  exists data asn,
    (r <- net w edgeone_url ;; json_body r) = ok data
    /\ get data (js "asn") = ok asn
    /\ inner (page (snd out) (ById (js "edgeone-city")))
       = Text (VStr (js "AS"
                     ++ to_string number_to_string (get_opt asn (js "asn"))
                     ++ js " "
                     ++ to_string number_to_string (get_opt asn (js "org")))).
Proof.
  cbv zeta. unfold fetchEdgeOneData, set_textContent. card_step.
  change (js "https://api.ipapi.cmliussss.net") with edgeone_url.
  destruct (net w edgeone_url) as [e|r]; card_step; [cbn; discriminate|].
  cbn [rbind].
  destruct (json_body r) as [e|data]; card_step; [cbn; discriminate|].
  repeat (card_case; [cbn; discriminate|]).
  intros _. exists data, x2. split; [reflexivity|]. split; [assumption|].
  unfold get_opt.
  repeat match goal with H : get _ _ = inr _ |- _ => rewrite H end.
  reflexivity.
Qed.

(** [X13] The EdgeOne card needs the location and the network of the answer:
    when either is missing (or [null]) the card ends at the failure, although
    the answer may hold an address; the address written first is replaced by
    the error span. *)
Theorem fetchEdgeOneData_needs_sections s data :
  (r <- net w edgeone_url ;; json_body r) = ok data ->
  nullish (get_opt data (js "location")) || nullish (get_opt data (js "asn"))
  = true ->
  card_errored (js "edgeone")
    (page (snd (run w (fetchEdgeOneData number_to_string) s))).
Proof.
  intros Hd Hn. unfold fetchEdgeOneData, set_textContent. card_step.
  change (js "https://api.ipapi.cmliussss.net") with edgeone_url.
  destruct (net w edgeone_url) as [e|r]; [discriminate|]. cbn [rbind] in Hd.
  unfold ok in Hd. card_step. rewrite Hd. card_step.
  repeat (card_case; [cbn; repeat split; reflexivity|]).
  exfalso. unfold get_opt in Hn.
  repeat match goal with H : get data _ = inr _ |- _ => rewrite H in Hn end.
  apply orb_true_iff in Hn.
  destruct Hn as [Hn|Hn];
    match goal with
    | H : get ?v _ = inr _, Hn : nullish ?v = true |- _ =>
      rewrite (get_nullish v _ Hn) in H; discriminate
    end.
Qed.
End EdgeOne.

Lemma fetchEdgeOneData_city_witness :
  inner (page (snd (run edgeone_answers (fetchEdgeOneData (fun _ => []))
                      loading_page))
           (ById (js "edgeone-city")))
  = Text (VStr (js "AS64500 Example")).
Proof.
  destruct (fetchEdgeOneData_city (fun _ => []) edgeone_answers loading_page
              eq_refl) as (data & asn & H1 & H2 & H3).
  injection H1 as <-. injection H2 as <-. exact H3.
Defined.

Lemma fetchEdgeOneData_needs_sections_witness :
  card_errored (js "edgeone")
    (page (snd (run edgeone_without_location (fetchEdgeOneData (fun _ => []))
                  loading_page))).
Proof.
  exact (fetchEdgeOneData_needs_sections (fun _ => []) edgeone_without_location
           loading_page _ eq_refl eq_refl).
Defined.

(** ** The parsers of the domestic card *)

(** [X14] A result of any of the three parsers has no blank field: address,
    country and city are each a value that is not [undefined], [null],
    empty, [0] or [false]; where the answer has none, the unknown marker
    stands. *)
Theorem parsers_never_blank c data res :
  In c apiConfigs ->
  parser c data = ok res ->
  truthy (ip res) = true /\ truthy (country res) = true
  /\ truthy (city res) = true.
Proof.
  intros Hc.
  assert (G : forall A (m : result A) (f : A -> result normalized),
            (forall a, f a = ok res -> truthy (ip res) = true
                                       /\ truthy (country res) = true
                                       /\ truthy (city res) = true) ->
            rbind m f = ok res ->
            truthy (ip res) = true /\ truthy (country res) = true
            /\ truthy (city res) = true).
  { intros A [e|a] f H; cbn [rbind]; [discriminate | apply H]. }
  assert (F : forall i c0 t,
            ok {| ip := or_else i (VStr unknown_marker);
                  country := or_else c0 (VStr unknown_marker);
                  city := or_else t (VStr unknown_marker) |} = ok res ->
            truthy (ip res) = true /\ truthy (country res) = true
            /\ truthy (city res) = true).
  { intros i c0 t E. injection E as <-. cbn [ip country city].
    rewrite !truthy_or_else. auto. }
  destruct Hc as [<-|[<-|[<-|[]]]]; cbn [parser].
  - unfold speedtest_parser. apply G. intros code.
    destruct (is_number code 0); [|discriminate]. apply G. intros d.
    destruct (truthy d); [|discriminate].
    apply G. intros i. apply G. intros c0. apply G. intros t. apply F.
  - unfold ipipv_parser.
    apply G. intros i. apply G. intros c0. apply G. intros t. apply F.
  - unfold ipipnet_parser. apply G. intros ret.
    destruct (is_string ret (js "ok")); [|discriminate]. apply G. intros d.
    destruct (truthy d); [|discriminate].
    apply G. intros i. apply G. intros l0. apply G. intros c0.
    apply G. intros l2. apply G. intros t. apply F.
Qed.

Lemma parsers_never_blank_witness :
  truthy (city {| ip := VStr (js "2.2.2.2"); country := VStr unknown_marker;
                  city := VStr unknown_marker |}) = true.
Proof.
  refine (proj2 (proj2
    (parsers_never_blank ipipv_config
       (VObj [member "Ip" (VStr (js "2.2.2.2")); member "City" VNull]) _
       (or_intror (or_introl eq_refl)) eq_refl))).
Defined.

Lemma to_string_throws_or_else v :
  to_string_throws v = false ->
  to_string_throws (or_else v (VStr unknown_marker)) = false.
Proof. intros H. unfold or_else. destruct (truthy v); [exact H | reflexivity]. Qed.

(** [X15] The second provider's parser takes any answer but [null]: when the
    first provider failed and the second's request resolves with a body that
    parses to anything but [null] (whatever the status, whatever the shape),
    the card ends at success under the second provider's name, a field the
    answer lacks shows the unknown marker, and the third provider is not
    requested. *)
Theorem ipipv_answer_ends_cascade w s e r data :
  attempt_result w speedtest_config (clock w (ticks s)) = inl e ->
  net w (request_url ipipv_config (clock w (S (ticks s)))) = inr r ->
  json_body r = inr data ->
  nullish data = false ->
  to_string_throws (get_opt data (js "Ip"))
  || to_string_throws (get_opt data (js "Country"))
  || to_string_throws (get_opt data (js "City")) = false ->
  let out := run w fetchIpipData s in
  inner (page (snd out) (ById (js "ipip-ip")))
  = Text (or_else (get_opt data (js "Ip")) (VStr unknown_marker))
  /\ inner (page (snd out) (ById (js "ipip-country")))
     = Text (or_else (get_opt data (js "Country")) (VStr unknown_marker))
  /\ inner (page (snd out) (ById (js "ipip-city")))
     = Text (or_else (get_opt data (js "City")) (VStr unknown_marker))
  /\ className (page (snd out) (ById (js "status-ipip")))
     = js "status-indicator status-success"
  /\ inner (page (snd out) (ParentOf (js "status-ipip")))
     = IndicatorAndLabel (title_label ipipv_config)
  /\ fetched (log (snd out))
     = fetched (log s)
       ++ [request_url speedtest_config (clock w (ticks s));
           request_url ipipv_config (clock w (S (ticks s)))].
Proof.
  intros H1 Hr Hd Hn Ht. cbv zeta.
  unfold fetchIpipData. rewrite run_fetchIpipDataWith. cbn [snd].
  unfold apiConfigs. cbn [cascade_state ticks on_page].
  change {| name := js "speedtest.cn"; url := js "https://api-v3.speedtest.cn/ip";
            parser := speedtest_parser |} with speedtest_config.
  change {| name := js "ipipv.com"; url := js "https://myip.ipipv.com/";
            parser := ipipv_parser |} with ipipv_config.
  rewrite H1. cbn [after_failure ticks on_page].
  assert (A : attempt_result w ipipv_config (clock w (S (ticks s)))
              = inr {| ip := or_else (get_opt data (js "Ip")) (VStr unknown_marker);
                       country := or_else (get_opt data (js "Country"))
                                    (VStr unknown_marker);
                       city := or_else (get_opt data (js "City"))
                                 (VStr unknown_marker) |}).
  { unfold attempt_result. rewrite Hr. cbn [rbind]. rewrite Hd. cbn [rbind].
    cbn [ipipv_config parser]. unfold ipipv_parser, get_opt in *.
    apply orb_false_elim in Ht. destruct Ht as [Ht Ht3].
    apply orb_false_elim in Ht. destruct Ht as [Ht1 Ht2].
    destruct data; try discriminate Hn; cbn [get rbind ok] in *;
      unfold renderable; cbn [ip country city];
      rewrite ?to_string_throws_or_else by assumption; reflexivity. }
  rewrite A. unfold after_success. cbn [page log].
  split; [reflexivity|]. split; [reflexivity|]. split; [reflexivity|].
  split; [reflexivity|]. split; [reflexivity|].
  cbn [after_failure log ticks on_page].
  rewrite !fetched_app. cbn [fetched flat_map app].
  rewrite !app_nil_r, <- app_assoc. reflexivity.
Qed.

Lemma ipipv_answer_ends_cascade_witness :
  inner (page (snd (run second_answers_error fetchIpipData loading_page))
           (ById (js "ipip-ip")))
  = Text (VStr unknown_marker).
Proof.
  refine (proj1
    (ipipv_answer_ends_cascade second_answers_error loading_page NetworkError _
       (VObj [member "error" (VStr (js "rate limited"))])
       eq_refl eq_refl eq_refl eq_refl eq_refl)).
Defined.

(** ** The request addresses *)

Lemma numeral_value_snoc ds c :
  numeral_value (ds ++ [c]) = (numeral_value ds * 10 + (c - 48))%N.
Proof. unfold numeral_value. rewrite fold_left_app. reflexivity. Qed.

Lemma decimal_digits_value fuel : forall n acc,
  (n < 2 ^ N.of_nat fuel)%N -> fuel <> 0 ->
  exists ds, decimal_digits fuel n acc = ds ++ acc /\ numeral_value ds = n.
Proof.
  induction fuel as [|fuel IH]; intros n acc Hn Hf; [congruence|].
  cbn [decimal_digits]. destruct (n <? 10)%N eqn:E.
  - apply N.ltb_lt in E. exists [(48 + n mod 10)%N]. split; [reflexivity|].
    unfold numeral_value. cbn [fold_left]. rewrite N.mod_small by assumption. lia.
  - apply N.ltb_ge in E.
    assert (Hf' : fuel <> 0).
    { intros ->. cbn in Hn. lia. }
    assert (Hn' : (n / 10 < 2 ^ N.of_nat fuel)%N).
    { rewrite Nat2N.inj_succ, N.pow_succ_r' in Hn.
      apply N.Div0.div_lt_upper_bound. lia. }
    destruct (IH (n / 10)%N ((48 + n mod 10)%N :: acc) Hn' Hf') as (ds & Hd & Hv).
    exists (ds ++ [(48 + n mod 10)%N]). split.
    + rewrite Hd, <- app_assoc. reflexivity.
    + rewrite numeral_value_snoc, Hv, (N.add_comm 48), N.add_sub.
      pose proof (N.Div0.div_mod n 10) as H. lia.
Qed.

(** Reading the numeral of a number gives the number back. *)
Lemma numeral_value_decimal n : numeral_value (decimal n) = n.
Proof.
  unfold decimal.
  destruct (decimal_digits_value (S (N.to_nat (N.log2 n))) n []) as (ds & Hd & Hv).
  - rewrite Nat2N.inj_succ, N2Nat.id.
    destruct n as [|p]; [reflexivity|]. apply N.log2_spec. reflexivity.
  - discriminate.
  - rewrite Hd, app_nil_r. exact Hv.
Qed.

Lemma decimal_inj n m : decimal n = decimal m -> n = m.
Proof.
  intros E. rewrite <- (numeral_value_decimal n), <- (numeral_value_decimal m), E.
  reflexivity.
Qed.

(** [X16] The address requested from a provider determines the reading of the
    clock it was built from: two requests to the same provider at different
    readings never have the same address, so no cached answer is reused. *)
Theorem request_url_inj c t t' :
  request_url c t = request_url c t' -> t = t'.
Proof.
  intros E. unfold request_url in E.
  apply app_inv_head in E. apply app_inv_head in E. apply app_inv_head in E.
  apply decimal_inj. exact E.
Qed.

Lemma request_url_inj_witness : epoch 3 = 1700000000003%N.
Proof.
  apply (request_url_inj
           {| name := js "ipipv.com"; url := js "https://myip.ipipv.com/";
              parser := ipipv_parser |} (epoch 3) 1700000000003).
  reflexivity.
Defined.

(** ** The cascade over two lists *)

Lemma cascade_state_app w l1 : forall l2 s,
  cascade_state w (l1 ++ l2) s
  = match first_success w l1 (ticks s) with
    | Some _ => cascade_state w l1 s
    | None => cascade_state w l2 (after_failures w l1 s)
    end.
Proof.
  induction l1 as [|c l1 IH]; intros l2 s; [reflexivity|].
  cbn [app cascade_state first_success after_failures fold_left].
  destruct (attempt_result w c (clock w (ticks s))) as [e|res]; [|reflexivity].
  rewrite IH. reflexivity.
Qed.

(** [X17] The cascade over a list of providers followed by another: when a
    provider of the first list succeeds, the function does exactly what it
    does on the first list alone, so providers appended after one that works
    change nothing; when every provider of the first list fails, it does, from
    the state those failures left (one request and one warning each, and the
    clock read once each), exactly what it does on the second list alone. *)
Theorem cascade_app w l1 l2 s :
  run w (cascade (l1 ++ l2)) s
  = match first_success w l1 (ticks s) with
    | Some _ => run w (cascade l1) s
    | None => run w (cascade l2) (after_failures w l1 s)
    end.
Proof.
  rewrite !run_cascade, cascade_state_app.
  destruct (first_success w l1 (ticks s)); reflexivity.
Qed.

(** ** The theme switcher: [initTheme] *)

Lemma theme_after_app a b e1 e2 st :
  theme_after a b (e1 ++ e2) st = theme_after a b e2 (theme_after a b e1 st).
Proof. apply fold_left_app. Qed.

Lemma chosen_click t st : chosen t st -> chosen (other_theme t) (on_switcher_click st).
Proof.
  intros ([->| ->] & Hd & Hs); unfold on_switcher_click; rewrite Hd;
    cbn; repeat split; auto.
Qed.

Lemma chosen_system t m st : chosen t st -> on_system_change m st = st.
Proof.
  intros ([->| ->] & Hd & Hs); unfold on_system_change; rewrite Hs; reflexivity.
Qed.

Lemma chosen_after b events : forall t st,
  chosen t st ->
  chosen (if Nat.even (List.length (filter is_click events))
          then t else other_theme t)
    (theme_after true b events st).
Proof.
  induction events as [|e events IH]; intros t st H; [exact H|].
  cbn [theme_after fold_left filter].
  destruct e as [|m]; cbn [is_click initTheme].
  - cbn [List.length].
    assert (O : other_theme (other_theme t) = t)
      by (destruct H as ([->| ->] & _); reflexivity).
    apply chosen_click in H.
    specialize (IH _ _ H). unfold theme_after in IH. rewrite O in IH.
    replace (Nat.even (S (List.length (filter is_click events))))
      with (negb (Nat.even (List.length (filter is_click events))))
      by (rewrite Nat.even_succ, <- Nat.negb_even; reflexivity).
    destruct (Nat.even _); cbn [negb]; exact IH.
  - replace (if b then on_system_change m st else st) with st
      by (destruct b; [symmetry; eapply chosen_system; eauto | reflexivity]).
    apply IH. exact H.
Qed.

(** [X18] From the first click on the switcher on, the theme of the page is
    the stored theme, and it is dark or light: light after the click if the
    page was dark, dark in every other case, and from then on turned over by
    each further click and by nothing else; what the system announces no
    longer changes it. *)
Theorem theme_follows_clicks hasMatchMedia events st :
  let first := if match data_theme st with
                  | Some t => jsstring_eqb t dark
                  | None => false
                  end
               then light else dark in
  let theme := if Nat.even (List.length (filter is_click events))
               then first else other_theme first in
  let st' := theme_after true hasMatchMedia (SwitcherClick :: events) st in
  data_theme st' = Some theme /\ stored_theme st' = Some theme.
Proof.
  cbv zeta. cbn [theme_after fold_left initTheme].
  refine (proj2 (chosen_after hasMatchMedia events _ (on_switcher_click st) _)).
  unfold on_switcher_click. cbv zeta.
  destruct (match data_theme st with Some t => jsstring_eqb t dark | None => false end);
    repeat split; auto.
Qed.

(** [X19] As long as nothing is stored (or the empty text is) and the switcher
    is not clicked, the page takes the theme the system announced last and
    nothing gets stored; without [matchMedia], or without the switcher on
    the page, nothing changes at all. *)
Theorem theme_follows_system hasSwitcher hasMatchMedia events st :
  stored_theme st = None \/ stored_theme st = Some [] ->
  forallb (fun e => negb (is_click e)) events = true ->
  let st' := theme_after hasSwitcher hasMatchMedia events st in
  stored_theme st' = stored_theme st
  /\ data_theme st'
     = if hasSwitcher && hasMatchMedia
       then match last_system events with
            | Some m => Some (if m then dark else light)
            | None => data_theme st
            end
       else data_theme st.
Proof.
  cbv zeta. revert st.
  induction events as [|e events IH] using rev_ind; intros st Hs He.
  - cbn. destruct (_ && _); auto.
  - rewrite forallb_app in He. apply andb_prop in He. destruct He as [He1 He2].
    cbn [forallb] in He2. destruct e as [|m]; [discriminate|].
    unfold theme_after in *. rewrite fold_left_app. cbn [fold_left].
    destruct (IH st Hs He1) as [I1 I2].
    assert (L : last_system (events ++ [SystemChange m]) = Some m).
    { clear. induction events as [|e events IH]; [reflexivity|].
      cbn [app last_system]. rewrite IH. reflexivity. }
    rewrite L. unfold initTheme at 1 3.
    destruct hasSwitcher; cbn [andb] in *; [|auto].
    destruct hasMatchMedia; [|auto].
    unfold on_system_change. rewrite I1.
    destruct Hs as [-> | ->]; cbn; auto.
Qed.

Lemma theme_follows_system_witness :
  data_theme (theme_after true true [SystemChange false; SystemChange true]
                {| data_theme := Some light; stored_theme := None |})
  = Some dark.
Proof.
  refine (proj2 (theme_follows_system true true
                   [SystemChange false; SystemChange true]
                   {| data_theme := Some light; stored_theme := None |}
                   (or_introl eq_refl) eq_refl)).
Defined.

(** ** Copying a domain *)

(** [X20] Every call of [copyDomain] shows exactly one toast and leaves no
    text area behind.  The toast names the domain without one leading [*.]
    when the clipboard took the text or, failing that (or without a
    clipboard), the copy command did not throw (also when it returned
    [false]); it is the failure toast only when the copy command threw. *)
Theorem copyDomain_one_toast b domain n :
  toasts (copyDomain b domain)
  = [if copy_went_through b (strip_wildcard domain)
     then copied_message (strip_wildcard domain)
     else copy_failed_message]
  /\ textareas (copyDomain b domain) n = n.
Proof.
  unfold copyDomain, copy_went_through, fallbackCopy. cbv zeta.
  destruct (writeText b) as [write|].
  - destruct (write (strip_wildcard domain)); [|split; reflexivity].
    destruct (execCommand b (strip_wildcard domain)); split; reflexivity.
  - destruct (execCommand b (strip_wildcard domain)); split; reflexivity.
Qed.

(** ** Toasts *)

Lemma length_set_show id b l : List.length (set_show id b l) = List.length l.
Proof. apply length_map. Qed.

Lemma length_filter_le {A} (f : A -> bool) l :
  List.length (filter f l) <= List.length l.
Proof.
  induction l as [|x l IH]; cbn [filter List.length]; [lia|].
  destruct (f x); cbn [List.length]; lia.
Qed.

Lemma toast_step_at_most_one p e :
  List.length (in_document p) <= 1 ->
  List.length (in_document (toast_step p e)) <= 1.
Proof.
  intros H. destruct e as [message|[id|id|id]];
    cbn [toast_step showToast fire fst in_document].
  - destruct (in_document p) as [|t [|t' l]]; cbn in *; lia.
  - rewrite length_set_show. exact H.
  - rewrite length_set_show. exact H.
  - pose proof (length_filter_le (fun t => negb (Nat.eqb (toast_id t) id))
                  (in_document p)). lia.
Qed.

(** [X21] The document never holds two toasts: starting with at most one,
    after any sequence of calls of [showToast] and of its timers firing, in
    any order, there is at most one toast in the document; and right after a
    call it is the toast of that call, not yet shown. *)
Theorem at_most_one_toast events p message :
  List.length (in_document p) <= 1 ->
  let p' := fold_left toast_step events p in
  List.length (in_document p') <= 1
  /\ in_document (fst (showToast message p'))
     = [{| toast_id := created p'; toast_message := message;
           toast_show := false |}].
Proof.
  intros H. cbv zeta.
  assert (L : List.length (in_document (fold_left toast_step events p)) <= 1).
  { revert p H. induction events as [|e events IH]; intros p H; [exact H|].
    cbn [fold_left]. apply IH, toast_step_at_most_one, H. }
  split; [exact L|].
  cbn [showToast fst in_document].
  destruct (in_document (fold_left toast_step events p)) as [|t [|t' l]];
    cbn in *; try reflexivity; lia.
Qed.

Lemma at_most_one_toast_witness :
  List.length
    (in_document
       (fold_left toast_step [Show (js "a"); Show (js "b"); Fire (AddShow 0)]
          {| in_document := []; created := 0 |})) <= 1.
Proof.
  exact (proj1 (at_most_one_toast
                  [Show (js "a"); Show (js "b"); Fire (AddShow 0)]
                  {| in_document := []; created := 0 |} [] (Nat.le_0_l 1))).
Defined.

(** ** The cards after the join *)

Lemma local_update n f : local (update n f).
Proof. intros d d' m H. unfold update. rewrite H. reflexivity. Qed.

Lemma local_set_title c : local (set_title c).
Proof. intros d d' n H. unfold set_title. apply local_update, local_update, H. Qed.

Lemma own_false card n m : own card n = false -> In m (card_nodes card) -> node_eqb n m = false.
Proof.
  unfold own. intros H Hin. destruct (node_eqb n m) eqn:E; [|reflexivity].
  rewrite <- H. symmetry. apply existsb_exists. exists m. auto.
Qed.

Lemma frame_update card m f d n :
  In m (card_nodes card) -> own card n = false -> update m f d n = d n.
Proof.
  intros Hin H. unfold update. rewrite (own_false card n m H Hin). reflexivity.
Qed.

Ltac in_card := repeat first [left; reflexivity | right].

(** A synchronous statement of the function of [card]. *)
Ltac tends_dom card :=
  split; [first [apply local_update | apply local_set_title]
         |split; [intros; unfold setStatus, set_error, set_title;
                  repeat rewrite (frame_update card);
                  try reflexivity; try assumption; in_card|]].

Ltac tends_step :=
  cbn [tends bind try_catch fetch settled lift await_json await_text dom_ emit].

(** The next statement that can throw. *)
Ltac tends_case card :=
  match goal with
  | |- context [try_catch (bind (lift ?r) _) _] =>
    let e := fresh "e" in let x := fresh "x" in
    destruct r as [e|x]; tends_step
  | |- context [try_catch (bind (if to_string_throws ?v then _ else _) _) _] =>
    destruct (to_string_throws v); tends_step
  | |- _ /\ _ => tends_dom card
  end.

Ltac solve_errored :=
  right; cbn; repeat split; reflexivity.

Ltac card_failed_tends card :=
  unfold card_failed, set_textContent; cbn [to_string_throws]; tends_step;
  repeat tends_dom card; solve_errored.

Lemma tends_fetchCloudFlareData d : tends (js "cf") fetchCloudFlareData d.
Proof.
  unfold fetchCloudFlareData, set_textContent. tends_step.
  tends_dom (js "cf"). intros t [e|r]; tends_step;
    [card_failed_tends (js "cf")|].
  intros [e|data]; tends_step; [card_failed_tends (js "cf")|].
  repeat (tends_case (js "cf"); try solve [card_failed_tends (js "cf")]).
  left. split; [reflexivity|]. eexists. split; [reflexivity|].
  apply truthy_or_else.
Qed.

Lemma tends_fetchTwitterData d : tends (js "twitter") fetchTwitterData d.
Proof.
  unfold fetchTwitterData, set_textContent. tends_step.
  tends_dom (js "twitter"). intros t [e|r]; tends_step;
    [card_failed_tends (js "twitter")|].
  intros [e|text]; tends_step; [card_failed_tends (js "twitter")|].
  cbv zeta.
  repeat (tends_case (js "twitter"); try solve [card_failed_tends (js "twitter")]).
  left. split; [reflexivity|]. eexists. split; [reflexivity|].
  apply truthy_or_else.
Qed.

Lemma tends_fetchEdgeOneData number_to_string d :
  tends (js "edgeone") (fetchEdgeOneData number_to_string) d.
Proof.
  unfold fetchEdgeOneData, set_textContent. tends_step.
  tends_dom (js "edgeone"). intros [e|r]; tends_step;
    [card_failed_tends (js "edgeone")|].
  intros [e|data]; tends_step; [card_failed_tends (js "edgeone")|].
  repeat (tends_case (js "edgeone"); try solve [card_failed_tends (js "edgeone")]).
  left. split; [reflexivity|]. eexists. split; [reflexivity|].
  apply truthy_or_else.
Qed.

Lemma tends_cascade configs :
  (forall c data res, In c configs -> parser c data = ok res ->
     truthy (ip res) = true) ->
  forall d, tends (js "ipip") (cascade configs) d.
Proof.
  induction configs as [|c rest IH]; intros Hp d.
  - unfold cascade, failure_path, set_textContent. cbn [to_string_throws].
    tends_step. repeat tends_dom (js "ipip"). solve_errored.
  - assert (IH' : forall d, tends (js "ipip") (cascade rest) d).
    { apply IH. intros c' data res Hin. apply Hp. right. exact Hin. }
    clear IH.
    cbn [cascade]. unfold attempt, set_textContent. tends_step.
    intros t [e|r]; tends_step; [apply IH'|].
    intros [e|data]; tends_step; [apply IH'|].
    destruct (parser c data) as [e|res] eqn:P; tends_step; [apply IH'|].
    repeat (match goal with
            | |- context [try_catch
                            (bind (bind (if to_string_throws ?v then _ else _) _) _)
                            _] =>
              destruct (to_string_throws v); tends_step; [apply IH'|]
            | |- _ /\ _ => tends_dom (js "ipip")
            end).
    left. split; [reflexivity|]. eexists. split; [reflexivity|].
    eapply Hp; [left; reflexivity | exact P].
Qed.

Lemma own_status card : own card (ById (js "status-" ++ card)) = true.
Proof. unfold own. cbn [card_nodes existsb]. rewrite node_eqb_refl. reflexivity. Qed.

Lemma own_ip card : own card (ById (card ++ js "-ip")) = true.
Proof.
  unfold own. cbn [card_nodes existsb]. rewrite (node_eqb_refl (ById (card ++ _))).
  rewrite !orb_true_r. reflexivity.
Qed.

Lemma own_country card : own card (ById (card ++ js "-country")) = true.
Proof.
  unfold own. cbn [card_nodes existsb].
  rewrite (node_eqb_refl (ById (card ++ js "-country"))).
  rewrite !orb_true_r. reflexivity.
Qed.

Lemma own_city card : own card (ById (card ++ js "-city")) = true.
Proof.
  unfold own. cbn [card_nodes existsb].
  rewrite (node_eqb_refl (ById (card ++ js "-city"))).
  rewrite !orb_true_r. reflexivity.
Qed.

(** What a card shows is read off its own elements. *)
Lemma card_ok_agree card d d' :
  (forall n, own card n = true -> d n = d' n) -> card_ok card d -> card_ok card d'.
Proof.
  intros H. unfold card_ok, card_succeeded, card_errored.
  rewrite !(H _ (own_status card)), !(H _ (own_ip card)),
    !(H _ (own_country card)), !(H _ (own_city card)).
  exact (fun x => x).
Qed.

Lemma tends_agree card t : forall d d',
  (forall n, own card n = true -> d n = d' n) ->
  tends card t d -> tends card t d'.
Proof.
  induction t as [a|e|f k IH|k IH|k IH|e k IH|u k IH|r k IH|r k IH];
    intros d d' H; cbn [tends]; auto.
  - apply card_ok_agree. exact H.
  - intros (L & F & T). split; [exact L|]. split; [exact F|].
    apply (IH (f d)); [|exact T]. intros n Hn. apply L, H, Hn.
  - intros T x. apply (IH x d); auto.
  - apply IH. exact H.
  - intros T x. apply (IH x d); auto.
  - intros T x. apply (IH x d); auto.
  - intros T x. apply (IH x d); auto.
Qed.

Lemma own_disjoint i j c c' n :
  nth_error cards i = Some c -> nth_error cards j = Some c' -> i <> j ->
  own c n = true -> own c' n = false.
Proof.
  intros Hi Hj Hij H. unfold own in H. apply existsb_exists in H.
  destruct H as (m & Hin & E). apply node_eqb_eq in E. subst m.
  destruct i as [|[|[|[|i]]]]; try (destruct i; discriminate Hi);
    injection Hi as <-;
    (destruct j as [|[|[|[|j]]]]; try (destruct j; discriminate Hj);
     try congruence; injection Hj as <-);
    cbn [card_nodes In] in Hin;
    repeat (destruct Hin as [<-|Hin]; [reflexivity|]); destruct Hin.
Qed.

Lemma nth_error_replace_nth {A} (l : list A) : forall i j x,
  nth_error (replace_nth i x l) j
  = if Nat.eqb j i then option_map (fun _ => x) (nth_error l j)
    else nth_error l j.
Proof.
  induction l as [|y l IH]; intros i j x.
  - destruct i, j; cbn; try reflexivity. destruct (Nat.eqb j i); reflexivity.
  - destruct i, j; cbn [replace_nth nth_error Nat.eqb option_map]; try reflexivity.
    apply IH.
Qed.

Lemma length_replace_nth {A} (l : list A) : forall i x,
  List.length (replace_nth i x l) = List.length l.
Proof.
  induction l as [|y l IH]; intros [|i] x; cbn [replace_nth List.length]; auto.
Qed.

Section AfterJoin.
Variable number_to_string : float -> jsstring.
Variable ipTextElements : list node.
Variable hasNetworkCards : bool.
Variable w : world.

Hypothesis indicators_apart :
  forall card, In card cards ->
    ~ In (ById (js "status-" ++ card)) ipTextElements.

Lemma advance_tends card t : forall s,
  tends card t (page s) ->
  tends card (fst (advance w t s)) (page (snd (advance w t s)))
  /\ forall n, own card n = false -> page (snd (advance w t s)) n = page s n.
Proof.
  induction t as [a|e|f k IH|k IH|k IH|e k IH|u k IH|r k IH|r k IH];
    intros s T; cbn [advance fst snd]; auto.
  - destruct T as (L & F & T). destruct (IH (on_page f s) T) as [T' F'].
    split; [exact T'|]. intros n Hn. rewrite (F' n Hn). cbn [on_page page].
    apply F, Hn.
  - destruct T.
  - exact (IH _ (tick s) (T _)).
  - exact (IH (record e s) T).
Qed.

Lemma resume_tends card t t1 d :
  tends card t d -> resume w t = Some t1 -> tends card t1 d.
Proof.
  destruct t; cbn [resume tends]; intros T E; try discriminate;
    injection E as <-; apply T.
Qed.

Lemma card_ok_marked card d :
  In card cards -> card_ok card d ->
  card_ok card (markIpAsClickable number_to_string ipTextElements d).
Proof.
  intros Hc. unfold card_ok, card_succeeded, card_errored.
  assert (S : markIpAsClickable number_to_string ipTextElements d
                (ById (js "status-" ++ card)) = d (ById (js "status-" ++ card))).
  { rewrite markIpAsClickable_pointwise.
    destruct (existsb _ ipTextElements) eqn:E; [|reflexivity].
    apply existsb_node_eqb in E. destruct (indicators_apart card Hc E). }
  assert (I : forall n, inner (markIpAsClickable number_to_string ipTextElements d n)
                        = inner (d n)).
  { intros n. rewrite markIpAsClickable_pointwise. destruct (_ && _ && _); reflexivity. }
  rewrite S, !I. exact (fun x => x).
Qed.

Lemma step_on_their_way m m' :
  step number_to_string ipTextElements w m m' ->
  on_their_way m -> on_their_way m'.
Proof.
  intros Hs [Hl Ht].
  destruct Hs as [m i t t1 t' s' Hn Hr Ha|m Hj Hf]; split; cbn [tasks st].
  - rewrite length_replace_nth. exact Hl.
  - intros j card tj Hc Hj. rewrite nth_error_replace_nth in Hj.
    assert (Hi : exists ci, nth_error cards i = Some ci).
    { destruct (nth_error cards i) as [ci|] eqn:E; [eauto|].
      apply nth_error_None in E.
      assert (i < List.length (tasks m)) by (apply nth_error_Some; congruence).
      cbn [cards List.length] in E. lia. }
    destruct Hi as [ci Hci].
    pose proof (resume_tends ci t t1 _ (Ht i ci t Hci Hn) Hr) as T1.
    destruct (advance_tends ci t1 (st m) T1) as [T' F'].
    rewrite Ha in T', F'. cbn [fst snd] in T', F'.
    destruct (Nat.eqb j i) eqn:E.
    + apply Nat.eqb_eq in E. subst j. rewrite Hn in Hj. cbn in Hj.
      injection Hj as <-. rewrite Hci in Hc. injection Hc as <-. exact T'.
    + apply Nat.eqb_neq in E.
      apply (tends_agree card tj (page (st m))); [|apply (Ht j); assumption].
      intros n Hown. symmetry. apply F'.
      apply (own_disjoint j i card ci n); assumption.
  - exact Hl.
  - intros i card t Hc Hn. cbn [on_page page].
    assert (F : fulfilled t = true).
    { rewrite forallb_forall in Hf. apply Hf. eapply nth_error_In. exact Hn. }
    pose proof (Ht i card t Hc Hn) as T.
    destruct t; try discriminate F. cbn [tends] in *.
    apply card_ok_marked; [|exact T]. eapply nth_error_In. exact Hc.
Qed.

Lemma steps_on_their_way n m0 m :
  steps number_to_string ipTextElements w n m0 m ->
  on_their_way m0 -> on_their_way m.
Proof.
  intros H. induction H; intros Hi; [assumption|].
  eapply step_on_their_way; eauto.
Qed.

Lemma parser_ip_truthy c data res :
  In c apiConfigs -> parser c data = ok res -> truthy (ip res) = true.
Proof.
  intros Hc E.
  assert (G : forall A (m : result A) (f : A -> result normalized),
            (forall a, f a = ok res -> truthy (ip res) = true) ->
            rbind m f = ok res -> truthy (ip res) = true).
  { intros A [e|a] f H; cbn [rbind]; [discriminate | apply H]. }
  assert (F : forall i c0 t,
            ok {| ip := or_else i (VStr unknown_marker);
                  country := c0; city := t |} = ok res ->
            truthy (ip res) = true).
  { intros i c0 t E'. injection E' as <-. apply truthy_or_else. }
  revert E.
  destruct Hc as [<-|[<-|[<-|[]]]]; cbn [parser].
  - unfold speedtest_parser. apply G. intros code.
    destruct (is_number code 0); [|discriminate]. apply G. intros d.
    destruct (truthy d); [|discriminate].
    apply G. intros i. apply G. intros c0. apply G. intros t. apply F.
  - unfold ipipv_parser.
    apply G. intros i. apply G. intros c0. apply G. intros t. apply F.
  - unfold ipipnet_parser. apply G. intros ret.
    destruct (is_string ret (js "ok")); [|discriminate]. apply G. intros d.
    destruct (truthy d); [|discriminate].
    apply G. intros i. apply G. intros l0. apply G. intros c0.
    apply G. intros l2. apply G. intros t. apply F.
Qed.

Lemma tends_fetchIpipData d : tends (js "ipip") fetchIpipData d.
Proof.
  unfold fetchIpipData, fetchIpipDataWith. tends_step. tends_dom (js "ipip").
  apply tends_cascade. intros c data res. apply parser_ip_truthy.
Qed.

Lemma loadNetworkInfo_on_their_way s m0 :
  loadNetworkInfo number_to_string hasNetworkCards w s = Some m0 ->
  on_their_way m0.
Proof.
  unfold loadNetworkInfo. destruct hasNetworkCards; [|discriminate].
  unfold fetchers. cbn [start].
  destruct (advance_tends (js "ipip") fetchIpipData s
              (tends_fetchIpipData _)) as [T1 F1].
  destruct (advance w fetchIpipData s) as [t1 s1]. cbn [fst snd] in *.
  destruct (advance_tends (js "edgeone") (fetchEdgeOneData number_to_string) s1
              (tends_fetchEdgeOneData _ _)) as [T2 F2].
  destruct (advance w (fetchEdgeOneData number_to_string) s1) as [t2 s2].
  cbn [fst snd] in *.
  destruct (advance_tends (js "cf") fetchCloudFlareData s2
              (tends_fetchCloudFlareData _)) as [T3 F3].
  destruct (advance w fetchCloudFlareData s2) as [t3 s3]. cbn [fst snd] in *.
  destruct (advance_tends (js "twitter") fetchTwitterData s3
              (tends_fetchTwitterData _)) as [T4 F4].
  destruct (advance w fetchTwitterData s3) as [t4 s4]. cbn [fst snd] in *.
  intros E. injection E as <-. split; [reflexivity|]. cbn [tasks st].
  pose proof own_disjoint as D.
  intros [|[|[|[|i]]]] card t Hc Ht; try (destruct i; discriminate Hc);
    injection Hc as <-; injection Ht as <-.
  - apply (tends_agree _ _ (page s1)); [|exact T1]. intros n Hn.
    rewrite F4, F3, F2; [reflexivity| | |].
    + apply (D 0 1 _ _ n eq_refl eq_refl); [lia|exact Hn].
    + apply (D 0 2 _ _ n eq_refl eq_refl); [lia|exact Hn].
    + apply (D 0 3 _ _ n eq_refl eq_refl); [lia|exact Hn].
  - apply (tends_agree _ _ (page s2)); [|exact T2]. intros n Hn.
    rewrite F4, F3; [reflexivity| |].
    + apply (D 1 2 _ _ n eq_refl eq_refl); [lia|exact Hn].
    + apply (D 1 3 _ _ n eq_refl eq_refl); [lia|exact Hn].
  - apply (tends_agree _ _ (page s3)); [|exact T3]. intros n Hn.
    rewrite F4; [reflexivity|].
    apply (D 2 3 _ _ n eq_refl eq_refl); [lia|exact Hn].
  - exact T4.
Qed.

(** [X22] Whatever the order in which the event loop resumes the four
    functions, and whatever the network answers: as soon as the function of a
    card has returned, the card shows a result or the failure, and it stays
    so while the others run and when [markIpAsClickable] runs; when nothing is
    left to run, each of the four cards shows a result or the failure, and
    none is left at loading. *)
Theorem cards_after_join s0 m0 n m :
  loadNetworkInfo number_to_string hasNetworkCards w s0 = Some m0 ->
  steps number_to_string ipTextElements w n m0 m ->
  (forall i card t,
     nth_error cards i = Some card -> nth_error (tasks m) i = Some t ->
     fulfilled t = true -> card_ok card (page (st m)))
  /\ ((forall m', ~ step number_to_string ipTextElements w m m') ->
      forall card, In card cards -> card_ok card (page (st m))).
Proof.
  intros Hload Hsteps.
  pose proof (steps_on_their_way n m0 m Hsteps
                (loadNetworkInfo_on_their_way s0 m0 Hload)) as [Hl Ht].
  assert (A : forall i card t,
            nth_error cards i = Some card -> nth_error (tasks m) i = Some t ->
            fulfilled t = true -> card_ok card (page (st m))).
  { intros i card t Hc Hn F. pose proof (Ht i card t Hc Hn) as T.
    destruct t; try discriminate F. exact T. }
  split; [exact A|].
  intros Hfin card Hc.
  destruct (loadNetworkInfo_spec number_to_string hasNetworkCards w s0 m0 Hload)
    as (Hi0 & _ & _).
  pose proof (steps_inv number_to_string ipTextElements w n m0 m Hsteps Hi0) as Hi.
  destruct (final_joined number_to_string ipTextElements w m Hi Hfin) as [Hj _].
  destruct (inv_join _ Hi) as [[Hw _]|(_ & _ & Hf)]; [congruence|].
  apply In_nth_error in Hc. destruct Hc as [i Hc].
  destruct (nth_error (tasks m) i) as [t|] eqn:Hn.
  - apply (A i card t Hc Hn). rewrite forallb_forall in Hf. apply Hf.
    eapply nth_error_In. exact Hn.
  - apply nth_error_None in Hn.
    assert (i < List.length cards) by (apply nth_error_Some; congruence).
    cbn [cards List.length] in *. lia.
Qed.
End AfterJoin.

Lemma cards_after_join_witness :
  card_ok (js "cf") (page (st (resumed offline 2 offline_start))).
Proof.
  refine (proj1 (cards_after_join (fun _ => []) [ById (js "cf-ip")] true offline
                   _ loading_page offline_start 1
                   (resumed offline 2 offline_start) eq_refl _)
            2 (js "cf") _ eq_refl eq_refl eq_refl).
  - intros card Hc [E|[]].
    repeat (destruct Hc as [<-|Hc]; [discriminate E|]). destruct Hc.
  - eapply steps_S; [apply steps_O|].
    exact (step_resume (fun _ => []) [ById (js "cf-ip")] offline offline_start
             2 _ _ _ _ eq_refl eq_refl eq_refl).
Defined.

(** ** The requests of [loadNetworkInfo] *)

Lemma requests_le_mono {A} (t : async A) : forall n n',
  requests_le n t -> n <= n' -> requests_le n' t.
Proof.
  induction t as [a|e|f k IH|k IH|k IH|e k IH|u k IH|r k IH|r k IH];
    intros n n' H Hn; cbn [requests_le] in *; eauto.
  destruct e; eauto. destruct n as [|n]; [destruct H|].
  destruct n' as [|n']; [lia|]. apply (IH n); [exact H | lia].
Qed.








Section Requests.
Variable number_to_string : float -> jsstring.
Variable ipTextElements : list node.
Variable hasNetworkCards : bool.
Variable w : world.






End Requests.


(** ** Clickable addresses after the join *)

Section Clickable_after_join.
Variable number_to_string : float -> jsstring.
Variable ipTextElements : list node.
Variable hasNetworkCards : bool.
Variable w : world.

(** Once the join has fulfilled, nothing is left to run. *)
Lemma joined_final m m' :
  inv m -> join m = Joined -> ~ step number_to_string ipTextElements w m m'.
Proof.
  intros Hi Hj Hs. destruct (inv_join _ Hi) as [[Hw _]|(_ & _ & Hf)]; [congruence|].
  destruct Hs as [m i t t1 t' s' Hn Hr Ha|m Hw _]; [|congruence].
  rewrite forallb_forall in Hf.
  pose proof (Hf t (nth_error_In _ _ Hn)) as F.
  destruct t; cbn in F, Hr; discriminate.
Qed.

(** [X24] When the join of [loadNetworkInfo] has fulfilled (and so whenever
    nothing is left to run), every element of class [ip-text] that shows an
    address is clickable, whatever the order in which the four functions
    ran and whatever they wrote. *)
Theorem addresses_clickable_after_join s0 m0 k m n :
  loadNetworkInfo number_to_string hasNetworkCards w s0 = Some m0 ->
  steps number_to_string ipTextElements w k m0 m ->
  join m = Joined \/ (forall m', ~ step number_to_string ipTextElements w m m') ->
  In n ipTextElements ->
  shows_address number_to_string (page (st m) n) = true ->
  clickable (page (st m) n) = true.
Proof.
  intros Hload Hsteps Hend Hin.
  destruct (loadNetworkInfo_spec number_to_string hasNetworkCards w s0 m0 Hload)
    as (Hi0 & _ & _).
  assert (Hj : join m = Joined).
  { destruct Hend as [Hj|Hfin]; [exact Hj|].
    apply (final_joined number_to_string ipTextElements w m); [|exact Hfin].
    exact (steps_inv number_to_string ipTextElements w k m0 m Hsteps Hi0). }
  clear Hend. revert Hj.
  induction Hsteps as [m|k m1 m2 m3 H12 IH H23]; intros Hj.
  - destruct (inv_join _ Hi0) as [[Hw _]|(_ & Hm & _)]; [congruence|].
    unfold loadNetworkInfo in Hload. destruct hasNetworkCards; [|discriminate].
    destruct (start w (fetchers number_to_string) s0). injection Hload as <-.
    discriminate Hm.
  - pose proof (steps_inv number_to_string ipTextElements w k m1 m2 H12 Hi0) as Hi2.
    destruct H23 as [m i t t1 t' s' Hn Hr Ha|m Hw Hf].
    + cbn [join] in Hj.
      assert (Hj2 : join m = Joined).
      { destruct (join m), t'; cbn in Hj; congruence. }
      exfalso. eapply (joined_final m); [exact Hi2 | exact Hj2|].
      eapply step_resume; eassumption.
    + cbn [st on_page page]. intros Hs.
      rewrite markIpAsClickable_pointwise in *.
      apply existsb_node_eqb in Hin. rewrite Hin in *. cbn [andb] in *.
      destruct (shows_address number_to_string (page (st m) n)) eqn:E1,
               (clickable (page (st m) n)) eqn:E2; cbn [andb negb] in *;
        try assumption; try discriminate.
      * apply classList_contains_add, clickable_token.
      * rewrite E1 in Hs. discriminate.
Qed.
End Clickable_after_join.

Lemma step_resumed number_to_string ipTextElements w m i t t1 :
  nth_error (tasks m) i = Some t -> resume w t = Some t1 ->
  step number_to_string ipTextElements w m (resumed w i m).
Proof.
  intros Hn Hr. unfold resumed. rewrite Hn, Hr.
  destruct (advance w t1 (st m)) as [t' s'] eqn:Ha.
  eapply step_resume; eassumption.
Qed.

Lemma addresses_clickable_after_join_witness :
  clickable (page (st offline_end) (ById (js "extra-ip"))) = true.
Proof.
  pose (next := step_resumed (fun _ => []) sample_ip_elements offline).
  apply (addresses_clickable_after_join (fun _ => []) sample_ip_elements true
           offline masked_page offline_run_0 7 offline_end
           (ById (js "extra-ip")));
    [reflexivity | | left; reflexivity | left; reflexivity
    | vm_compute; reflexivity].
  apply steps_S with (m2 := offline_run_6);
    [|apply step_join; vm_compute; reflexivity].
  apply steps_S with (m2 := offline_run_5);
    [|exact (next offline_run_5 3 _ _ eq_refl eq_refl)].
  apply steps_S with (m2 := offline_run_4);
    [|exact (next offline_run_4 2 _ _ eq_refl eq_refl)].
  apply steps_S with (m2 := offline_run_3);
    [|exact (next offline_run_3 1 _ _ eq_refl eq_refl)].
  apply steps_S with (m2 := offline_run_2);
    [|exact (next offline_run_2 0 _ _ eq_refl eq_refl)].
  apply steps_S with (m2 := offline_run_1);
    [|exact (next offline_run_1 0 _ _ eq_refl eq_refl)].
  apply steps_S with (m2 := offline_run_0);
    [|exact (next offline_run_0 0 _ _ eq_refl eq_refl)].
  apply steps_O.
Defined.


Lemma className_with_inner n c d m :
  className (update n (with_inner c) d m) = className (d m).
Proof. unfold update. destruct (node_eqb m n); reflexivity. Qed.

Lemma className_set_error id d m : className (set_error id d m) = className (d m).
Proof. apply className_with_inner. Qed.

Lemma className_indicator id (f : element -> element) d m :
  is_indicator (ById id) = true -> is_indicator m = false ->
  className (update (ById id) f d m) = className (d m).
Proof.
  intros Hi Hm. unfold update. destruct (node_eqb m (ById id)) eqn:E; [|reflexivity].
  apply node_eqb_eq in E. subst m. congruence.
Qed.

Lemma className_set_title c d m :
  is_indicator m = false -> className (set_title c d m) = className (d m).
Proof.
  intros Hm. unfold set_title. rewrite className_indicator by (reflexivity || assumption).
  apply className_with_inner.
Qed.

Ltac keeps_dom :=
  split; [intros;
          first [apply className_with_inner | apply className_set_error
                | apply className_set_title; assumption
                | apply className_indicator; [reflexivity | assumption]]|].

Ltac keeps_step :=
  cbn [keeps_classes bind try_catch fetch settled lift await_json await_text
       dom_ emit].

Ltac keeps_case :=
  match goal with
  | |- context [try_catch (bind (lift ?r) _) _] =>
    let e := fresh "e" in let x := fresh "x" in
    destruct r as [e|x]; keeps_step
  | |- context [try_catch (bind (if to_string_throws ?v then _ else _) _) _] =>
    destruct (to_string_throws v); keeps_step
  | |- context [try_catch
                  (bind (bind (if to_string_throws ?v then _ else _) _) _) _] =>
    destruct (to_string_throws v); keeps_step
  | |- _ /\ _ => keeps_dom
  end.

Ltac keeps_failed :=
  unfold card_failed, set_textContent; cbn [to_string_throws]; keeps_step;
  repeat keeps_dom; exact I.

Lemma keeps_fetchCloudFlareData : keeps_classes fetchCloudFlareData.
Proof.
  unfold fetchCloudFlareData, set_textContent. keeps_step. keeps_dom.
  intros t [e|r]; keeps_step; [keeps_failed|].
  intros [e|data]; keeps_step; [keeps_failed|].
  repeat (keeps_case; try solve [keeps_failed]).
Qed.

Lemma keeps_fetchTwitterData : keeps_classes fetchTwitterData.
Proof.
  unfold fetchTwitterData, set_textContent. keeps_step. keeps_dom.
  intros t [e|r]; keeps_step; [keeps_failed|].
  intros [e|text]; keeps_step; [keeps_failed|].
  cbv zeta. repeat (keeps_case; try solve [keeps_failed]).
Qed.

Lemma keeps_fetchEdgeOneData number_to_string :
  keeps_classes (fetchEdgeOneData number_to_string).
Proof.
  unfold fetchEdgeOneData, set_textContent. keeps_step. keeps_dom.
  intros [e|r]; keeps_step; [keeps_failed|].
  intros [e|data]; keeps_step; [keeps_failed|].
  repeat (keeps_case; try solve [keeps_failed]).
Qed.

Lemma keeps_cascade configs : keeps_classes (cascade configs).
Proof.
  induction configs as [|c rest IH].
  - unfold cascade, failure_path, set_textContent. cbn [to_string_throws].
    keeps_step. repeat keeps_dom. exact I.
  - cbn [cascade]. unfold attempt, set_textContent. keeps_step.
    intros t [e|r]; keeps_step; [exact IH|].
    intros [e|data]; keeps_step; [exact IH|].
    destruct (parser c data) as [e|res]; keeps_step; [exact IH|].
    repeat (keeps_case; try exact IH); try exact I.
Qed.

Lemma keeps_fetchIpipData : keeps_classes fetchIpipData.
Proof.
  unfold fetchIpipData, fetchIpipDataWith. keeps_step. keeps_dom.
  apply keeps_cascade.
Qed.

Lemma clickable_className e e' : className e = className e' -> clickable e = clickable e'.
Proof.
  intros H. unfold clickable, classList_contains, classList. rewrite H. reflexivity.
Qed.

Section Classes.
Variable number_to_string : float -> jsstring.
Variable ipTextElements : list node.
Variable hasNetworkCards : bool.
Variable w : world.

Lemma advance_keeps {A} (t : async A) : forall s,
  keeps_classes t ->
  keeps_classes (fst (advance w t s))
  /\ forall n, is_indicator n = false ->
       className (page (snd (advance w t s)) n) = className (page s n).
Proof.
  induction t as [a|e|f k IH|k IH|k IH|e k IH|u k IH|r k IH|r k IH];
    intros s K; cbn [advance fst snd];
    try (split; [exact K | reflexivity]).
  - destruct K as [F K]. destruct (IH (on_page f s) K) as [K' F'].
    split; [exact K'|]. intros n Hn. rewrite (F' n Hn). apply F, Hn.
  - exact (IH (page s) s (K _)).
  - exact (IH _ (tick s) (K _)).
  - exact (IH (record e s) K).
Qed.

Lemma resume_keeps {A} (t t1 : async A) :
  keeps_classes t -> resume w t = Some t1 -> keeps_classes t1.
Proof.
  destruct t; cbn [resume keeps_classes]; intros K E; try discriminate;
    injection E as <-; apply K.
Qed.

Lemma loadNetworkInfo_classes_kept s0 m0 :
  loadNetworkInfo number_to_string hasNetworkCards w s0 = Some m0 ->
  classes_kept s0 m0.
Proof.
  unfold loadNetworkInfo. destruct hasNetworkCards; [|discriminate].
  unfold fetchers. cbn [start].
  destruct (advance_keeps fetchIpipData s0 keeps_fetchIpipData) as [K1 F1].
  destruct (advance w fetchIpipData s0) as [t1 s1]. cbn [fst snd] in *.
  destruct (advance_keeps (fetchEdgeOneData number_to_string) s1
              (keeps_fetchEdgeOneData _)) as [K2 F2].
  destruct (advance w (fetchEdgeOneData number_to_string) s1) as [t2 s2].
  cbn [fst snd] in *.
  destruct (advance_keeps fetchCloudFlareData s2 keeps_fetchCloudFlareData)
    as [K3 F3].
  destruct (advance w fetchCloudFlareData s2) as [t3 s3]. cbn [fst snd] in *.
  destruct (advance_keeps fetchTwitterData s3 keeps_fetchTwitterData) as [K4 F4].
  destruct (advance w fetchTwitterData s3) as [t4 s4]. cbn [fst snd] in *.
  intros E. injection E as <-. split; cbn [tasks st].
  - repeat (constructor; [assumption|]). constructor.
  - intros _ n Hn. rewrite F4, F3, F2, F1 by assumption. reflexivity.
Qed.

Lemma step_classes_kept s0 m m' :
  step number_to_string ipTextElements w m m' ->
  classes_kept s0 m -> classes_kept s0 m'.
Proof.
  intros Hs [K C]. destruct Hs as [m i t t1 t' s' Hn Hr Ha|m Hj Hf].
  - pose proof (Forall_nth_error _ _ _ _ K Hn) as Kt.
    destruct (advance_keeps t1 (st m) (resume_keeps t t1 Kt Hr)) as [K' F'].
    rewrite Ha in K', F'. cbn [fst snd] in K', F'.
    split; cbn [tasks join st].
    + apply Forall_replace_nth; assumption.
    + intros Hj n Hnn. rewrite (F' n Hnn). apply C; [|exact Hnn].
      destruct (join m), t'; cbn in Hj; congruence.
  - split; cbn [tasks join st]; [exact K | discriminate].
Qed.

(** [X25] When the join of [loadNetworkInfo] has fulfilled (and so whenever
    nothing is left to run), an element of class [ip-text] that is not a
    status indicator is clickable exactly when it was clickable when
    [loadNetworkInfo] was called or it shows an address now: the four
    functions never touch the class of such an element, so an address that
    ended as the error span, the loading text or the unknown marker is
    clickable only if it was before. *)
Theorem clickable_after_join s0 m0 k m n :
  loadNetworkInfo number_to_string hasNetworkCards w s0 = Some m0 ->
  steps number_to_string ipTextElements w k m0 m ->
  join m = Joined \/ (forall m', ~ step number_to_string ipTextElements w m m') ->
  In n ipTextElements ->
  is_indicator n = false ->
  clickable (page (st m) n)
  = clickable (page s0 n) || shows_address number_to_string (page (st m) n).
Proof.
  intros Hload Hsteps Hend Hin Hn.
  destruct (loadNetworkInfo_spec number_to_string hasNetworkCards w s0 m0 Hload)
    as (Hi0 & _ & _).
  assert (Hj : join m = Joined).
  { destruct Hend as [Hj|Hfin]; [exact Hj|].
    apply (final_joined number_to_string ipTextElements w m); [|exact Hfin].
    exact (steps_inv number_to_string ipTextElements w k m0 m Hsteps Hi0). }
  clear Hend. revert Hj.
  induction Hsteps as [m|k m1 m2 m3 H12 IH H23]; intros Hj.
  - destruct (inv_join _ Hi0) as [[Hw _]|(_ & Hm & _)]; [congruence|].
    unfold loadNetworkInfo in Hload. destruct hasNetworkCards; [|discriminate].
    destruct (start w (fetchers number_to_string) s0). injection Hload as <-.
    discriminate Hm.
  - pose proof (steps_inv number_to_string ipTextElements w k m1 m2 H12 Hi0) as Hi2.
    assert (C : classes_kept s0 m2).
    { clear - H12 Hload. induction H12 as [m|k m1 m2 m3 H12 IH H23].
      - apply loadNetworkInfo_classes_kept. exact Hload.
      - eapply step_classes_kept; [exact H23 | apply IH; exact Hload]. }
    destruct H23 as [m i t t1 t' s' Hn' Hr Ha|m Hw Hf].
    + cbn [join] in Hj.
      assert (Hj2 : join m = Joined).
      { destruct (join m), t'; cbn in Hj; congruence. }
      exfalso. eapply (joined_final number_to_string ipTextElements w m);
        [exact Hi2 | exact Hj2|].
      eapply step_resume; eassumption.
    + cbn [st on_page page]. destruct C as [_ C].
      rewrite <- (clickable_className _ _ (C Hw n Hn)).
      rewrite markIpAsClickable_pointwise.
      apply existsb_node_eqb in Hin. rewrite Hin. cbn [andb].
      destruct (shows_address number_to_string (page (st m) n)) eqn:E1,
               (clickable (page (st m) n)) eqn:E2; cbn [andb negb orb];
        rewrite ?E1, ?E2; try reflexivity.
      change (shows_address number_to_string
                (classList_add (js "clickable") (page (st m) n)))
        with (shows_address number_to_string (page (st m) n)).
      rewrite E1. unfold clickable. apply classList_contains_add, clickable_token.
Qed.
End Classes.

Lemma clickable_after_join_witness :
  clickable (page (st offline_end) (ById (js "cf-ip"))) = false.
Proof.
  pose (next := step_resumed (fun _ => []) sample_ip_elements offline).
  change false with (false || false) at 2.
  apply (clickable_after_join (fun _ => []) sample_ip_elements true
           offline masked_page offline_run_0 7 offline_end (ById (js "cf-ip")));
    [reflexivity | | left; reflexivity | right; left; reflexivity | reflexivity].
  apply steps_S with (m2 := offline_run_6);
    [|apply step_join; vm_compute; reflexivity].
  apply steps_S with (m2 := offline_run_5);
    [|exact (next offline_run_5 3 _ _ eq_refl eq_refl)].
  apply steps_S with (m2 := offline_run_4);
    [|exact (next offline_run_4 2 _ _ eq_refl eq_refl)].
  apply steps_S with (m2 := offline_run_3);
    [|exact (next offline_run_3 1 _ _ eq_refl eq_refl)].
  apply steps_S with (m2 := offline_run_2);
    [|exact (next offline_run_2 0 _ _ eq_refl eq_refl)].
  apply steps_S with (m2 := offline_run_1);
    [|exact (next offline_run_1 0 _ _ eq_refl eq_refl)].
  apply steps_S with (m2 := offline_run_0);
    [|exact (next offline_run_0 0 _ _ eq_refl eq_refl)].
  apply steps_O.
Defined.
